(** * PowerMateEventHandler

    A shallow embedding of [PowerMateEventHandler.py], the event handler for
    the Griffin PowerMate knob: the consolidation of raw evdev records into
    click and turn events, the LED brightness channel, and the pull API.

    Conventions of the embedding.

    - Python integers are [Z].  A number on which the program computes, the
      turn delay and the long-press time with its countdown, is a Python
      number: an int or a float, a float being an IEEE-754 binary64 number
      of [SpecFloat], with the arithmetic and comparisons of Python.  So
      is the timestamp of a record in [event_time_in_ms].  A duration that
      the program only hands to a library call (the read delay, the
      double-click time, the lengths of a flash) is a rational [Q]: the
      call looks at its sign only.
    - A method of the handler is a function from the state of the world to an
      outcome: it returns a value, raises an exception, or is still blocked
      in a queue [get] or a thread [join] when the scripted future ends.
    - The world holds the attributes of the handler object and what the
      handler observes of its environment: the successive readings of the
      wall clock, the values written to the device, the module global
      [led_brightness], whether the threads it joins end. *)

From Stdlib Require Import ZArith QArith Qround List Bool Lia SpecFloat.
From Stdlib Require String Ascii.
Import ListNotations.
Import String.StringSyntax Ascii.AsciiSyntax.
Delimit Scope string_scope with string.
Delimit Scope char_scope with char.
Open Scope Z_scope.

(** ** Module constants *)

Definition BUTTON_PUSHED : Z := 256.
Definition KNOB_TURNED : Z := 7.
Definition POSITIVE : Z := 1.
Definition NEGATIVE : Z := -1.

(** Values of the module globals when the [def] statements of the class are
    executed; default arguments are bound to these once. *)
Definition led_brightness_at_def : Z := 100.
Definition flash_duration_at_def : Q := 15 # 100.

Inductive ConsolidatedEventCode : Set :=
| SINGLE_CLICK
| DOUBLE_CLICK
| LONG_CLICK
| RIGHT_TURN
| LEFT_TURN.

Definition enum_value (c : ConsolidatedEventCode) : Z :=
  match c with
  | SINGLE_CLICK => 0
  | DOUBLE_CLICK => 1
  | LONG_CLICK => 2
  | RIGHT_TURN => 3
  | LEFT_TURN => 4
  end.

(** The fields of [evdev.InputEvent] that the program reads. *)
Record InputEvent : Set := mkInputEvent {
  sec : Z;
  usec : Z;
  code : Z;
  value : Z
}.

(** What [get_next] hands to the caller. *)
Inductive Event : Set :=
| Consolidated (c : ConsolidatedEventCode)
| Raw (e : InputEvent).

Inductive Thread : Set := RawThread | ConsolidatedThread.

Inductive Exception : Set :=
| CaptureNotStarted
| QueueEmpty
| ValueError
| OverflowError
| IOError
| AttributeError.

(** ** Rational comparisons as booleans *)

Definition Qlt_bool (a b : Q) : bool := negb (Qle_bool b a).

(** ** Queue.Queue

    A queue is represented by the answers its consumer is going to receive,
    oldest first: [Some a] is an item, [None] a moment at which the queue is
    found empty (a non-blocking [get], or a timed [get] whose timeout
    elapses).  Items that another thread puts later are part of the
    sequence; [put] by the modelled thread appends.  A blocking [get] that
    reaches the end of the sequence is still waiting when the script ends. *)

Module Queue.

Definition t (A : Type) : Type := list (option A).

Inductive answer (A : Type) : Type :=
| Item (a : A) (q : t A)
| Empty (q : t A)
| BadTimeout
| Waiting (q : t A).
Arguments Item {A}.
Arguments Empty {A}.
Arguments BadTimeout {A}.
Arguments Waiting {A}.

Definition put {A} (a : A) (q : t A) : t A := q ++ [Some a].

(** [not_empty.wait()] in a loop: wait through the empty moments. *)
Fixpoint wait {A} (q : t A) : answer A :=
  match q with
  | [] => Waiting []
  | None :: q' => wait q'
  | Some a :: q' => Item a q'
  end.

(** [Queue.get(block, timeout)] of Python 2.7: a non-blocking get ignores
    the timeout; a blocking get without timeout waits; a negative timeout
    is rejected before the queue is looked at. *)
Definition get {A} (block : bool) (timeout : option Q) (q : t A)
  : answer A :=
  if negb block then
    match q with
    | Some a :: q' => Item a q'
    | None :: q' => Empty q'
    | [] => Empty []
    end
  else
    match timeout with
    | None => wait q
    | Some secs =>
        if Qlt_bool secs 0 then BadTimeout
        else match q with
             | Some a :: q' => Item a q'
             | None :: q' => Empty q'
             | [] => Waiting []
             end
    end.

End Queue.

(** ** Python numbers

    A float is an IEEE-754 binary64 number. *)

Definition prec : Z := 53.
Definition emax : Z := 1024.

Inductive Number : Set :=
| Int (n : Z)
| Float (f : spec_float).

(** [float(n)] for an integer: correctly rounded; too large a magnitude
    raises [OverflowError]. *)
Definition float_of_int (n : Z) : Exception + spec_float :=
  match binary_normalize prec emax n 0 false with
  | S754_infinity _ => inl OverflowError
  | f => inr f
  end.

(** [int(f)]: truncation toward zero. *)
Definition int_of_float (f : spec_float) : Exception + Z :=
  match f with
  | S754_zero _ => inr 0
  | S754_finite s m e =>
      let a := if 0 <=? e then Z.shiftl (Z.pos m) e
               else Z.shiftr (Z.pos m) (- e) in
      inr (if s then - a else a)
  | S754_infinity _ => inl OverflowError
  | S754_nan => inl ValueError
  end.

(** The literals [1000000.0] and [1000] (converted for the product), and
    [float(1000)]. *)
Definition f_1000000 : spec_float := binary_normalize prec emax 1000000 0 false.
Definition f_1000 : spec_float := binary_normalize prec emax 1000 0 false.

(** The conversion that arithmetic applies to an operand beside a float. *)
Definition float_of_number (x : Number) : Exception + spec_float :=
  match x with
  | Int n => float_of_int n
  | Float f => inr f
  end.

(** [a - b]: exact on two ints, otherwise the binary64 difference of the
    operands as floats. *)
Definition number_sub (a b : Number) : Exception + Number :=
  match a, b with
  | Int m, Int n => inr (Int (m - n))
  | _, _ =>
      match float_of_number a with
      | inl e => inl e
      | inr fa =>
          match float_of_number b with
          | inl e => inl e
          | inr fb => inr (Float (SFsub prec emax fa fb))
          end
      end
  end.

(** What a number stands for: a rational, an infinity, or nothing. *)
Inductive Value : Set :=
| Finite (q : Q)
| Infinite (negative : bool)
| NotANumber.

Definition float_value (f : spec_float) : Value :=
  match f with
  | S754_zero _ => Finite 0%Q
  | S754_finite s m e =>
      let z := if s then Z.neg m else Z.pos m in
      Finite (if 0 <=? e then inject_Z (Z.shiftl z e)
              else z # Pos.shiftl 1 (Z.to_N (- e)))
  | S754_infinity s => Infinite s
  | S754_nan => NotANumber
  end.

Definition number_value (x : Number) : Value :=
  match x with
  | Int n => Finite (inject_Z n)
  | Float f => float_value f
  end.

(** Python compares a number with an int by value; not-a-number is in no
    order with anything. *)
Definition compare_int (x : Number) (n : Z) : option comparison :=
  match number_value x with
  | Finite q => Some (q ?= inject_Z n)%Q
  | Infinite true => Some Lt
  | Infinite false => Some Gt
  | NotANumber => None
  end.

(** [x > n] *)
Definition number_gt (x : Number) (n : Z) : bool :=
  match compare_int x n with
  | Some Gt => true
  | _ => false
  end.

(** [x <= n] *)
Definition number_le (x : Number) (n : Z) : bool :=
  match compare_int x n with
  | Some Lt | Some Eq => true
  | _ => false
  end.

(** A number handed to [Queue.get] as its timeout.  [Queue.get] refuses a
    timeout below zero, minus infinity among them, which is given here as
    [-1]; plus infinity and not-a-number never elapse, like no timeout. *)
Definition timeout_of (x : Number) : option Q :=
  match number_value x with
  | Finite q => Some q
  | Infinite true => Some (-1)%Q
  | Infinite false | NotANumber => None
  end.

(** ** The state of the world *)

Record World : Type := mkWorld {
  (* attributes of the handler object *)
  __raw_queue : Queue.t InputEvent;
  __raw_thread : option Thread;
  __consolidated_queue : Queue.t ConsolidatedEventCode;
  __consolidated_thread : option Thread;
  (* the values written through the UInput, oldest first *)
  __uinput : list Z;
  __led_brightness : Z;
  __event_capture_running : bool;
  __turn_delay : Number;
  __read_delay : option Q;
  __long_press_time : Number;
  __double_click_time : Q;
  __time_of_last_turn : Z;
  (* created by [set_long_click_time]; absent until then *)
  __long_click_time : option Number;
  (* the module global, as importing code may have rebound it *)
  led_brightness : Z;
  (* wall clock: [clock n] is the n-th reading of [time.time()], in ms *)
  clock : nat -> Z;
  ticks : nat;
  (* for each [join] to come, whether the thread joined ends *)
  joins : list bool
}.

Definition with_raw_queue v (w : World) : World :=
  mkWorld v (__raw_thread w) (__consolidated_queue w)
    (__consolidated_thread w) (__uinput w) (__led_brightness w)
    (__event_capture_running w) (__turn_delay w) (__read_delay w)
    (__long_press_time w) (__double_click_time w) (__time_of_last_turn w)
    (__long_click_time w) (led_brightness w) (clock w) (ticks w)
    (joins w).

Definition with_raw_thread v (w : World) : World :=
  mkWorld (__raw_queue w) v (__consolidated_queue w) (__consolidated_thread w)
    (__uinput w) (__led_brightness w) (__event_capture_running w)
    (__turn_delay w) (__read_delay w) (__long_press_time w)
    (__double_click_time w) (__time_of_last_turn w) (__long_click_time w)
    (led_brightness w) (clock w) (ticks w)
    (joins w).

Definition with_consolidated_queue v (w : World) : World :=
  mkWorld (__raw_queue w) (__raw_thread w) v (__consolidated_thread w)
    (__uinput w) (__led_brightness w) (__event_capture_running w)
    (__turn_delay w) (__read_delay w) (__long_press_time w)
    (__double_click_time w) (__time_of_last_turn w) (__long_click_time w)
    (led_brightness w) (clock w) (ticks w)
    (joins w).

Definition with_consolidated_thread v (w : World) : World :=
  mkWorld (__raw_queue w) (__raw_thread w) (__consolidated_queue w) v
    (__uinput w) (__led_brightness w) (__event_capture_running w)
    (__turn_delay w) (__read_delay w) (__long_press_time w)
    (__double_click_time w) (__time_of_last_turn w) (__long_click_time w)
    (led_brightness w) (clock w) (ticks w)
    (joins w).

Definition with_uinput v (w : World) : World :=
  mkWorld (__raw_queue w) (__raw_thread w) (__consolidated_queue w)
    (__consolidated_thread w) v (__led_brightness w)
    (__event_capture_running w) (__turn_delay w) (__read_delay w)
    (__long_press_time w) (__double_click_time w) (__time_of_last_turn w)
    (__long_click_time w) (led_brightness w) (clock w) (ticks w)
    (joins w).

Definition with_led_brightness v (w : World) : World :=
  mkWorld (__raw_queue w) (__raw_thread w) (__consolidated_queue w)
    (__consolidated_thread w) (__uinput w) v (__event_capture_running w)
    (__turn_delay w) (__read_delay w) (__long_press_time w)
    (__double_click_time w) (__time_of_last_turn w) (__long_click_time w)
    (led_brightness w) (clock w) (ticks w)
    (joins w).

Definition with_event_capture_running v (w : World) : World :=
  mkWorld (__raw_queue w) (__raw_thread w) (__consolidated_queue w)
    (__consolidated_thread w) (__uinput w) (__led_brightness w) v
    (__turn_delay w) (__read_delay w) (__long_press_time w)
    (__double_click_time w) (__time_of_last_turn w) (__long_click_time w)
    (led_brightness w) (clock w) (ticks w)
    (joins w).

Definition with_turn_delay v (w : World) : World :=
  mkWorld (__raw_queue w) (__raw_thread w) (__consolidated_queue w)
    (__consolidated_thread w) (__uinput w) (__led_brightness w)
    (__event_capture_running w) v (__read_delay w) (__long_press_time w)
    (__double_click_time w) (__time_of_last_turn w) (__long_click_time w)
    (led_brightness w) (clock w) (ticks w)
    (joins w).

Definition with_read_delay v (w : World) : World :=
  mkWorld (__raw_queue w) (__raw_thread w) (__consolidated_queue w)
    (__consolidated_thread w) (__uinput w) (__led_brightness w)
    (__event_capture_running w) (__turn_delay w) v (__long_press_time w)
    (__double_click_time w) (__time_of_last_turn w) (__long_click_time w)
    (led_brightness w) (clock w) (ticks w)
    (joins w).

Definition with_long_press_time v (w : World) : World :=
  mkWorld (__raw_queue w) (__raw_thread w) (__consolidated_queue w)
    (__consolidated_thread w) (__uinput w) (__led_brightness w)
    (__event_capture_running w) (__turn_delay w) (__read_delay w) v
    (__double_click_time w) (__time_of_last_turn w) (__long_click_time w)
    (led_brightness w) (clock w) (ticks w)
    (joins w).

Definition with_double_click_time v (w : World) : World :=
  mkWorld (__raw_queue w) (__raw_thread w) (__consolidated_queue w)
    (__consolidated_thread w) (__uinput w) (__led_brightness w)
    (__event_capture_running w) (__turn_delay w) (__read_delay w)
    (__long_press_time w) v (__time_of_last_turn w) (__long_click_time w)
    (led_brightness w) (clock w) (ticks w)
    (joins w).

Definition with_time_of_last_turn v (w : World) : World :=
  mkWorld (__raw_queue w) (__raw_thread w) (__consolidated_queue w)
    (__consolidated_thread w) (__uinput w) (__led_brightness w)
    (__event_capture_running w) (__turn_delay w) (__read_delay w)
    (__long_press_time w) (__double_click_time w) v (__long_click_time w)
    (led_brightness w) (clock w) (ticks w)
    (joins w).

Definition with_long_click_time v (w : World) : World :=
  mkWorld (__raw_queue w) (__raw_thread w) (__consolidated_queue w)
    (__consolidated_thread w) (__uinput w) (__led_brightness w)
    (__event_capture_running w) (__turn_delay w) (__read_delay w)
    (__long_press_time w) (__double_click_time w) (__time_of_last_turn w) v
    (led_brightness w) (clock w) (ticks w)
    (joins w).

Definition with_ticks v (w : World) : World :=
  mkWorld (__raw_queue w) (__raw_thread w) (__consolidated_queue w)
    (__consolidated_thread w) (__uinput w) (__led_brightness w)
    (__event_capture_running w) (__turn_delay w) (__read_delay w)
    (__long_press_time w) (__double_click_time w) (__time_of_last_turn w)
    (__long_click_time w) (led_brightness w) (clock w) v
    (joins w).

Definition with_joins v (w : World) : World :=
  mkWorld (__raw_queue w) (__raw_thread w) (__consolidated_queue w)
    (__consolidated_thread w) (__uinput w) (__led_brightness w)
    (__event_capture_running w) (__turn_delay w) (__read_delay w)
    (__long_press_time w) (__double_click_time w) (__time_of_last_turn w)
    (__long_click_time w) (led_brightness w) (clock w) (ticks w) v.

(** ** Outcomes and sequencing *)

Inductive Outcome (A : Type) : Type :=
| Returned (a : A) (w : World)
| Raised (e : Exception) (w : World)
| Pending (w : World).
Arguments Returned {A}.
Arguments Raised {A}.
Arguments Pending {A}.

Definition M (A : Type) : Type := World -> Outcome A.

Definition ret {A} (a : A) : M A := fun w => Returned a w.

Definition bind {A B} (m : M A) (k : A -> M B) : M B :=
  fun w =>
    match m w with
    | Returned a w' => k a w'
    | Raised e w' => Raised e w'
    | Pending w' => Pending w'
    end.

Definition raise {A} (e : Exception) : M A := fun w => Raised e w.

Definition gets {A} (f : World -> A) : M A := fun w => Returned (f w) w.

Definition modify (f : World -> World) : M unit := fun w => Returned tt (f w).

(** [try: m / except Queue.Empty: h] *)
Definition try_except_Empty {A} (m h : M A) : M A :=
  fun w =>
    match m w with
    | Raised QueueEmpty w' => h w'
    | r => r
    end.

Declare Scope py_scope.
Delimit Scope py_scope with py.
Notation "x <- m ;; k" := (bind m (fun x => k))
  (at level 61, m at next level, right associativity) : py_scope.
Notation "m ;; k" := (bind m (fun _ => k))
  (at level 61, right associativity) : py_scope.
Open Scope py_scope.

(** [for i in range(n): body] *)
Fixpoint for_range (n : nat) (body : M unit) : M unit :=
  match n with
  | O => ret tt
  | S n' => body ;; for_range n' body
  end.

(** ** Library calls *)

(** [self.__raw_queue.get(block, timeout)] *)
Definition raw_queue_get (block : bool) (timeout : option Q) : M InputEvent :=
  fun w =>
    match Queue.get block timeout (__raw_queue w) with
    | Queue.Item a q => Returned a (with_raw_queue q w)
    | Queue.Empty q => Raised QueueEmpty (with_raw_queue q w)
    | Queue.BadTimeout => Raised ValueError w
    | Queue.Waiting q => Pending (with_raw_queue q w)
    end.

(** [self.__consolidated_queue.get(block, timeout)] *)
Definition consolidated_queue_get (block : bool) (timeout : option Q)
  : M ConsolidatedEventCode :=
  fun w =>
    match Queue.get block timeout (__consolidated_queue w) with
    | Queue.Item a q => Returned a (with_consolidated_queue q w)
    | Queue.Empty q => Raised QueueEmpty (with_consolidated_queue q w)
    | Queue.BadTimeout => Raised ValueError w
    | Queue.Waiting q => Pending (with_consolidated_queue q w)
    end.

(** [self.__consolidated_queue.put(c)] *)
Definition consolidated_queue_put (c : ConsolidatedEventCode) : M unit :=
  modify (fun w => with_consolidated_queue
                     (Queue.put c (__consolidated_queue w)) w).

(** [time.sleep(secs)]: a negative length is refused. *)
Definition time_sleep (secs : Q) : M unit :=
  if Qlt_bool secs 0 then raise IOError else ret tt.

(** [self.__uinput.write(EV_MSC, MSC_PULSELED, v); self.__uinput.syn()] *)
Definition uinput_write (v : Z) : M unit :=
  modify (fun w => with_uinput (__uinput w ++ [v]) w).

(** The brightness the device LED shows: the last value written to it. *)
Definition device_led (w : World) : option Z :=
  last (map Some (__uinput w)) None.

(** ** Module functions *)

(** [int((event.usec / 1000000.0 + event.sec) * 1000)] *)
Definition event_time_in_ms (event : InputEvent) : Exception + Z :=
  match float_of_int (usec event) with
  | inl e => inl e
  | inr u =>
      match float_of_int (sec event) with
      | inl e => inl e
      | inr s =>
          int_of_float
            (SFmul prec emax
               (SFadd prec emax (SFdiv prec emax u f_1000000) s)
               f_1000)
      end
  end.

(** The timestamp as the specification words it: the floor of
    [(usec/1_000_000 + sec) * 1000] in exact arithmetic. *)
Definition spec_event_time_in_ms (event : InputEvent) : Z :=
  Qfloor ((inject_Z (usec event) / 1000000 + inject_Z (sec event)) * 1000)%Q.

Definition lift {A} (r : Exception + A) : M A :=
  match r with
  | inl e => raise e
  | inr a => ret a
  end.

(** ** Methods of the handler *)

(** [int(round(time.time() * 1000))]: the next reading of the wall clock. *)
Definition __get_time_in_ms : M Z :=
  fun w => Returned (clock w (ticks w)) (with_ticks (S (ticks w)) w).

Definition __knob_turned (event : InputEvent) : M unit :=
  T <- lift (event_time_in_ms event) ;;
  delay <- gets __turn_delay ;;
  gap <- lift (number_sub (Int T) delay) ;;
  last_turn <- gets __time_of_last_turn ;;
  if number_gt gap last_turn then
    (if 0 <? value event
     then consolidated_queue_put RIGHT_TURN
     else consolidated_queue_put LEFT_TURN) ;;
    now <- __get_time_in_ms ;;
    modify (with_time_of_last_turn now)
  else ret tt.

(** [(event == None) or (event.code != BUTTON_PUSHED)] *)
Definition not_button (event : option InputEvent) : bool :=
  match event with
  | None => true
  | Some e => negb (code e =? BUTTON_PUSHED)
  end.

(** [try: event = self.__raw_queue.get(timeout=x)
     except Queue.Empty: event = None] *)
Definition timed_pop (x : Number) : M (option InputEvent) :=
  try_except_Empty
    (e <- raw_queue_get true (timeout_of x) ;; ret (Some e))
    (ret None).

(** [x - ((now - check_time) / float(1000))], [now] being what
    [self.__get_time_in_ms()] has returned. *)
Definition shrink (x : Number) (check_time now : Z) : Exception + Number :=
  match float_of_int (now - check_time) with
  | inl e => inl e
  | inr elapsed => number_sub x (Float (SFdiv prec emax elapsed f_1000))
  end.

(** A bound on the number of blocking pops that the raw queue can still
    answer: every pop that returns consumes at least one answer. *)
Definition pops_left : M nat := gets (fun w => S (length (__raw_queue w))).

(** The [while] loop of the long-press race, lines 215-221. *)
Fixpoint race_loop (fuel : nat) (event : option InputEvent) (x : Number)
  : M (option InputEvent * Number) :=
  if not_button event && number_gt x 0 then
    match fuel with
    | O => fun w => Pending w
    | S fuel' =>
        check_time <- __get_time_in_ms ;;
        event <- timed_pop x ;;
        now <- __get_time_in_ms ;;
        x <- lift (shrink x check_time now) ;;
        race_loop fuel' event x
    end
  else ret (event, x).

(** Lines 206-221 of [__button_press]: the countdown of the long-press
    window; yields the last record seen and the time left. *)
Definition __button_press_race (time_pressed : Z)
  : M (option InputEvent * Number) :=
  x <- gets __long_press_time ;;
  let check_time := time_pressed in
  event <- timed_pop x ;;
  now <- __get_time_in_ms ;;
  x <- lift (shrink x check_time now) ;;
  fuel <- pops_left ;;
  race_loop fuel event x.

(** [while event.code != BUTTON_PUSHED: event = self.__raw_queue.get()] *)
Fixpoint drain_loop (fuel : nat) (event : InputEvent) : M unit :=
  if negb (code event =? BUTTON_PUSHED) then
    match fuel with
    | O => fun w => Pending w
    | S fuel' =>
        event <- raw_queue_get true None ;;
        drain_loop fuel' event
    end
  else ret tt.

(** Lines 223-245 of [__button_press]: what is done with the outcome of the
    race. *)
Definition __button_press_resolve (event : option InputEvent)
  (x : Number) : M unit :=
  if number_le x 0 then
    consolidated_queue_put LONG_CLICK ;;
    event <- raw_queue_get true None ;;
    fuel <- pops_left ;;
    drain_loop fuel event
  else
    dct <- gets __double_click_time ;;
    event <- try_except_Empty
               (raw_queue_get true None ;;
                e <- raw_queue_get true (Some dct) ;;
                ret (Some e))
               (ret None) ;;
    match event with
    | None => consolidated_queue_put SINGLE_CLICK
    | Some e =>
        if code e =? BUTTON_PUSHED
        then consolidated_queue_put DOUBLE_CLICK
        else __knob_turned e
    end.

Definition __button_press (time_pressed : Z) : M unit :=
  r <- __button_press_race time_pressed ;;
  __button_press_resolve (fst r) (snd r).

(** One turn of the [while True] loop of [__consolidated]; [false] when the
    loop returns because capture is no longer running. *)
Definition __consolidated_iteration : M bool :=
  running <- gets __event_capture_running ;;
  if negb running then ret false
  else
    read_delay <- gets __read_delay ;;
    event <- try_except_Empty
               (e <- raw_queue_get true read_delay ;; ret (Some e))
               (ret None) ;;
    match event with
    | None => ret true
    | Some event =>
        (if code event =? KNOB_TURNED then __knob_turned event
         else if code event =? BUTTON_PUSHED then
           if value event =? POSITIVE then
             now <- __get_time_in_ms ;;
             __button_press now
           else ret tt
         else ret tt) ;;
        ret true
    end.

Definition set_led_brightness (brightness : Z) : M unit :=
  let brightness :=
    if brightness <? 0 then 0
    else if 255 <? brightness then 255
    else brightness in
  uinput_write brightness ;;
  modify (with_led_brightness brightness).

(** An omitted argument is [None] and takes the default bound when the
    method was defined. *)
Definition flash_led (num_flashes brightness : option Z)
  (duration sleep : option Q) : M unit :=
  let num_flashes := match num_flashes with Some n => n | None => 2 end in
  let brightness :=
    match brightness with Some b => b | None => led_brightness_at_def end in
  let duration :=
    match duration with Some d => d | None => flash_duration_at_def end in
  let sleep := match sleep with Some s => s | None => 15 # 100 end in
  reset <- gets __led_brightness ;;
  for_range (Z.to_nat num_flashes)
    (set_led_brightness brightness ;;
     time_sleep duration ;;
     set_led_brightness 0 ;;
     time_sleep sleep) ;;
  modify (with_led_brightness reset).

(** The threads themselves are not part of the state; what they do to the
    queues is, and whether they end when they are joined. *)
Definition start (raw_only : bool) : M unit :=
  modify (with_event_capture_running true) ;;
  let raw := Some RawThread in
  let cons := if negb raw_only then Some ConsolidatedThread else None in
  modify (with_raw_thread raw) ;;
  modify (with_consolidated_thread cons).

(** [thread.join()]: returns once the thread has ended, which the next
    entry of [joins] tells; a thread that does not end leaves the caller
    waiting. *)
Definition thread_join (t : Thread) : M unit :=
  fun w =>
    match joins w with
    | true :: later => Returned tt (with_joins later w)
    | false :: later => Pending (with_joins later w)
    | [] => Pending w
    end.

Definition stop : M unit :=
  running <- gets __event_capture_running ;;
  if running then
    modify (with_event_capture_running false) ;;
    cons <- gets __consolidated_thread ;;
    match cons with
    | Some t => thread_join t
    | None => ret tt
    end ;;
    raw <- gets __raw_thread ;;
    match raw with
    | Some t => thread_join t
    | None => raise AttributeError
    end
  else ret tt.

Definition get_next (block : bool) (timeout : option Q) : M (option Event) :=
  running <- gets __event_capture_running ;;
  if negb running then raise CaptureNotStarted
  else
    try_except_Empty
      (cons <- gets __consolidated_thread ;;
       match cons with
       | Some _ =>
           c <- consolidated_queue_get block timeout ;;
           ret (Some (Consolidated c))
       | None =>
           e <- raw_queue_get block timeout ;;
           ret (Some (Raw e))
       end)
      (ret None).

Definition set_turn_delay (delay : Number) : M unit :=
  modify (with_turn_delay delay).

Definition set_read_delay (delay : option Q) : M unit :=
  modify (with_read_delay delay).

Definition set_double_click_time (time : Q) : M unit :=
  modify (with_double_click_time time).

(** [self.__long_click_time = time] *)
Definition set_long_click_time (time : Number) : M unit :=
  modify (with_long_click_time (Some time)).

(** [__init__] once the device has been found.  The queues are created
    empty; their arguments here are the answers they are going to give. *)
Definition __init__ (brightness : Z) (read_delay : option Q)
  (turn_delay long_press_time : Number) (double_click_time : Q)
  (raw : Queue.t InputEvent) (cons : Queue.t ConsolidatedEventCode)
  (global_led_brightness : Z) (wall_clock : nat -> Z)
  (joins_to_come : list bool) : Outcome unit :=
  (set_led_brightness brightness ;;
   modify (with_event_capture_running false) ;;
   modify (with_turn_delay turn_delay) ;;
   modify (with_read_delay read_delay) ;;
   modify (with_long_press_time long_press_time) ;;
   modify (with_double_click_time double_click_time) ;;
   modify (with_time_of_last_turn 0))
  (mkWorld raw None cons None [] 0 false (Int 0) None (Int 0) 0 0 None
     global_led_brightness wall_clock 0 joins_to_come).

(** * Vocabulary of the statements *)

(** The float that the decimal literal [n/d] denotes, for [n] and [d]
    below 2^53: the binary64 number nearest to the quotient. *)
Definition decimal (n d : Z) : spec_float :=
  SFdiv prec emax (binary_normalize prec emax n 0 false)
    (binary_normalize prec emax d 0 false).

(** [T - turnDelay > lastTurnEmitTime] as the program evaluates it: the
    difference is exact for a turn delay that is an int and the binary64
    difference for one that is a float, and it is compared with the int
    [lastTurnEmitTime] by value. *)
Definition outside_window (T : Z) (w : World) : Prop :=
  exists gap,
    number_sub (Int T) (__turn_delay w) = inr gap /\
    number_gt gap (__time_of_last_turn w) = true.

(** The difference is evaluated and does not exceed [lastTurnEmitTime]. *)
Definition inside_window (T : Z) (w : World) : Prop :=
  exists gap,
    number_sub (Int T) (__turn_delay w) = inr gap /\
    number_gt gap (__time_of_last_turn w) = false.

(** [T - turnDelay > lastTurnEmitTime] over the rationals, as the
    specification words it. *)
Definition spec_outside_window (T : Z) (w : World) : Prop :=
  exists d,
    number_value (__turn_delay w) = Finite d /\
    (inject_Z T - d > inject_Z (__time_of_last_turn w))%Q.

(** ** The countdown of the long-press race

    The classifier takes the first pop of the race to have lasted from
    the time of the press to the reading of the clock after the pop, and
    each later pop from the reading before it to the reading after it. *)
Definition pop_began (time_pressed : Z) (w : World) (k : nat) : Z :=
  match k with
  | O => time_pressed
  | S j => clock w (ticks w + 2 * j + 1)
  end.

Definition pop_ended (w : World) (k : nat) : Z := clock w (ticks w + 2 * k).

(** What is left of [x] seconds after a pop that lasted from [began] to
    [ended], in milliseconds: [x - (ended - began) / 1000.0], the quotient
    in binary64 and the difference too, unless [x] is an int too large for
    a float. *)
Definition less_elapsed (x : Number) (began ended : Z)
  : Exception + Number :=
  match float_of_int (ended - began) with
  | inl e => inl e
  | inr ms => number_sub x (Float (SFdiv prec emax ms (decimal 1000 1)))
  end.

(** What is left of the long-press time after [k] pops, each pop having
    shrunk it by the time it lasted, in the arithmetic of the program. *)
Fixpoint countdown (time_pressed : Z) (w : World) (k : nat)
  : Exception + Number :=
  match k with
  | O => inr (__long_press_time w)
  | S j =>
      match countdown time_pressed w j with
      | inl e => inl e
      | inr x => less_elapsed x (pop_began time_pressed w j) (pop_ended w j)
      end
  end.

(** After [k] pops the countdown is a number above zero. *)
Definition counting (time_pressed : Z) (w : World) (k : nat) : Prop :=
  exists x q,
    countdown time_pressed w k = inr x /\
    number_value x = Finite q /\ (0 < q)%Q.

(** After [k] pops the countdown is zero or less. *)
Definition run_out (time_pressed : Z) (w : World) (k : nat) : Prop :=
  exists x, countdown time_pressed w k = inr x /\ number_le x 0 = true.

(** A long-press time that the first pop takes as its timeout: a number
    that is not negative. *)
Definition poppable (x : Number) : Prop :=
  exists q, number_value x = Finite q /\ (0 <= q)%Q.

(** The milliseconds that the first [k] pops lasted. *)
Fixpoint elapsed (time_pressed : Z) (w : World) (k : nat) : Z :=
  match k with
  | O => 0
  | S j =>
      elapsed time_pressed w j
      + (pop_ended w j - pop_began time_pressed w j)
  end.

(** The countdown over the rationals, as the specification words it: the
    long-press time less the time elapsed. *)
Definition spec_countdown (time_pressed : Z) (w : World) (k : nat)
  : option Q :=
  match number_value (__long_press_time w) with
  | Finite q => Some (q - inject_Z (elapsed time_pressed w k) / 1000)%Q
  | _ => None
  end.

(** ** States of the world *)

(** [w] with [c] pushed on the consolidated queue. *)
Definition pushed (c : ConsolidatedEventCode) (w : World) : World :=
  with_consolidated_queue (Queue.put c (__consolidated_queue w)) w.

(** [w1] is [w] after some answers of the raw queue have been consumed and
    the clock has been read some number of times; nothing else differs. *)
Definition consumed (w w1 : World) : Prop :=
  (exists pre, __raw_queue w = pre ++ __raw_queue w1) /\
  w1 = with_ticks (ticks w1) (with_raw_queue (__raw_queue w1) w).

(** An answer of the raw queue that is not a button edge: an empty moment
    or a record with another code. *)
Definition no_edge (a : option InputEvent) : Prop := not_button a = true.

(** An empty moment. *)
Definition empty_moment (a : option InputEvent) : Prop := a = None.

(** The range [0,255] as the specification words it. *)
Definition clamp (v : Z) : Z := Z.max 0 (Z.min 255 v).

(** The writes of [k] flashes at brightness [b]. *)
Definition flashes (k : nat) (b : Z) : list Z := concat (repeat [b; 0] k).

(** A duration argument that [time.sleep] accepts. *)
Definition sleepable (d : option Q) : Prop :=
  match d with
  | Some secs => (0 <= secs)%Q
  | None => True
  end.

(** ** Sample records and worlds *)

Definition wall (readings : list Z) : nat -> Z := fun n => nth n readings 0.

Definition button_up : InputEvent := mkInputEvent 10 600000 BUTTON_PUSHED 0.
Definition quick_up : InputEvent := mkInputEvent 10 100000 BUTTON_PUSHED 0.
Definition syn_report : InputEvent := mkInputEvent 10 100000 0 0.
Definition knob_right : InputEvent := mkInputEvent 10 200000 KNOB_TURNED 1.
Definition stamp_1s_1000us : InputEvent := mkInputEvent 1 1000 KNOB_TURNED 1.

(** The handler as [PowerMateEventHandler()] constructs it, in front of a
    raw queue that will give the answers [raw] and a clock that will show
    [readings]. *)
Definition fresh (raw : Queue.t InputEvent) (readings : list Z) : World :=
  mkWorld raw None [] None [255] 255 false (Int 0) None
    (Float (decimal 1 2)) (3 # 10) 0 None 100 (wall readings) 0 [].

(** A handler with a turn delay of one second whose last turn was emitted
    at wall-clock 9900 ms. *)
Definition turned_recently (raw : Queue.t InputEvent) (readings : list Z)
  : World :=
  with_time_of_last_turn 9900 (with_turn_delay (Int 1000) (fresh raw readings)).

(** A handler with the turn delay [0.99999] whose last turn was emitted at
    wall-clock 1699999999999 ms, and a knob record stamped one millisecond
    later. *)
Definition float_delay_world : World :=
  with_time_of_last_turn 1699999999999
    (with_turn_delay (Float (decimal 99999 100000)) (fresh [] [])).

Definition late_knob : InputEvent :=
  mkInputEvent 1700000000 0 KNOB_TURNED 1.

(** A press at wall-clock 10000 ms held for more than half a second: the
    first pop times out, the clock then shows 10500; a knob turn and the
    release follow. *)
Definition long_press_world : World :=
  fresh [None; Some knob_right; Some button_up; Some syn_report] [10500].

(** A press at 10000 ms held for 600 ms while the knob is turned: the
    first pop returns a turn after 90 ms, the second times out 510 ms
    later; another turn and then the release follow. *)
Definition turned_while_held_world : World :=
  fresh
    [Some knob_right; None; Some knob_right; Some button_up;
     Some syn_report]
    [10090; 10090; 10600].

(** A press at 10000 ms: the first pop returns a turn after 90 ms and the
    second times out 410 ms later, half a second after the press; the
    release is there at the third pop, in the same millisecond. *)
Definition boundary_world : World :=
  fresh
    [Some knob_right; None; Some button_up; Some syn_report; None]
    [10090; 10090; 10500; 10500; 10500].

(** A handler with the long-press time [0.3], a float below three tenths,
    and a press at 10000 ms: the first pop returns a turn after 290 ms and
    the second times out 10 ms later, 300 ms after the press; the release
    is there at the third pop. *)
Definition past_boundary_world : World :=
  with_long_press_time (Float (decimal 3 10))
    (fresh
       [Some knob_right; None; Some button_up; Some syn_report; None]
       [10290; 10290; 10300; 10300; 10300]).

(** A press at 10000 ms released after 100 ms, each button record followed
    by its SYN_REPORT, and nothing within the double-click time. *)
Definition single_click_world : World :=
  fresh [Some syn_report; Some quick_up; Some syn_report; None]
    [10000; 10000; 10100].

(** A handler with the long-press time [0.1] and a press at 10000 ms
    whose release is popped 100 ms later; its SYN_REPORT follows, then
    nothing within the double-click time, then the next press. *)
Definition tenth_world : World :=
  with_long_press_time (Float (decimal 1 10))
    (fresh
       [Some quick_up; Some syn_report; None;
        Some (mkInputEvent 12 0 BUTTON_PUSHED POSITIVE); Some syn_report]
       [10100]).

(** The same quick press followed by a knob turn stamped 10200 ms, on a
    handler that emitted a turn at 9900 ms with a turn delay of 1000 ms. *)
Definition suppressed_turn_world : World :=
  turned_recently
    [Some syn_report; Some quick_up; Some syn_report; Some knob_right]
    [10000; 10000; 10100].

(** A press at wall-clock 10000 ms held for 600 ms: the first pop times
    out after half a second, the clock then shows 10500, and the release
    comes after that. *)
Definition held_600ms_world : World :=
  fresh [None; Some button_up; Some syn_report] [10500].

(** What [get_next] returns for the answer [a] of the queue it pops, the
    queue being put back by [store]. *)
Definition handed_out {A} (wrap : A -> Event)
  (store : Queue.t A -> World -> World) (a : Queue.answer A) (w : World)
  : Outcome (option Event) :=
  match a with
  | Queue.Item x q => Returned (Some (wrap x)) (store q w)
  | Queue.Empty q => Returned None (store q w)
  | Queue.BadTimeout => Raised ValueError w
  | Queue.Waiting q => Pending (store q w)
  end.

(** ** Methods that do not look at an attribute *)

Definition map_world {A} (f : World -> World) (o : Outcome A) : Outcome A :=
  match o with
  | Returned a w => Returned a (f w)
  | Raised e w => Raised e (f w)
  | Pending w => Pending (f w)
  end.

(** [m] runs in [f w] as it runs in [w]: it neither reads nor undoes what
    [f] changes. *)
Definition blind_to {A} (f : World -> World) (m : M A) : Prop :=
  forall w, m (f w) = map_world f (m w).

(** * The rest of the handler *)

(** The world in which a call ends, however it ends. *)
Definition final_world {A} (o : Outcome A) : World :=
  match o with
  | Returned _ w => w
  | Raised _ w => w
  | Pending w => w
  end.

(** The [while True] loop of [__consolidated].  Every turn that goes on to
    the next consumes an answer of the raw queue. *)
Fixpoint consolidated_loop (fuel : nat) : M unit :=
  match fuel with
  | O => fun w => Pending w
  | S fuel' =>
      again <- __consolidated_iteration ;;
      if again then consolidated_loop fuel' else ret tt
  end.

Definition __consolidated : M unit :=
  fuel <- pops_left ;;
  consolidated_loop fuel.

(** ** Finding the device *)

(** [evdev.InputDevice]: the path it was opened at and the name the device
    reports. *)
Record InputDevice : Set := mkInputDevice {
  fn : String.string;
  name : String.string
}.

(** What the program sees of the file system: [os.path.exists],
    [os.listdir] ([None] when it raises OSError), and the name reported by
    the device that [InputDevice(path)] opens ([None] when the constructor
    raises OSError). *)
Record FileSystem : Type := mkFileSystem {
  path_exists : String.string -> bool;
  listdir : String.string -> option (list String.string);
  device_name : String.string -> option String.string
}.

Inductive FindError : Set := OSError | IndexError.

(** [s.find(sub)]: the lowest index at which [sub] occurs in [s], or -1. *)
Definition str_find (sub s : String.string) : Z :=
  match String.index 0 sub s with
  | Some n => Z.of_nat n
  | None => -1
  end.

(** [s[-2]] *)
Definition second_to_last (s : String.string) : FindError + Ascii.ascii :=
  if (String.length s <? 2)%nat then inl IndexError
  else match String.get (String.length s - 2) s with
       | Some c => inr c
       | None => inl IndexError
       end.

(** [str(OSError) + " You do not have permissions to use this device: "
     + dev_dir + dev + "."] *)
Definition permission_message (dev_dir dev : String.string) : String.string :=
  String.append "<type 'exceptions.OSError'>"%string
    (String.append
       " You do not have permissions to use this device: "%string
       (String.append dev_dir (String.append dev "."%string))).

(** The [for] loop of [find_device] over the listing, with what it prints
    to stderr. *)
Fixpoint scan (fs : FileSystem) (dev_dir : String.string)
  (listing : list String.string)
  : option InputDevice * list String.string :=
  match listing with
  | [] => (None, [])
  | dev :: rest =>
      if str_find "event"%string dev =? 0 then
        match device_name fs (String.append dev_dir dev) with
        | Some reported =>
            if 0 <=? str_find "Griffin PowerMate"%string reported
            then (Some (mkInputDevice (String.append dev_dir dev) reported),
                  [])
            else scan fs dev_dir rest
        | None =>
            let (device, printed) := scan fs dev_dir rest in
            (device, permission_message dev_dir dev :: printed)
        end
      else scan fs dev_dir rest
  end.

Definition default_dev_dir : String.string := "/dev/input/"%string.

(** [find_device(dev_dir)]: the device or [None], or the exception that
    escapes, and the lines printed to stderr. *)
Definition find_device (dev_dir : option String.string) (fs : FileSystem)
  : (FindError + option InputDevice) * list String.string :=
  let dev_dir :=
    match dev_dir with Some d => d | None => default_dev_dir end in
  if path_exists fs "/dev/GriffinPowermate"%string then
    match device_name fs "/dev/GriffinPowermate"%string with
    | Some reported =>
        (inr (Some (mkInputDevice "/dev/GriffinPowermate"%string reported)),
         [])
    | None => (inl OSError, [])
    end
  else
    match second_to_last dev_dir with
    | inl e => (inl e, [])
    | inr c =>
        let dev_dir :=
          if Ascii.eqb c "/"%char then dev_dir
          else String.append dev_dir "/"%string in
        match listdir fs dev_dir with
        | None => (inl OSError, [])
        | Some listing =>
            let (device, printed) := scan fs dev_dir listing in
            (inr device, printed)
        end
    end.

(** How the constructor ends: no handler when the device is not found or
    [find_device] raises, otherwise what [__init__] does from there. *)
Inductive Constructed : Type :=
| DeviceNotFound
| FindFailed (e : FindError)
| Built (dev : InputDevice) (o : Outcome unit).

(** [PowerMateEventHandler(brightness, read_delay, turn_delay,
    long_press_time, double_click_time, dev_dir)] *)
Definition PowerMateEventHandler (brightness : Z) (read_delay : option Q)
  (turn_delay long_press_time : Number) (double_click_time : Q)
  (dev_dir : option String.string) (fs : FileSystem)
  (raw : Queue.t InputEvent) (cons : Queue.t ConsolidatedEventCode)
  (global_led_brightness : Z) (wall_clock : nat -> Z)
  (joins_to_come : list bool) : Constructed :=
  match fst (find_device dev_dir fs) with
  | inl e => FindFailed e
  | inr None => DeviceNotFound
  | inr (Some dev) =>
      Built dev
        (__init__ brightness read_delay turn_delay long_press_time
           double_click_time raw cons global_led_brightness wall_clock
           joins_to_come)
  end.

(** ** The capture thread *)

(** What a pass through the [try] block of [__raw] meets: [select] times
    out; the device is readable and [read_one] returns a record or [None];
    [select] or [read_one] raises IOError; or something else is raised. *)
Inductive DeviceAnswer : Set :=
| NotReadable
| ReadOne (event : option InputEvent)
| RaisesIOError
| RaisesOther.

(** The handler together with what the capture thread meets: the device
    it holds, the answers of the device to come, the file system as each
    later call of [find_device] is going to see it, and what has been
    printed to stderr. *)
Record Rig : Type := mkRig {
  world : World;
  __dev : option InputDevice;
  device : list DeviceAnswer;
  files : list FileSystem;
  stderr : list String.string
}.

Inductive RawError : Set :=
| SelectError
| OtherError
| FindRaised (e : FindError).

Inductive RawOutcome (A : Type) : Type :=
| RawReturned (a : A) (r : Rig)
| RawRaised (e : RawError) (r : Rig)
| RawPending (r : Rig).
Arguments RawReturned {A}.
Arguments RawRaised {A}.
Arguments RawPending {A}.

(** The [while True] loop of the [except IOError] branch: sleep half a
    second, look for the device, and when it is there make a new UInput
    for it and write the stored brightness.  Nothing here is inside a
    [try]: whatever is raised ends the loop of [__raw]. *)
Fixpoint reconnect (polls : list FileSystem) (w : World)
  (dev : option InputDevice) (printed : list String.string)
  (answers : list DeviceAnswer) : RawOutcome unit :=
  match polls with
  | [] => RawPending (mkRig w dev answers [] printed)
  | fs :: polls' =>
      match time_sleep (1 # 2) w with
      | Raised _ w' => RawRaised OtherError (mkRig w' dev answers polls printed)
      | Pending w' => RawPending (mkRig w' dev answers polls printed)
      | Returned _ w' =>
          match find_device None fs with
          | (inl e, lines) =>
              RawRaised (FindRaised e)
                (mkRig w' dev answers polls' (printed ++ lines))
          | (inr None, lines) =>
              reconnect polls' w' None (printed ++ lines) answers
          | (inr (Some found), lines) =>
              match set_led_brightness (__led_brightness w') w' with
              | Returned _ w'' =>
                  RawReturned tt
                    (mkRig w'' (Some found) answers polls'
                       (printed ++ lines))
              | Raised _ w'' =>
                  RawRaised OtherError
                    (mkRig w'' (Some found) answers polls'
                       (printed ++ lines))
              | Pending w'' =>
                  RawPending
                    (mkRig w'' (Some found) answers polls'
                       (printed ++ lines))
              end
          end
      end
  end.

(** [int(x)] for a rational: truncation toward zero. *)
Definition Qtruncate (x : Q) : Z := Z.quot (Qnum x) (Zpos (Qden x)).

(** [select.select([self.__dev], [], [], self.__read_delay)] with a number
    as timeout.  Python 2.7 raises OverflowError for a timeout above
    [LONG_MAX] as a float, 2^63 with 64-bit longs.  Otherwise it hands the
    whole seconds and the microseconds of the rest, each truncated toward
    zero, to the system call, which refuses a negative part with
    [select.error].  Neither exception is an IOError. *)
Definition select_refuses (read_delay : option Q) : bool :=
  match read_delay with
  | Some timeout =>
      if Qlt_bool (inject_Z (2 ^ 63)) timeout then true
      else
        let seconds := Qtruncate timeout in
        let timeout := (timeout - inject_Z seconds)%Q in
        let tv_sec := seconds in
        let tv_usec := Qtruncate (timeout * inject_Z 1000000)%Q in
        (tv_sec <? 0) || (tv_usec <? 0)
  | None => false
  end.

(** One turn of the [while True] loop of [__raw]; [false] when the loop
    returns because capture is no longer running. *)
Definition __raw_iteration (r : Rig) : RawOutcome bool :=
  if negb (__event_capture_running (world r)) then RawReturned false r
  else if select_refuses (__read_delay (world r)) then RawRaised SelectError r
  else
    match device r with
    | [] => RawPending r
    | NotReadable :: answers =>
        RawReturned true
          (mkRig (world r) (__dev r) answers (files r) (stderr r))
    | ReadOne None :: answers =>
        RawReturned true
          (mkRig (world r) (__dev r) answers (files r) (stderr r))
    | ReadOne (Some event) :: answers =>
        RawReturned true
          (mkRig
             (with_raw_queue (Queue.put event (__raw_queue (world r)))
                (world r))
             (__dev r) answers (files r) (stderr r))
    | RaisesIOError :: answers =>
        match reconnect (files r) (world r) (__dev r) (stderr r) answers with
        | RawReturned _ r' => RawReturned true r'
        | RawRaised e r' => RawRaised e r'
        | RawPending r' => RawPending r'
        end
    | RaisesOther :: answers =>
        RawRaised OtherError
          (mkRig (world r) (__dev r) answers (files r) (stderr r))
    end.

(** The loop of [__raw]: every turn that goes on to the next has taken an
    answer of the device. *)
Fixpoint raw_loop (fuel : nat) (r : Rig) : RawOutcome unit :=
  match fuel with
  | O => RawPending r
  | S fuel' =>
      match __raw_iteration r with
      | RawReturned true r' => raw_loop fuel' r'
      | RawReturned false r' => RawReturned tt r'
      | RawRaised e r' => RawRaised e r'
      | RawPending r' => RawPending r'
      end
  end.

Definition __raw (r : Rig) : RawOutcome unit :=
  raw_loop (S (length (device r))) r.

(** ** Vocabulary of the further statements *)

(** [m] relates the world it starts in to the world it ends in by [R],
    however it ends. *)
Definition keeps {A} (R : World -> World -> Prop) (m : M A) : Prop :=
  forall w, R w (final_world (m w)).

(** Nothing but the two queues, the clock and the time of the last turn
    differs between [w] and [w']. *)
Definition untouched (w w' : World) : Prop :=
  __raw_thread w' = __raw_thread w /\
  __consolidated_thread w' = __consolidated_thread w /\
  __uinput w' = __uinput w /\
  __led_brightness w' = __led_brightness w /\
  __event_capture_running w' = __event_capture_running w /\
  __turn_delay w' = __turn_delay w /\
  __read_delay w' = __read_delay w /\
  __long_press_time w' = __long_press_time w /\
  __double_click_time w' = __double_click_time w /\
  __long_click_time w' = __long_click_time w /\
  led_brightness w' = led_brightness w /\
  joins w' = joins w.

(** The consolidated queue of [w'] is that of [w] followed by the events
    [l], in the order pushed. *)
Definition grown_by (l : list ConsolidatedEventCode) (w w' : World) : Prop :=
  __consolidated_queue w' = __consolidated_queue w ++ map Some l.

Definition grown (w w' : World) : Prop := exists l, grown_by l w w'.

(** [w'] is [w] but for answers of the raw queue consumed and clock
    readings taken. *)
Definition popped (w w' : World) : Prop :=
  w' = with_ticks (ticks w') (with_raw_queue (__raw_queue w') w).

(** A record that the classification loop consumes without effect in [w]:
    a knob turn inside the turn-delay window, a button record that is no
    press, or a record with any other code. *)
Definition silent (w : World) (e : InputEvent) : Prop :=
  (code e = KNOB_TURNED /\
   exists T, event_time_in_ms e = inr T /\ inside_window T w) \/
  (code e = BUTTON_PUSHED /\ value e <> POSITIVE) \/
  (code e <> KNOB_TURNED /\ code e <> BUTTON_PUSHED).

Definition silent_answer (w : World) (a : option InputEvent) : Prop :=
  match a with
  | None => True
  | Some e => silent w e
  end.

(** A number below zero, minus infinity among them. *)
Definition negative (x : Number) : Prop := compare_int x 0 = Some Lt.

(** The raw queue of [w'] is what is left of that of [w]. *)
Definition behind (w w' : World) : Prop :=
  exists pre, __raw_queue w = pre ++ __raw_queue w'.

(** A handler with capture running, a turn delay of one second and the
    last turn emitted at 9900 ms, whose raw queue still holds the
    SYN_REPORT and the release of an earlier press, a knob turn stamped
    10200 ms, and then nothing for a while. *)
Definition quiet_world : World :=
  with_event_capture_running true
    (turned_recently
       [Some syn_report; Some quick_up; Some knob_right; None] []).

Definition button_down : InputEvent :=
  mkInputEvent 10 0 BUTTON_PUSHED POSITIVE.

(** A running handler whose long-press time is [-1], with a press at the
    head of the raw queue. *)
Definition negative_window_world : World :=
  with_long_press_time (Int (-1))
    (with_event_capture_running true
       (fresh [Some button_down; Some syn_report] [10000])).

(** A press at 10000 ms whose release is popped just inside the half
    second, the clock then showing 10500; the next press follows. *)
Definition late_release_world : World :=
  fresh [Some button_up; Some syn_report; Some button_down; Some syn_report]
    [10500].

(** A quick press whose release is the last record there is. *)
Definition lone_click_world : World :=
  fresh [Some syn_report; Some quick_up; None; None] [10000; 10000; 10100].

(** The quick press of [single_click_world] on a handler whose
    double-click time is [-1]. *)
Definition negative_double_click_world : World :=
  with_double_click_time (-1) single_click_world.

(** ** Sessions

    The public methods as a caller may invoke them, and a turn of the
    classification loop in between; the caller goes on after a call
    whichever way the call ended. *)

Inductive Call : Type :=
| call_set_led_brightness (brightness : Z)
| call_flash_led (num_flashes brightness : option Z)
    (duration sleep : option Q)
| call_start (raw_only : bool)
| call_stop
| call_get_next (block : bool) (timeout : option Q)
| call_set_turn_delay (delay : Number)
| call_set_read_delay (delay : option Q)
| call_set_double_click_time (time : Q)
| call_set_long_click_time (time : Number)
| turn_of_the_classifier.

Definition perform (c : Call) (w : World) : World :=
  match c with
  | call_set_led_brightness v => final_world (set_led_brightness v w)
  | call_flash_led n b d s => final_world (flash_led n b d s w)
  | call_start raw_only => final_world (start raw_only w)
  | call_stop => final_world (stop w)
  | call_get_next block timeout => final_world (get_next block timeout w)
  | call_set_turn_delay d => final_world (set_turn_delay d w)
  | call_set_read_delay d => final_world (set_read_delay d w)
  | call_set_double_click_time t => final_world (set_double_click_time t w)
  | call_set_long_click_time t => final_world (set_long_click_time t w)
  | turn_of_the_classifier => final_world (__consolidated_iteration w)
  end.

Definition session (calls : list Call) (w : World) : World :=
  fold_left (fun w c => perform c w) calls w.

Definition in_range (v : Z) : Prop := 0 <= v <= 255.

(** The stored brightness and every value written to the device lie in
    [0,255]. *)
Definition led_ok (w : World) : Prop :=
  in_range (__led_brightness w) /\ Forall in_range (__uinput w).

(** Whether capture runs after [calls], having been [running] before:
    the last [start] or [stop] among them decides. *)
Fixpoint runs_after (running : bool) (calls : list Call) : bool :=
  match calls with
  | [] => running
  | call_start _ :: calls' => runs_after true calls'
  | call_stop :: calls' => runs_after false calls'
  | _ :: calls' => runs_after running calls'
  end.

(** ** Vocabulary for the device *)

(** The directory that [find_device] lists and opens under, for a
    [dev_dir] whose second-to-last character is [c]. *)
Definition scanned_dir (dev_dir : String.string) (c : Ascii.ascii)
  : String.string :=
  if Ascii.eqb c "/"%char then dev_dir else String.append dev_dir "/"%string.

(** The entry [dev] of the listing of [dir] is an event device that opens
    and reports a name containing "Griffin PowerMate". *)
Definition is_powermate (fs : FileSystem) (dir dev : String.string)
  : Prop :=
  str_find "event"%string dev = 0 /\
  exists reported,
    device_name fs (String.append dir dev) = Some reported /\
    0 <= str_find "Griffin PowerMate"%string reported.

(** The entry [dev] is an event device that cannot be opened. *)
Definition unopenable (fs : FileSystem) (dir dev : String.string) : bool :=
  (str_find "event"%string dev =? 0) &&
  match device_name fs (String.append dir dev) with
  | Some _ => false
  | None => true
  end.

(** A file system with the entries [entries] (name and reported device
    name, or [None] for a device that cannot be opened) under [dir], no
    other directory, and no udev link. *)
Definition plain_fs (dir : String.string)
  (entries : list (String.string * option String.string)) : FileSystem :=
  mkFileSystem
    (fun _ => false)
    (fun d => if String.eqb d dir then Some (map fst entries) else None)
    (fun p =>
       match find (fun e => String.eqb (String.append dir (fst e)) p)
               entries with
       | Some e => snd e
       | None => None
       end).

Definition input_entries : list (String.string * option String.string) :=
  [("mouse0"%string, Some "Some Mouse"%string);
   ("event0"%string, Some "AT Keyboard"%string);
   ("event1"%string, None);
   ("event2"%string, Some "Griffin PowerMate"%string);
   ("event3"%string, None)]%string.

(** [s] followed by the two characters [b] and [c]. *)
Definition ending_in (s : String.string) (b c : Ascii.ascii)
  : String.string :=
  String.append s (String.String b (String.String c String.EmptyString)).

(** ** Vocabulary for the capture thread *)

(** The records among the answers of the device, in their order. *)
Fixpoint records (answers : list DeviceAnswer) : list InputEvent :=
  match answers with
  | [] => []
  | ReadOne (Some event) :: answers' => event :: records answers'
  | _ :: answers' => records answers'
  end.

(** An answer of a device that is there. *)
Definition connected (a : DeviceAnswer) : Prop :=
  match a with
  | NotReadable | ReadOne _ => True
  | RaisesIOError | RaisesOther => False
  end.

(** What the calls of [find_device] print over the polls [polls]. *)
Definition printed_over (polls : list FileSystem) : list String.string :=
  concat (map (fun fs => snd (find_device None fs)) polls).

(** A file system in which [find_device()] finds nothing. *)
Definition device_absent (fs : FileSystem) : Prop :=
  fst (find_device None fs) = inr None.

(** A running handler at stored brightness 80 that holds a device and
    meets a disconnect; the device is absent at the first poll and back as
    [event5] at the second. *)
Definition unplugged_rig : Rig :=
  mkRig
    (with_event_capture_running true
       (final_world (set_led_brightness 80 (fresh [] []))))
    (Some (mkInputDevice "/dev/input//event2"%string
             "Griffin PowerMate"%string))
    [RaisesIOError;
     ReadOne (Some (mkInputEvent 20 0 KNOB_TURNED 1))]
    [plain_fs "/dev/input//"%string
       [("event0"%string, Some "AT Keyboard"%string)];
     plain_fs "/dev/input//"%string
       [("event0"%string, Some "AT Keyboard"%string);
        ("event5"%string, Some "Griffin PowerMate"%string)]]
    [].

(** * Properties *)

(** ** Rational comparisons *)

Lemma Qlt_bool_iff (a b : Q) : Qlt_bool a b = true <-> (a < b)%Q.
Proof.
  unfold Qlt_bool. rewrite negb_true_iff.
  split; intro H.
  - apply Qnot_le_lt. intro L. apply Qle_bool_iff in L. congruence.
  - destruct (Qle_bool b a) eqn:E; [|reflexivity].
    apply Qle_bool_iff in E. exfalso. exact (Qlt_not_le _ _ H E).
Qed.

Lemma Qlt_bool_false_iff (a b : Q) : Qlt_bool a b = false <-> (b <= a)%Q.
Proof.
  unfold Qlt_bool. rewrite negb_false_iff. apply Qle_bool_iff.
Qed.

(** ** Python numbers *)

Lemma compare_int_Finite x q n :
  number_value x = Finite q -> compare_int x n = Some (q ?= inject_Z n)%Q.
Proof. unfold compare_int. intros ->. reflexivity. Qed.

Lemma number_gt_Finite x q n :
  number_value x = Finite q ->
  (number_gt x n = true <-> (inject_Z n < q)%Q).
Proof.
  intro V. unfold number_gt. rewrite (compare_int_Finite _ _ n V).
  rewrite Qgt_alt.
  destruct (q ?= inject_Z n)%Q; split; congruence.
Qed.

Lemma number_le_Finite x q n :
  number_value x = Finite q ->
  (number_le x n = true <-> (q <= inject_Z n)%Q).
Proof.
  intro V. unfold number_le. rewrite (compare_int_Finite _ _ n V).
  rewrite Qle_alt.
  destruct (q ?= inject_Z n)%Q; split; congruence.
Qed.

Lemma number_le_not_gt x n : number_le x n = true -> number_gt x n = false.
Proof.
  unfold number_le, number_gt.
  destruct (compare_int x n) as [[| |]|]; congruence.
Qed.

Lemma number_gt_not_le x n : number_gt x n = true -> number_le x n = false.
Proof.
  unfold number_le, number_gt.
  destruct (compare_int x n) as [[| |]|]; congruence.
Qed.

(** A number that is neither above [n] nor at most [n] is no number. *)
Lemma number_unordered x n :
  number_gt x n = false -> number_le x n = false ->
  number_value x = NotANumber.
Proof.
  unfold number_le, number_gt, compare_int.
  destruct (number_value x) as [q|[|]|]; try congruence.
  destruct (q ?= inject_Z n)%Q; congruence.
Qed.

Lemma number_gt_Int m n : number_gt (Int m) n = true <-> n < m.
Proof.
  rewrite (number_gt_Finite (Int m) (inject_Z m) n eq_refl).
  rewrite <- Zlt_Qlt. reflexivity.
Qed.

(** A countdown above zero is taken by [Queue.get] as its timeout, keeps
    the race going, and is not run out. *)
Lemma positive_number x q :
  number_value x = Finite q -> (0 < q)%Q ->
  timeout_of x = Some q /\ Qlt_bool q 0 = false /\
  number_gt x 0 = true /\ number_le x 0 = false.
Proof.
  intros V H. unfold timeout_of. rewrite V.
  split; [reflexivity|].
  split; [apply Qlt_bool_false_iff, Qlt_le_weak, H|].
  assert (G : number_gt x 0 = true)
    by (apply (number_gt_Finite x q 0 V); exact H).
  split; [exact G|exact (number_gt_not_le _ _ G)].
Qed.

(** ** Sequencing *)

Lemma bind_Returned {A B} (m : M A) (k : A -> M B) w a w' :
  m w = Returned a w' -> bind m k w = k a w'.
Proof. unfold bind. intros ->. reflexivity. Qed.

Lemma bind_Returned_inv {A B} (m : M A) (k : A -> M B) w b w' :
  bind m k w = Returned b w' ->
  exists a w1, m w = Returned a w1 /\ k a w1 = Returned b w'.
Proof.
  unfold bind. destruct (m w) as [a w1|e w1|w1]; intro H; try discriminate.
  exists a, w1. split; [reflexivity|exact H].
Qed.

Lemma lift_Returned_inv {A} (r : Exception + A) w a w' :
  lift r w = Returned a w' -> r = inr a /\ w' = w.
Proof.
  destruct r as [e|b]; cbn; intro H; [discriminate|].
  injection H as -> ->. split; reflexivity.
Qed.

(** ** The constructor *)

Lemma init_defaults raw readings :
  __init__ 255 None (Int 0) (Float (decimal 1 2)) (3 # 10) raw [] 100
    (wall readings) []
  = Returned tt (fresh raw readings).
Proof. reflexivity. Qed.

(** ** The timestamp of a record *)

(** C9, at the record stamped 1 s + 1000 us: the program computes 1000 ms,
    while the floor of [(usec/1_000_000 + sec) * 1000] in exact arithmetic
    is 1001 ms.  The binary64 sum [0.001 + 1] lies below 1.001 and its
    product with 1000 below 1001, which [int] truncates. *)
Theorem event_time_in_ms_below_exact_floor :
  event_time_in_ms stamp_1s_1000us = inr 1000 /\
  spec_event_time_in_ms stamp_1s_1000us = 1001.
Proof. split; vm_compute; reflexivity. Qed.

(** The same millisecond is lost at timestamps counted from the epoch. *)
Example event_time_in_ms_epoch :
  event_time_in_ms (mkInputEvent 2176197569 772000 KNOB_TURNED 1)
    = inr 2176197569771 /\
  spec_event_time_in_ms (mkInputEvent 2176197569 772000 KNOB_TURNED 1)
    = 2176197569772.
Proof. split; vm_compute; reflexivity. Qed.

(** Where the sum and the product are exact the two agree. *)
Example event_time_in_ms_exact_case :
  event_time_in_ms (mkInputEvent 10 500000 KNOB_TURNED 1) = inr 10500 /\
  spec_event_time_in_ms (mkInputEvent 10 500000 KNOB_TURNED 1) = 10500.
Proof. split; vm_compute; reflexivity. Qed.

(** ** The turn debouncer *)

Lemma knob_turned_eq event T w :
  event_time_in_ms event = inr T ->
  __knob_turned event w
  = match number_sub (Int T) (__turn_delay w) with
    | inl e => Raised e w
    | inr gap =>
        if number_gt gap (__time_of_last_turn w) then
          Returned tt
            (with_time_of_last_turn (clock w (ticks w))
               (with_ticks (S (ticks w))
                  (pushed (if 0 <? value event then RIGHT_TURN
                           else LEFT_TURN) w)))
        else Returned tt w
    end.
Proof.
  intro stamp. unfold __knob_turned, bind, lift, gets, ret, raise.
  rewrite stamp. cbv beta iota.
  destruct (number_sub (Int T) (__turn_delay w)) as [e|gap]; [reflexivity|].
  cbv beta iota.
  destruct (number_gt gap (__time_of_last_turn w)); [|reflexivity].
  destruct (0 <? value event); reflexivity.
Qed.

Section KnobTurned.

Variable event : InputEvent.
Variable T : Z.
Variable w : World.
Hypothesis stamp : event_time_in_ms event = inr T.

Lemma knob_turned_emits :
  outside_window T w ->
  __knob_turned event w =
    Returned tt
      (with_time_of_last_turn (clock w (ticks w))
         (with_ticks (S (ticks w))
            (pushed (if 0 <? value event then RIGHT_TURN else LEFT_TURN) w))).
Proof.
  intros (gap & Hsub & Hgt).
  rewrite (knob_turned_eq _ _ _ stamp), Hsub, Hgt. reflexivity.
Qed.

Lemma knob_turned_discards :
  inside_window T w -> __knob_turned event w = Returned tt w.
Proof.
  intros (gap & Hsub & Hgt).
  rewrite (knob_turned_eq _ _ _ stamp), Hsub, Hgt. reflexivity.
Qed.

End KnobTurned.

Lemma outside_not_inside T w : outside_window T w -> ~ inside_window T w.
Proof.
  intros (g & Hs & Hg) (g' & Hs' & Hg'). congruence.
Qed.

(** With a turn delay that is an int the comparison is the exact one. *)
Lemma window_of_int_delay T d w :
  __turn_delay w = Int d ->
  (outside_window T w <-> T - d > __time_of_last_turn w) /\
  (inside_window T w <-> T - d <= __time_of_last_turn w).
Proof.
  intro D. unfold outside_window, inside_window. rewrite D. cbn [number_sub].
  split; split.
  - intros (gap & [= <-] & H). apply number_gt_Int in H. lia.
  - intro H. exists (Int (T - d)). split; [reflexivity|].
    apply number_gt_Int. lia.
  - intros (gap & [= <-] & H).
    destruct (Z_le_gt_dec (T - d) (__time_of_last_turn w)) as [L|G];
      [exact L|].
    assert (number_gt (Int (T - d)) (__time_of_last_turn w) = true)
      by (apply number_gt_Int; lia).
    congruence.
  - intro H. exists (Int (T - d)). split; [reflexivity|].
    destruct (number_gt (Int (T - d)) (__time_of_last_turn w)) eqn:E;
      [|reflexivity].
    apply number_gt_Int in E. lia.
Qed.

(** C1 as stated fails for a turn delay that is a float: with the delay
    [0.99999], a record stamped one millisecond after the last emission
    satisfies [T - turnDelay > lastTurnEmitTime], but the binary64
    difference is [lastTurnEmitTime] itself and the record is discarded. *)
Lemma knob_turned_float_delay_discards :
  event_time_in_ms late_knob = inr 1700000000000 /\
  __time_of_last_turn float_delay_world = 1699999999999 /\
  spec_outside_window 1700000000000 float_delay_world /\
  __knob_turned late_knob float_delay_world = Returned tt float_delay_world.
Proof.
  split; [vm_compute; reflexivity|].
  split; [reflexivity|].
  split; [|vm_compute; reflexivity].
  eexists. split; [vm_compute; reflexivity|].
  vm_compute. reflexivity.
Qed.

(** C1, amended.  A knob-turn record stamped [T] ms is emitted exactly
    when [T - turnDelay], as the program evaluates it, exceeds
    [lastTurnEmitTime]: then one turn is pushed, RIGHT_TURN for a positive
    magnitude and LEFT_TURN otherwise, and the time of the last turn
    becomes the next reading of the wall clock, whatever [T] is; when the
    difference does not exceed it the handler is left as it was, and when
    it cannot be evaluated the exception is raised and nothing is done.
    For a turn delay that is an int the difference is exact: the record is
    emitted exactly when [T - turnDelay > lastTurnEmitTime]. *)
Theorem knob_turned_debounce (event : InputEvent) (T : Z) (w : World) :
  event_time_in_ms event = inr T ->
  (outside_window T w ->
   exists c w',
     __knob_turned event w = Returned tt w' /\
     __consolidated_queue w' = __consolidated_queue w ++ [Some c] /\
     (0 < value event -> c = RIGHT_TURN) /\
     (value event <= 0 -> c = LEFT_TURN) /\
     __time_of_last_turn w' = clock w (ticks w)) /\
  (inside_window T w -> __knob_turned event w = Returned tt w) /\
  (forall e,
      number_sub (Int T) (__turn_delay w) = inl e ->
      __knob_turned event w = Raised e w) /\
  (forall d,
      __turn_delay w = Int d ->
      (outside_window T w <-> T - d > __time_of_last_turn w) /\
      (inside_window T w <-> T - d <= __time_of_last_turn w)).
Proof.
  intro stamp. split; [|split; [|split]].
  - intro H.
    exists (if 0 <? value event then RIGHT_TURN else LEFT_TURN).
    eexists. split; [apply (knob_turned_emits event T w stamp H)|].
    split; [reflexivity|].
    destruct (Z.ltb_spec 0 (value event)); repeat split; intros;
      try reflexivity; lia.
  - apply knob_turned_discards. exact stamp.
  - intros e He. rewrite (knob_turned_eq _ _ _ stamp), He. reflexivity.
  - intros d D. exact (window_of_int_delay T d w D).
Qed.

Lemma knob_turned_debounce_witness :
  exists c w',
    __knob_turned knob_right (fresh [] [10250]) = Returned tt w' /\
    __consolidated_queue w' = [Some c] /\
    c = RIGHT_TURN /\
    __time_of_last_turn w' = 10250.
Proof.
  assert (stamp : event_time_in_ms knob_right = inr 10200)
    by (vm_compute; reflexivity).
  destruct (knob_turned_debounce knob_right 10200 (fresh [] [10250]) stamp)
    as (Hemit & _ & _ & Hint).
  assert (H : outside_window 10200 (fresh [] [10250])).
  { apply (proj1 (Hint 0 eq_refl)). vm_compute. reflexivity. }
  destruct (Hemit H) as (c & w' & Hrun & Hq & Hpos & _ & Hlast).
  exists c, w'. split; [exact Hrun|].
  split; [exact Hq|].
  split; [apply Hpos; vm_compute; reflexivity|exact Hlast].
Defined.

(** ** Consuming the raw queue *)

Tactic Notation "bind_inv" hyp(H) "as" ident(a) ident(w) ident(H1) :=
  apply bind_Returned_inv in H; destruct H as (a & w & H1 & H).

Lemma consumed_refl w : consumed w w.
Proof.
  split; [exists []; reflexivity|]. destruct w; reflexivity.
Qed.

Lemma consumed_trans w w1 w2 :
  consumed w w1 -> consumed w1 w2 -> consumed w w2.
Proof.
  intros [[p1 Hp1] E1] [[p2 Hp2] E2]. split.
  - exists (p1 ++ p2). rewrite Hp1, Hp2. apply app_assoc.
  - rewrite E1 in E2. exact E2.
Qed.

Lemma consumed_In w w1 a :
  consumed w w1 -> In a (__raw_queue w1) -> In a (__raw_queue w).
Proof.
  intros [[p Hp] _] H. rewrite Hp. apply in_or_app. now right.
Qed.

Lemma consumed_raw q w :
  (exists pre, __raw_queue w = pre ++ q) -> consumed w (with_raw_queue q w).
Proof.
  intro H. split; [exact H|]. reflexivity.
Qed.

Lemma consumed_tick w : consumed w (with_ticks (S (ticks w)) w).
Proof.
  split; [exists []; reflexivity|]. reflexivity.
Qed.

Lemma empty_moment_no_edge a : empty_moment a -> no_edge a.
Proof. intros ->. reflexivity. Qed.

Lemma wait_Item {A} (q q' : Queue.t A) a :
  Queue.wait q = Queue.Item a q' ->
  exists pre, q = pre ++ Some a :: q' /\ Forall (eq None) pre.
Proof.
  induction q as [|[b|] q IH]; cbn; intro H; try discriminate.
  - injection H as -> ->. exists []. split; [reflexivity|constructor].
  - destruct (IH H) as (pre & -> & Hpre). exists (None :: pre).
    split; [reflexivity|]. constructor; [reflexivity|exact Hpre].
Qed.

Lemma get_Item {A} block timeout (q q' : Queue.t A) a :
  Queue.get block timeout q = Queue.Item a q' ->
  exists pre, q = pre ++ Some a :: q'.
Proof.
  unfold Queue.get.
  destruct (negb block); [|destruct timeout as [secs|]].
  - destruct q as [|[b|] q]; intro H; try discriminate.
    injection H as -> ->. exists []. reflexivity.
  - destruct (Qlt_bool secs 0); [discriminate|].
    destruct q as [|[b|] q]; intro H; try discriminate.
    injection H as -> ->. exists []. reflexivity.
  - intro H. destruct (wait_Item _ _ _ H) as (pre & E & _).
    exists pre. exact E.
Qed.

(** A get with a timeout takes the answer at the head. *)
Lemma timed_get_Item {A} secs (q q' : Queue.t A) a :
  Queue.get true (Some secs) q = Queue.Item a q' -> q = Some a :: q'.
Proof.
  unfold Queue.get. cbn [negb].
  destruct (Qlt_bool secs 0); [discriminate|].
  destruct q as [|[b|] q]; intro H; try discriminate.
  injection H as -> ->. reflexivity.
Qed.

Lemma timed_get_Empty {A} secs (q q' : Queue.t A) :
  Queue.get true (Some secs) q = Queue.Empty q' -> q = None :: q'.
Proof.
  unfold Queue.get. cbn [negb].
  destruct (Qlt_bool secs 0); [discriminate|].
  destruct q as [|[b|] q]; intro H; try discriminate.
  injection H as ->. reflexivity.
Qed.

Lemma wait_not_Empty {A} (q q' : Queue.t A) :
  Queue.wait q <> Queue.Empty q'.
Proof. induction q as [|[b|] q IH]; cbn; congruence. Qed.

Lemma get_Empty {A} block timeout (q q' : Queue.t A) :
  Queue.get block timeout q = Queue.Empty q' -> exists pre, q = pre ++ q'.
Proof.
  unfold Queue.get.
  destruct (negb block); [|destruct timeout as [secs|]].
  - destruct q as [|[b|] q]; intro H; try discriminate;
      injection H as <-; [exists []|exists [None]]; reflexivity.
  - destruct (Qlt_bool secs 0); [discriminate|].
    destruct q as [|[b|] q]; intro H; try discriminate.
    injection H as <-. exists [None]. reflexivity.
  - intro H. destruct (wait_not_Empty _ _ H).
Qed.

Lemma raw_queue_get_Returned block timeout w e w1 :
  raw_queue_get block timeout w = Returned e w1 ->
  consumed w w1 /\ In (Some e) (__raw_queue w).
Proof.
  unfold raw_queue_get.
  destruct (Queue.get block timeout (__raw_queue w)) as [a q|q| |q] eqn:G;
    intro H; try discriminate.
  injection H as -> <-.
  destruct (get_Item _ _ _ _ _ G) as [pre Hpre]. split.
  - apply consumed_raw. exists (pre ++ [Some e]).
    rewrite Hpre, <- app_assoc. reflexivity.
  - rewrite Hpre. apply in_or_app. right. now left.
Qed.

Lemma timed_pop_Returned x w ev w1 :
  timed_pop x w = Returned ev w1 -> consumed w w1.
Proof.
  unfold timed_pop, try_except_Empty, bind, raw_queue_get.
  destruct (Queue.get true (timeout_of x) (__raw_queue w))
    as [a q|q| |q] eqn:G;
    cbn; intro H; try discriminate; injection H as <- <-.
  - destruct (get_Item _ _ _ _ _ G) as [pre Hpre].
    apply consumed_raw. exists (pre ++ [Some a]).
    rewrite Hpre, <- app_assoc. reflexivity.
  - apply consumed_raw. exact (get_Empty _ _ _ _ G).
Qed.

(** What a pop of the race takes from the raw queue: the answer it
    yields, after empty moments when its timeout never elapses. *)
Lemma timed_pop_seen x w ev w1 :
  timed_pop x w = Returned ev w1 ->
  exists skipped,
    __raw_queue w = skipped ++ ev :: __raw_queue w1 /\
    Forall empty_moment skipped.
Proof.
  unfold timed_pop, try_except_Empty, bind, raw_queue_get.
  destruct (Queue.get true (timeout_of x) (__raw_queue w))
    as [a q|q| |q] eqn:G;
    cbn; intro H; try discriminate; injection H as <- <-; cbn.
  - destruct (timeout_of x) as [secs|].
    + exists []. split; [exact (timed_get_Item _ _ _ _ G)|constructor].
    + destruct (wait_Item _ _ _ G) as (pre & E & Hpre).
      exists pre. split; [exact E|].
      apply (Forall_impl _ (fun a (H : None = a) => eq_sym H) Hpre).
  - destruct (timeout_of x) as [secs|].
    + exists []. split; [exact (timed_get_Empty _ _ _ G)|constructor].
    + destruct (wait_not_Empty _ _ G).
Qed.

(** With a timeout that is no negative number, a pop takes the answer at
    the head of the raw queue. *)
Lemma timed_pop_head x q a rest w :
  timeout_of x = Some q -> Qlt_bool q 0 = false ->
  __raw_queue w = a :: rest ->
  timed_pop x w = Returned a (with_raw_queue rest w).
Proof.
  unfold timed_pop, try_except_Empty, bind, raw_queue_get, Queue.get.
  intros -> Hq ->. cbn. rewrite Hq. destruct a; reflexivity.
Qed.

(** ** The long-press race *)

Lemma race_loop_eq fuel event x :
  race_loop fuel event x =
  if not_button event && number_gt x 0 then
    match fuel with
    | O => fun w => Pending w
    | S fuel' =>
        check_time <- __get_time_in_ms ;;
        event <- timed_pop x ;;
        now <- __get_time_in_ms ;;
        x <- lift (shrink x check_time now) ;;
        race_loop fuel' event x
    end
  else ret (event, x).
Proof. destruct fuel; reflexivity. Qed.

(** When the race returns, the countdown is not above zero or the last
    record seen is a button edge; the handler is as before but for the
    answers consumed and the clock readings taken. *)
Lemma race_loop_Returned fuel :
  forall event x w r w1,
    race_loop fuel event x w = Returned r w1 ->
    consumed w w1 /\
    not_button (fst r) && number_gt (snd r) 0 = false.
Proof.
  induction fuel as [|fuel IH]; intros event x w r w1;
    rewrite race_loop_eq;
    destruct (not_button event && number_gt x 0) eqn:C; intro H;
    try discriminate.
  - injection H as <- <-. split; [apply consumed_refl|exact C].
  - bind_inv H as t0 wa Ht0. injection Ht0 as <- <-.
    bind_inv H as ev wb Hpop. apply timed_pop_Returned in Hpop.
    bind_inv H as t1 wc Ht1. injection Ht1 as <- <-.
    bind_inv H as x' wd Hs. apply lift_Returned_inv in Hs.
    destruct Hs as [_ ->].
    apply IH in H. destruct H as (Hc' & Hexit).
    split; [|exact Hexit].
    eapply consumed_trans; [apply consumed_tick|].
    eapply consumed_trans; [exact Hpop|].
    eapply consumed_trans; [apply consumed_tick|exact Hc'].
  - injection H as <- <-. split; [apply consumed_refl|exact C].
Qed.

Lemma button_press_race_Returned time_pressed w r w1 :
  __button_press_race time_pressed w = Returned r w1 ->
  consumed w w1 /\
  not_button (fst r) && number_gt (snd r) 0 = false.
Proof.
  unfold __button_press_race. intro H.
  bind_inv H as lpt wa Hl. injection Hl as <- <-.
  bind_inv H as ev wb Hpop. apply timed_pop_Returned in Hpop.
  bind_inv H as t1 wc Ht1. injection Ht1 as <- <-.
  bind_inv H as x' wd Hs. apply lift_Returned_inv in Hs.
  destruct Hs as [_ ->].
  bind_inv H as fuel we Hf. injection Hf as <- <-.
  apply race_loop_Returned in H. destruct H as (Hc' & Hexit).
  split; [|exact Hexit].
  eapply consumed_trans; [exact Hpop|].
  eapply consumed_trans; [apply consumed_tick|exact Hc'].
Qed.

(** The answers that the race consumes: all but the last are no button
    edge, and the last is what the race yields. *)
Lemma race_loop_seen fuel :
  forall event x w r w1,
    race_loop fuel event x w = Returned r w1 ->
    exists pre init,
      __raw_queue w = pre ++ __raw_queue w1 /\
      event :: pre = init ++ [fst r] /\
      Forall no_edge init.
Proof.
  induction fuel as [|fuel IH]; intros event x w r w1;
    rewrite race_loop_eq;
    destruct (not_button event && number_gt x 0) eqn:C; intro H;
    try discriminate.
  - injection H as <- <-. exists [], []. repeat split. constructor.
  - bind_inv H as t0 wa Ht0. injection Ht0 as <- <-.
    bind_inv H as ev wb Hpop. apply timed_pop_seen in Hpop.
    destruct Hpop as (skipped & Hpop & Hskip). cbn in Hpop.
    bind_inv H as t1 wc Ht1. injection Ht1 as <- <-.
    bind_inv H as x' wd Hs. apply lift_Returned_inv in Hs.
    destruct Hs as [_ ->].
    apply IH in H. destruct H as (pre & init & Hq & Hseen & Hall).
    cbn in Hq. exists (skipped ++ ev :: pre), (event :: skipped ++ init).
    split; [rewrite Hpop, Hq, <- app_assoc; reflexivity|].
    split; [cbn; rewrite Hseen, <- app_assoc; reflexivity|].
    constructor; [apply andb_prop in C; exact (proj1 C)|].
    apply Forall_app. split; [|exact Hall].
    exact (Forall_impl _ empty_moment_no_edge Hskip).
  - injection H as <- <-. exists [], []. repeat split. constructor.
Qed.

Lemma button_press_race_seen time_pressed w event x w1 :
  __button_press_race time_pressed w = Returned (event, x) w1 ->
  exists init,
    __raw_queue w = init ++ event :: __raw_queue w1 /\ Forall no_edge init.
Proof.
  unfold __button_press_race. intro H.
  bind_inv H as lpt wa Hl. injection Hl as <- <-.
  bind_inv H as ev wb Hpop. apply timed_pop_seen in Hpop.
  destruct Hpop as (skipped & Hpop & Hskip).
  bind_inv H as t1 wc Ht1. injection Ht1 as <- <-.
  bind_inv H as x' wd Hs. apply lift_Returned_inv in Hs.
  destruct Hs as [_ ->].
  bind_inv H as fuel we Hf. injection Hf as <- <-.
  apply race_loop_seen in H. destruct H as (pre & init & Hq & Hseen & Hall).
  cbn in Hq, Hseen. exists (skipped ++ init). split.
  - rewrite Hpop, Hq, app_comm_cons, Hseen, <- !app_assoc. reflexivity.
  - apply Forall_app. split; [|exact Hall].
    exact (Forall_impl _ empty_moment_no_edge Hskip).
Qed.

(** *** The race along a script *)

Lemma countdown_before time_pressed w k :
  forall x,
    countdown time_pressed w k = inr x ->
    forall j, (j <= k)%nat -> exists y, countdown time_pressed w j = inr y.
Proof.
  induction k as [|k IH]; intros x H j Hj.
  - replace j with O by lia. exists x. exact H.
  - destruct (Nat.eq_dec j (S k)) as [->|N]; [exists x; exact H|].
    cbn [countdown] in H.
    destruct (countdown time_pressed w k) as [e|y]; [discriminate|].
    apply (IH y eq_refl). lia.
Qed.

(** The race shrinks the countdown as the statements count it. *)
Lemma shrink_less_elapsed x check_time now :
  shrink x check_time now = less_elapsed x check_time now.
Proof.
  unfold shrink, less_elapsed.
  destruct (float_of_int (now - check_time)) as [e|ms]; [reflexivity|].
  f_equal.
Qed.

Lemma countdown_S time_pressed w j x :
  countdown time_pressed w j = inr x ->
  countdown time_pressed w (S j)
  = shrink x (pop_began time_pressed w j) (pop_ended w j).
Proof.
  intro H. cbn [countdown]. rewrite H. symmetry. apply shrink_less_elapsed.
Qed.

(** The loop of the race from its [j]-th turn on, in front of the answers
    [more]: as long as the record seen is no button edge and the countdown
    is above zero, the next answer is popped and the countdown shrunk. *)
Lemma race_loop_script time_pressed w rest last :
  forall more j event init x fuel,
    event :: more = init ++ [last] ->
    Forall no_edge init ->
    (forall k, (S j <= k < S j + length more)%nat ->
               counting time_pressed w k) ->
    countdown time_pressed w (S j) = inr x ->
    forall xf,
      countdown time_pressed w (S j + length more) = inr xf ->
      not_button last && number_gt xf 0 = false ->
      (length more <= fuel)%nat ->
      race_loop fuel event x
        (with_ticks (ticks w + 2 * j + 1) (with_raw_queue (more ++ rest) w))
      = Returned (last, xf)
          (with_ticks (ticks w + 2 * (j + length more) + 1)
             (with_raw_queue rest w)).
Proof.
  induction more as [|a more IH];
    intros j event init x fuel Hsplit Hall Hcount Hx xf Hxf Hexit Hfuel.
  - destruct init as [|i [|i' init]]; try discriminate.
    injection Hsplit as <-.
    cbn [length] in Hxf. rewrite Nat.add_0_r in Hxf.
    assert (E : xf = x) by congruence. subst xf.
    rewrite race_loop_eq, Hexit. cbn [length app].
    rewrite Nat.add_0_r. reflexivity.
  - destruct init as [|i init]; [destruct more; discriminate|].
    injection Hsplit as <- Hsplit.
    apply Forall_cons_iff in Hall. destruct Hall as [Hev Hall].
    destruct (Hcount (S j)) as (x' & q & Hx' & V & Hq);
      [cbn [length]; lia|].
    assert (E : x' = x) by congruence. subst x'.
    destruct (positive_number x q V Hq) as (Ht & Hneg & Hgt & _).
    destruct fuel as [|fuel]; [cbn in Hfuel; lia|].
    rewrite race_loop_eq. unfold no_edge in Hev. rewrite Hev, Hgt.
    cbn [andb].
    destruct (countdown_before _ _ _ _ Hxf (S (S j))) as [x2 Hx2];
      [cbn [length]; lia|].
    pose proof (countdown_S _ _ _ _ Hx) as Hshrink.
    rewrite Hx2 in Hshrink. cbn [pop_began] in Hshrink.
    unfold pop_ended in Hshrink.
    replace (ticks w + 2 * S j)%nat with (S (ticks w + 2 * j + 1))
      in Hshrink by lia.
    unfold bind at 1.
    change (__get_time_in_ms
              (with_ticks (ticks w + 2 * j + 1)
                 (with_raw_queue ((a :: more) ++ rest) w)))
      with (Returned (clock w (ticks w + 2 * j + 1))
              (with_ticks (S (ticks w + 2 * j + 1))
                 (with_raw_queue (a :: more ++ rest) w))).
    cbv iota beta. unfold bind at 1.
    rewrite (timed_pop_head x q a (more ++ rest)
               (with_ticks (S (ticks w + 2 * j + 1))
                  (with_raw_queue (a :: more ++ rest) w))
               Ht Hneg eq_refl).
    cbv iota beta. unfold bind at 1.
    change (__get_time_in_ms
              (with_raw_queue (more ++ rest)
                 (with_ticks (S (ticks w + 2 * j + 1))
                    (with_raw_queue (a :: more ++ rest) w))))
      with (Returned (clock w (S (ticks w + 2 * j + 1)))
              (with_ticks (S (S (ticks w + 2 * j + 1)))
                 (with_raw_queue (more ++ rest) w))).
    cbv iota beta. unfold bind at 1. rewrite <- Hshrink.
    cbn [lift ret]. 
    replace (S (S (ticks w + 2 * j + 1))) with (ticks w + 2 * S j + 1)%nat
      by lia.
    assert (Hcount' : forall k, (S (S j) <= k < S (S j) + length more)%nat ->
                                counting time_pressed w k).
    { intros k Hk. apply Hcount. cbn [length]. lia. }
    assert (Hxf' : countdown time_pressed w (S (S j) + length more)
                   = inr xf).
    { cbn [length] in Hxf.
      replace (S (S j) + length more)%nat with (S j + S (length more))%nat
        by lia.
      exact Hxf. }
    assert (Hfuel' : (length more <= fuel)%nat)
      by (cbn [length] in Hfuel; lia).
    rewrite (IH (S j) a init x2 fuel Hsplit Hall Hcount' Hx2 xf Hxf' Hexit
               Hfuel').
    f_equal. f_equal. cbn [length]. lia.
Qed.

(** The race in front of the answers [init], none of them a button edge
    and each popped while the countdown is above zero, and of the answer
    [last], after which the countdown is not above zero or which is a
    button edge. *)
Lemma button_press_race_script time_pressed w init last rest x :
  __raw_queue w = init ++ last :: rest ->
  Forall no_edge init ->
  poppable (__long_press_time w) ->
  (forall k, (1 <= k <= length init)%nat -> counting time_pressed w k) ->
  countdown time_pressed w (S (length init)) = inr x ->
  not_button last && number_gt x 0 = false ->
  __button_press_race time_pressed w
  = Returned (last, x)
      (with_ticks (ticks w + 2 * length init + 1) (with_raw_queue rest w)).
Proof.
  intros Hq Hall (q0 & V0 & Hq0) Hcount Hx Hexit.
  destruct (init ++ [last]) as [|a0 more] eqn:E;
    [destruct init; discriminate|].
  assert (Hlen : length more = length init).
  { apply (f_equal (@length _)) in E. rewrite length_app in E.
    cbn in E. lia. }
  assert (Hq' : __raw_queue w = a0 :: more ++ rest).
  { rewrite Hq. change (last :: rest) with ([last] ++ rest).
    rewrite app_assoc, E. reflexivity. }
  destruct (countdown_before _ _ _ _ Hx 1%nat) as [x1 Hx1]; [lia|].
  pose proof (countdown_S time_pressed w 0 _ eq_refl) as Hshrink.
  rewrite Hx1 in Hshrink. cbn [pop_began] in Hshrink.
  unfold pop_ended in Hshrink.
  replace (ticks w + 2 * 0)%nat with (ticks w) in Hshrink by lia.
  unfold __button_press_race, bind at 1, gets. cbv iota beta.
  unfold bind at 1.
  rewrite (timed_pop_head (__long_press_time w) q0 a0 (more ++ rest) w).
  - cbv iota beta. unfold bind at 1.
    change (__get_time_in_ms (with_raw_queue (more ++ rest) w))
      with (Returned (clock w (ticks w))
              (with_ticks (S (ticks w)) (with_raw_queue (more ++ rest) w))).
    cbv iota beta. unfold bind at 1. rewrite <- Hshrink. cbn [lift ret].
    unfold bind at 1, pops_left, gets. cbv iota beta.
    replace (S (ticks w)) with (ticks w + 2 * 0 + 1)%nat by lia.
    assert (Hcount' : forall k, (1 <= k < 1 + length more)%nat ->
                                counting time_pressed w k).
    { intros k Hk. apply Hcount. lia. }
    assert (Hx' : countdown time_pressed w (1 + length more) = inr x)
      by (rewrite Hlen; exact Hx).
    assert (Hfuel : (length more <= S (length (more ++ rest)))%nat)
      by (rewrite length_app; lia).
    change (__raw_queue
              (with_ticks (ticks w + 2 * 0 + 1)
                 (with_raw_queue (more ++ rest) w)))
      with (more ++ rest).
    rewrite (race_loop_script time_pressed w rest last more 0 a0 init x1
               _ (eq_sym E) Hall Hcount' Hx1 x Hx' Hexit Hfuel).
    f_equal. f_equal. lia.
  - unfold timeout_of. rewrite V0. reflexivity.
  - apply Qlt_bool_false_iff. exact Hq0.
  - exact Hq'.
Qed.

(** ** Draining after a long click *)

Lemma drain_loop_eq fuel event :
  drain_loop fuel event =
  if negb (code event =? BUTTON_PUSHED) then
    match fuel with
    | O => fun w => Pending w
    | S fuel' => event <- raw_queue_get true None ;; drain_loop fuel' event
    end
  else ret tt.
Proof. destruct fuel; reflexivity. Qed.

Lemma no_edge_Some e : no_edge (Some e) -> (code e =? BUTTON_PUSHED) = false.
Proof. unfold no_edge, not_button. now rewrite negb_true_iff. Qed.

Lemma wait_cases {A} (q : Queue.t A) :
  (exists a q', Queue.wait q = Queue.Item a q') \/
  Queue.wait q = Queue.Waiting [].
Proof.
  induction q as [|[a|] q IH]; cbn.
  - now right.
  - left. now exists a, q.
  - exact IH.
Qed.

(** An empty moment at the head is waited through. *)
Lemma bind_wait_skip {B} (k : InputEvent -> M B) q w :
  bind (raw_queue_get true None) k (with_raw_queue (None :: q) w)
  = bind (raw_queue_get true None) k (with_raw_queue q w).
Proof.
  unfold bind, raw_queue_get. cbn.
  destruct (wait_cases q) as [(a & q' & ->)| ->]; reflexivity.
Qed.

(** One more pop, then the loop: through answers that are no button edge
    up to the first edge. *)
Lemma pop_drain_until_edge prefix edge rest :
  Forall no_edge prefix ->
  (code edge =? BUTTON_PUSHED) = true ->
  forall fuel w,
    (length (prefix ++ Some edge :: rest) <= fuel)%nat ->
    (event <- raw_queue_get true None ;; drain_loop fuel event)
      (with_raw_queue (prefix ++ Some edge :: rest) w)
    = Returned tt (with_raw_queue rest w).
Proof.
  intros Hall Hedge.
  induction Hall as [|a prefix Ha Hall IH]; intros fuel w Hfuel.
  - unfold bind. cbn -[drain_loop]. rewrite drain_loop_eq, Hedge. reflexivity.
  - destruct a as [k|].
    + destruct fuel as [|fuel]; [cbn in Hfuel; lia|].
      unfold bind at 1. cbn -[drain_loop].
      rewrite drain_loop_eq, (no_edge_Some k Ha). cbn [negb].
      apply (IH fuel (with_raw_queue (prefix ++ Some edge :: rest) w)).
      cbn in Hfuel. lia.
    + rewrite <- app_comm_cons, bind_wait_skip.
      apply IH. cbn in Hfuel. lia.
Qed.

Lemma long_tail_until_edge prefix edge rest :
  Forall no_edge prefix ->
  (code edge =? BUTTON_PUSHED) = true ->
  forall w,
    (event <- raw_queue_get true None ;;
     fuel <- pops_left ;;
     drain_loop fuel event)
      (with_raw_queue (prefix ++ Some edge :: rest) w)
    = Returned tt (with_raw_queue rest w).
Proof.
  intros Hall Hedge.
  induction Hall as [|a prefix Ha Hall IH]; intro w.
  - unfold bind. cbn -[drain_loop]. rewrite drain_loop_eq, Hedge. reflexivity.
  - destruct a as [k|].
    + unfold bind at 1 2. cbn -[drain_loop].
      rewrite drain_loop_eq, (no_edge_Some k Ha). cbn [negb].
      apply (pop_drain_until_edge prefix edge rest Hall Hedge
               (length (prefix ++ Some edge :: rest))
               (with_raw_queue (prefix ++ Some edge :: rest) w)).
      lia.
    + rewrite <- app_comm_cons, bind_wait_skip. apply IH.
Qed.

(** Without an edge in what remains the classifier is left waiting, every
    answer consumed. *)
Lemma pop_drain_starved q :
  Forall no_edge q ->
  forall fuel w,
    (length q <= fuel)%nat ->
    (event <- raw_queue_get true None ;; drain_loop fuel event)
      (with_raw_queue q w)
    = Pending (with_raw_queue [] w).
Proof.
  intro Hall.
  induction Hall as [|a q Ha Hall IH]; intros fuel w Hfuel.
  - reflexivity.
  - destruct a as [k|].
    + destruct fuel as [|fuel]; [cbn in Hfuel; lia|].
      unfold bind at 1. cbn -[drain_loop].
      rewrite drain_loop_eq, (no_edge_Some k Ha). cbn [negb].
      apply (IH fuel (with_raw_queue q w)). cbn in Hfuel. lia.
    + rewrite bind_wait_skip. apply IH. cbn in Hfuel. lia.
Qed.

Lemma long_tail_starved q :
  Forall no_edge q ->
  forall w,
    (event <- raw_queue_get true None ;;
     fuel <- pops_left ;;
     drain_loop fuel event)
      (with_raw_queue q w)
    = Pending (with_raw_queue [] w).
Proof.
  intro Hall.
  induction Hall as [|a q Ha Hall IH]; intro w.
  - reflexivity.
  - destruct a as [k|].
    + unfold bind at 1 2. cbn -[drain_loop].
      rewrite drain_loop_eq, (no_edge_Some k Ha). cbn [negb].
      apply (pop_drain_starved q Hall (length q) (with_raw_queue q w)). lia.
    + rewrite bind_wait_skip. apply IH.
Qed.

Lemma drain_loop_Returned fuel :
  forall e w w', drain_loop fuel e w = Returned tt w' -> consumed w w'.
Proof.
  induction fuel as [|fuel IH]; intros e w w'; rewrite drain_loop_eq;
    destruct (negb (code e =? BUTTON_PUSHED)); intro H; try discriminate.
  - injection H as <-. apply consumed_refl.
  - bind_inv H as k wa Hpop. apply raw_queue_get_Returned in Hpop.
    eapply consumed_trans; [exact (proj1 Hpop)|exact (IH _ _ _ H)].
  - injection H as <-. apply consumed_refl.
Qed.

Lemma knob_turned_Returned e w w' :
  __knob_turned e w = Returned tt w' ->
  exists T,
    event_time_in_ms e = inr T /\
    ((outside_window T w /\
      exists c, __consolidated_queue w' = __consolidated_queue w ++ [Some c] /\
                (c = RIGHT_TURN \/ c = LEFT_TURN)) \/
     (inside_window T w /\ w' = w)).
Proof.
  destruct (event_time_in_ms e) as [exn|T] eqn:stamp.
  - unfold __knob_turned, bind, lift. rewrite stamp. discriminate.
  - rewrite (knob_turned_eq _ _ _ stamp). intro H. exists T.
    split; [reflexivity|].
    destruct (number_sub (Int T) (__turn_delay w)) as [exn|gap] eqn:Hsub;
      [discriminate|].
    destruct (number_gt gap (__time_of_last_turn w)) eqn:C.
    + left. split; [exists gap; split; [exact Hsub|exact C]|].
      injection H as <-. eexists. split; [reflexivity|].
      destruct (0 <? value e); [now left|now right].
    + right. split; [exists gap; split; [exact Hsub|exact C]|].
      now injection H.
Qed.

(** ** The click classifier *)

Lemma consumed_eta w : w = with_raw_queue (__raw_queue w) w.
Proof. destruct w; reflexivity. Qed.

Lemma consumed_consolidated_queue w w1 :
  consumed w w1 -> __consolidated_queue w1 = __consolidated_queue w.
Proof. intros [_ ->]. reflexivity. Qed.

Lemma consumed_double_click_time w w1 :
  consumed w w1 -> __double_click_time w1 = __double_click_time w.
Proof. intros [_ ->]. reflexivity. Qed.

Lemma consumed_inside_window T w w1 :
  consumed w w1 -> inside_window T w1 -> inside_window T w.
Proof. intros [_ ->] H. exact H. Qed.

Lemma resolve_long event x w :
  number_le x 0 = true ->
  __button_press_resolve event x w =
  (event <- raw_queue_get true None ;;
   fuel <- pops_left ;;
   drain_loop fuel event) (pushed LONG_CLICK w).
Proof.
  intro H. unfold __button_press_resolve. rewrite H. reflexivity.
Qed.

(** A pop without timeout waits through the empty moments and takes the
    record after them. *)
Lemma untimed_pop_skips {B} (k : InputEvent -> M B) gap e q w :
  Forall empty_moment gap ->
  bind (raw_queue_get true None) k (with_raw_queue (gap ++ Some e :: q) w)
  = k e (with_raw_queue q w).
Proof.
  intro Hgap. induction Hgap as [|a gap Ha Hgap IH].
  - reflexivity.
  - rewrite Ha, <- app_comm_cons, bind_wait_skip. exact IH.
Qed.

Lemma resolve_short event x w gap quirk next rest :
  number_le x 0 = false ->
  Qlt_bool (__double_click_time w) 0 = false ->
  Forall empty_moment gap ->
  __button_press_resolve event x
    (with_raw_queue (gap ++ Some quirk :: next :: rest) w) =
  match next with
  | None => consolidated_queue_put SINGLE_CLICK (with_raw_queue rest w)
  | Some e =>
      (if code e =? BUTTON_PUSHED
       then consolidated_queue_put DOUBLE_CLICK
       else __knob_turned e) (with_raw_queue rest w)
  end.
Proof.
  intros Hgt Hd Hgap. unfold __button_press_resolve. rewrite Hgt.
  unfold bind at 1, gets. cbv iota beta.
  unfold bind at 1, try_except_Empty.
  rewrite (untimed_pop_skips _ gap quirk (next :: rest) w Hgap).
  unfold bind, raw_queue_get, Queue.get. cbn.
  rewrite Hd. destruct next as [e|]; reflexivity.
Qed.

(** The race that ends with the countdown run out, whatever the last
    answer is. *)
Lemma long_press_race time_pressed w answers last later :
  __raw_queue w = answers ++ last :: later ->
  Forall no_edge answers ->
  poppable (__long_press_time w) ->
  (forall k, (1 <= k <= length answers)%nat -> counting time_pressed w k) ->
  run_out time_pressed w (S (length answers)) ->
  exists x,
    __button_press_race time_pressed w
    = Returned (last, x)
        (with_ticks (ticks w + 2 * length answers + 1)
           (with_raw_queue later w)) /\
    number_le x 0 = true.
Proof.
  intros Hq Hall Hpop Hcount (x & Hx & Hle).
  assert (Hexit : not_button last && number_gt x 0 = false).
  { rewrite (number_le_not_gt _ _ Hle). apply andb_false_r. }
  exists x. split; [|exact Hle].
  exact (button_press_race_script time_pressed w answers last later x
           Hq Hall Hpop Hcount Hx Hexit).
Qed.

(** The race that ends at a button edge with the countdown above zero. *)
Lemma short_press_race time_pressed w answers release later :
  __raw_queue w = answers ++ Some release :: later ->
  Forall no_edge answers ->
  code release = BUTTON_PUSHED ->
  poppable (__long_press_time w) ->
  (forall k, (1 <= k <= S (length answers))%nat ->
             counting time_pressed w k) ->
  exists x,
    __button_press_race time_pressed w
    = Returned (Some release, x)
        (with_ticks (ticks w + 2 * length answers + 1)
           (with_raw_queue later w)) /\
    number_le x 0 = false.
Proof.
  intros Hq Hall Hrel Hpop Hcount.
  destruct (Hcount (S (length answers))) as (x & q & Hx & V & Hpos);
    [lia|].
  destruct (positive_number x q V Hpos) as (_ & _ & Hgt & Hle).
  assert (Hexit : not_button (Some release) && number_gt x 0 = false).
  { cbn [not_button]. rewrite Hrel. reflexivity. }
  assert (Hcount' : forall k, (1 <= k <= length answers)%nat ->
                              counting time_pressed w k).
  { intros k Hk. apply Hcount. lia. }
  exists x. split; [|exact Hle].
  exact (button_press_race_script time_pressed w answers (Some release)
           later x Hq Hall Hpop Hcount' Hx Hexit).
Qed.

(** C3 as stated fails on the boundary of the long-press time.  With the
    default long-press time of half a second, a press at 10000 ms after
    which a turn is popped at 10090 ms and the next pop times out at
    10500 ms has seen no button edge within the half second, and over the
    rationals nothing is left of the countdown; but in binary64
    [0.5 - 0.09 - 0.41] is above zero, the race goes on, finds the
    release, and the press ends as SINGLE_CLICK.  With the long-press time
    [0.3] and pops ending 290 ms and 300 ms after the press, the time
    elapsed exceeds the long-press time, and the press ends as
    SINGLE_CLICK all the same. *)
Lemma long_press_boundary_single_click :
  (__raw_queue boundary_world
   = Some knob_right :: None
       :: [Some button_up; Some syn_report; None] /\
   Forall no_edge [Some knob_right; None] /\
   (exists q,
       spec_countdown 10000 boundary_world 2 = Some q /\ (q <= 0)%Q) /\
   counting 10000 boundary_world 2 /\
   exists w',
     __button_press 10000 boundary_world = Returned tt w' /\
     __consolidated_queue w' = [Some SINGLE_CLICK]) /\
  (__raw_queue past_boundary_world
   = Some knob_right :: None
       :: [Some button_up; Some syn_report; None] /\
   (exists q,
       spec_countdown 10000 past_boundary_world 2 = Some q /\ (q < 0)%Q) /\
   counting 10000 past_boundary_world 2 /\
   exists w',
     __button_press 10000 past_boundary_world = Returned tt w' /\
     __consolidated_queue w' = [Some SINGLE_CLICK]).
Proof.
  split.
  - split; [reflexivity|].
    split; [repeat constructor|].
    split.
    { eexists. split; [vm_compute; reflexivity|]. vm_compute. discriminate. }
    split.
    { eexists. eexists. split; [vm_compute; reflexivity|].
      split; [vm_compute; reflexivity|]. vm_compute. reflexivity. }
    eexists. split; [vm_compute; reflexivity|]. reflexivity.
  - split; [reflexivity|].
    split.
    { eexists. split; [vm_compute; reflexivity|]. vm_compute. reflexivity. }
    split.
    { eexists. eexists. split; [vm_compute; reflexivity|].
      split; [vm_compute; reflexivity|]. vm_compute. reflexivity. }
    eexists. split; [vm_compute; reflexivity|]. reflexivity.
Qed.

(** C3, amended.  The classifier pops the answers [answers] and [last],
    none of them a button edge, each while the countdown of the long-press
    time, as the program computes it, is above zero, and after [last] the
    countdown is zero or less.  Then LONG_CLICK is pushed, and the raw
    queue is popped without timeout up to and including the first button
    edge: the classifier returns with exactly LONG_CLICK added and every
    answer before that edge, knob turns among them, consumed and not
    emitted; as long as no edge comes it is still waiting, LONG_CLICK
    pushed. *)
Theorem long_click_then_drain (time_pressed : Z) (w : World)
  (answers : list (option InputEvent)) (last : option InputEvent)
  (later : Queue.t InputEvent) :
  __raw_queue w = answers ++ last :: later ->
  Forall no_edge answers ->
  no_edge last ->
  poppable (__long_press_time w) ->
  (forall k, (1 <= k <= length answers)%nat -> counting time_pressed w k) ->
  run_out time_pressed w (S (length answers)) ->
  let w1 :=
    with_ticks (ticks w + 2 * length answers + 1) (with_raw_queue later w) in
  (forall prefix edge rest,
      later = prefix ++ Some edge :: rest ->
      Forall no_edge prefix ->
      code edge = BUTTON_PUSHED ->
      __button_press time_pressed w
      = Returned tt (with_raw_queue rest (pushed LONG_CLICK w1))) /\
  (Forall no_edge later ->
   __button_press time_pressed w
   = Pending (with_raw_queue [] (pushed LONG_CLICK w1))).
Proof.
  intros Hq Hall Hlast Hpop Hcount Hout w1.
  destruct (long_press_race time_pressed w answers last later
              Hq Hall Hpop Hcount Hout) as (x & Hrace & Hle).
  fold w1 in Hrace.
  split.
  - intros prefix edge rest -> Hpre Hedge.
    unfold __button_press. rewrite (bind_Returned _ _ _ _ _ Hrace).
    cbn [fst snd]. rewrite (resolve_long _ _ _ Hle).
    assert (Hedge' : (code edge =? BUTTON_PUSHED) = true)
      by (rewrite Hedge; reflexivity).
    exact (long_tail_until_edge prefix edge rest Hpre Hedge'
             (pushed LONG_CLICK w1)).
  - intro Hlater.
    unfold __button_press. rewrite (bind_Returned _ _ _ _ _ Hrace).
    cbn [fst snd]. rewrite (resolve_long _ _ _ Hle).
    exact (long_tail_starved later Hlater (pushed LONG_CLICK w1)).
Qed.

Lemma long_click_then_drain_witness :
  __button_press 10000 turned_while_held_world
  = Returned tt
      (with_raw_queue [Some syn_report]
         (pushed LONG_CLICK
            (with_ticks 3
               (with_raw_queue
                  [Some knob_right; Some button_up; Some syn_report]
                  turned_while_held_world)))).
Proof.
  destruct (long_click_then_drain 10000 turned_while_held_world
              [Some knob_right] None
              [Some knob_right; Some button_up; Some syn_report])
    as [Hdrain _].
  - reflexivity.
  - repeat constructor.
  - reflexivity.
  - eexists. split; [vm_compute; reflexivity|]. vm_compute. discriminate.
  - intros k Hk. cbn [length] in Hk. replace k with 1%nat by lia.
    eexists. eexists. split; [vm_compute; reflexivity|].
    split; [vm_compute; reflexivity|]. vm_compute. reflexivity.
  - eexists. split; [vm_compute; reflexivity|]. vm_compute. reflexivity.
  - apply (Hdrain [Some knob_right] button_up [Some syn_report]).
    + reflexivity.
    + repeat constructor.
    + reflexivity.
Defined.

(** C4 as stated fails on the boundary of the long-press time.  With the
    long-press time [0.1], a release popped 100 ms after the press comes
    within the long-press time, the float [0.1] being above one tenth, and
    no record follows its SYN_REPORT within the double-click time; but in
    binary64 [0.1 - 100/1000.] is zero, and the press ends as LONG_CLICK,
    the edge of the next press consumed with it. *)
Lemma tenth_of_a_second_long_click :
  __raw_queue tenth_world
  = Some quick_up :: Some syn_report :: None
      :: [Some (mkInputEvent 12 0 BUTTON_PUSHED POSITIVE); Some syn_report] /\
  code quick_up = BUTTON_PUSHED /\
  (exists q,
      spec_countdown 10000 tenth_world 1 = Some q /\ (0 < q)%Q) /\
  run_out 10000 tenth_world 1 /\
  exists w',
    __button_press 10000 tenth_world = Returned tt w' /\
    __consolidated_queue w' = [Some LONG_CLICK] /\
    __raw_queue w' = [Some syn_report].
Proof.
  split; [reflexivity|]. split; [reflexivity|].
  split.
  { eexists. split; [vm_compute; reflexivity|]. vm_compute. reflexivity. }
  split.
  { eexists. split; [vm_compute; reflexivity|]. vm_compute. reflexivity. }
  eexists. split; [vm_compute; reflexivity|]. split; reflexivity.
Qed.

(** C4, amended.  The classifier pops the answers [answers], none of them
    a button edge, and then the button edge [release], each while the
    countdown of the long-press time, as the program computes it, is above
    zero, and the countdown is above zero after the release too.  With a
    double-click time that is no negative number, the next record is then
    dropped, and the answer to the pop that follows decides: nothing
    within the double-click time, exactly SINGLE_CLICK is pushed; a button
    edge, exactly DOUBLE_CLICK; any other record, the classifier does what
    [__knob_turned] does with that record, which pushes no click: nothing
    or one turn. *)
Theorem short_press_resolution (time_pressed : Z) (w : World)
  (answers : list (option InputEvent)) (release : InputEvent)
  (gap : list (option InputEvent)) (quirk : InputEvent)
  (next : option InputEvent) (rest : Queue.t InputEvent) :
  __raw_queue w
  = answers ++ Some release :: gap ++ Some quirk :: next :: rest ->
  Forall no_edge answers ->
  code release = BUTTON_PUSHED ->
  Forall empty_moment gap ->
  poppable (__long_press_time w) ->
  (forall k, (1 <= k <= S (length answers))%nat ->
             counting time_pressed w k) ->
  (0 <= __double_click_time w)%Q ->
  let w1 :=
    with_ticks (ticks w + 2 * length answers + 1) (with_raw_queue rest w) in
  match next with
  | None =>
      __button_press time_pressed w = Returned tt (pushed SINGLE_CLICK w1)
  | Some e =>
      if code e =? BUTTON_PUSHED then
        __button_press time_pressed w = Returned tt (pushed DOUBLE_CLICK w1)
      else
        __button_press time_pressed w = __knob_turned e w1 /\
        forall w',
          __button_press time_pressed w = Returned tt w' ->
          __consolidated_queue w' = __consolidated_queue w \/
          __consolidated_queue w'
          = __consolidated_queue w ++ [Some RIGHT_TURN] \/
          __consolidated_queue w'
          = __consolidated_queue w ++ [Some LEFT_TURN]
  end.
Proof.
  intros Hq Hall Hrel Hgap Hpop Hcount Hdct w1.
  destruct (short_press_race time_pressed w answers release _
              Hq Hall Hrel Hpop Hcount) as (x & Hrace & Hle).
  assert (Hd : Qlt_bool
                 (__double_click_time
                    (with_ticks (ticks w + 2 * length answers + 1) w)) 0
               = false)
    by (apply Qlt_bool_false_iff; exact Hdct).
  pose proof (resolve_short (Some release) x
                (with_ticks (ticks w + 2 * length answers + 1) w)
                gap quirk next rest Hle Hd Hgap) as Hres.
  assert (Hrun : __button_press time_pressed w
                 = match next with
                   | None => consolidated_queue_put SINGLE_CLICK w1
                   | Some e =>
                       (if code e =? BUTTON_PUSHED
                        then consolidated_queue_put DOUBLE_CLICK
                        else __knob_turned e) w1
                   end).
  { unfold __button_press. rewrite (bind_Returned _ _ _ _ _ Hrace).
    cbn [fst snd]. exact Hres. }
  destruct next as [e|]; [|exact Hrun].
  destruct (code e =? BUTTON_PUSHED); [exact Hrun|].
  split; [exact Hrun|].
  intros w' H. rewrite Hrun in H. apply knob_turned_Returned in H.
  destruct H as (T & _ & [(_ & c & Hpush & [-> | ->])|(_ & ->)]).
  - right. left. exact Hpush.
  - right. right. exact Hpush.
  - left. reflexivity.
Qed.

Lemma short_press_resolution_witness :
  __button_press 10000 single_click_world
  = Returned tt
      (pushed SINGLE_CLICK
         (with_ticks 3 (with_raw_queue [] single_click_world))).
Proof.
  apply (short_press_resolution 10000 single_click_world
           [Some syn_report] quick_up [] syn_report None []).
  - reflexivity.
  - repeat constructor.
  - reflexivity.
  - constructor.
  - eexists. split; [vm_compute; reflexivity|]. vm_compute. discriminate.
  - intros k Hk. cbn [length] in Hk.
    assert (E : k = 1%nat \/ k = 2%nat) by lia.
    destruct E as [-> | ->]; eexists; eexists;
      (split; [vm_compute; reflexivity|]);
      (split; [vm_compute; reflexivity|]); vm_compute; reflexivity.
  - vm_compute. discriminate.
Defined.

(** ** One event per button press? *)

Lemma raw_queue_get_Empty block timeout w w1 :
  raw_queue_get block timeout w = Raised QueueEmpty w1 -> consumed w w1.
Proof.
  unfold raw_queue_get.
  destruct (Queue.get block timeout (__raw_queue w)) as [a q|q| |q] eqn:G;
    intro H; try discriminate.
  injection H as <-. apply consumed_raw. exact (get_Empty _ _ _ _ G).
Qed.

(** The two pops of the short-press branch: what they take from the raw
    queue when the second yields a record. *)
Lemma short_pops_Returned dct w ev w1 :
  try_except_Empty
    (raw_queue_get true None ;;
     e <- raw_queue_get true (Some dct) ;;
     ret (Some e))
    (ret None) w = Returned ev w1 ->
  consumed w w1 /\
  forall e, ev = Some e ->
    exists gap quirk,
      __raw_queue w = gap ++ Some quirk :: Some e :: __raw_queue w1 /\
      Forall empty_moment gap.
Proof.
  unfold try_except_Empty, bind.
  destruct (raw_queue_get true None w) as [k wk|[] wk|wk] eqn:G1;
    try discriminate.
  - pose proof (raw_queue_get_Returned _ _ _ _ _ G1) as [Hc1 _].
    destruct (raw_queue_get true (Some dct) wk) as [e we|[] we|we] eqn:G2;
      try discriminate; cbn; intro H; injection H as <- <-.
    + pose proof (raw_queue_get_Returned _ _ _ _ _ G2) as [Hc2 _].
      split; [exact (consumed_trans _ _ _ Hc1 Hc2)|].
      intros e' [= <-].
      unfold raw_queue_get in G1, G2.
      destruct (Queue.get true None (__raw_queue w))
        as [a q|q| |q] eqn:Q1; try discriminate.
      injection G1 as -> <-.
      destruct (Queue.get true (Some dct)
                  (__raw_queue (with_raw_queue q w)))
        as [a' q'|q'| |q'] eqn:Q2; try discriminate.
      injection G2 as -> <-.
      apply wait_Item in Q1. destruct Q1 as (gap & Eq1 & Hgap).
      apply timed_get_Item in Q2. cbn in Q2.
      exists gap, k. split.
      * rewrite Eq1, Q2. reflexivity.
      * apply (Forall_impl _ (fun a (H : None = a) => eq_sym H) Hgap).
    + apply raw_queue_get_Empty in G2.
      split; [exact (consumed_trans _ _ _ Hc1 G2)|discriminate].
  - apply raw_queue_get_Empty in G1.
    cbn. intro H. injection H as <- <-. split; [exact G1|discriminate].
Qed.

Lemma resolve_Returned event x w w' :
  __button_press_resolve event x w = Returned tt w' ->
  (exists c, __consolidated_queue w' = __consolidated_queue w ++ [Some c]) \/
  (number_le x 0 = false /\
   consumed w w' /\
   exists gap quirk e T,
     __raw_queue w = gap ++ Some quirk :: Some e :: __raw_queue w' /\
     Forall empty_moment gap /\
     code e <> BUTTON_PUSHED /\
     event_time_in_ms e = inr T /\ inside_window T w).
Proof.
  unfold __button_press_resolve. destruct (number_le x 0) eqn:L.
  - intro H. left. exists LONG_CLICK.
    bind_inv H as u wa Hput. injection Hput as <- <-.
    bind_inv H as k wb Hpop. apply raw_queue_get_Returned in Hpop.
    bind_inv H as fuel wc Hf. injection Hf as <- <-.
    apply drain_loop_Returned in H.
    rewrite (consumed_consolidated_queue _ _
               (consumed_trans _ _ _ (proj1 Hpop) H)).
    reflexivity.
  - intro H.
    bind_inv H as dct wa Hd. injection Hd as <- <-.
    bind_inv H as ev wb Hpops. apply short_pops_Returned in Hpops.
    destruct Hpops as [Hc Hseen].
    destruct ev as [e|].
    + destruct (code e =? BUTTON_PUSHED) eqn:B.
      * left. exists DOUBLE_CLICK. injection H as <-. cbn.
        rewrite (consumed_consolidated_queue _ _ Hc). reflexivity.
      * apply knob_turned_Returned in H.
        destruct H as (T & stamp & [(_ & c & Hq & _)|(N & ->)]).
        -- left. exists c.
           rewrite Hq, (consumed_consolidated_queue _ _ Hc). reflexivity.
        -- right. split; [reflexivity|]. split; [exact Hc|].
           destruct (Hseen e eq_refl) as (gap & quirk & Hraw & Hgap).
           exists gap, quirk, e, T. split; [exact Hraw|].
           split; [exact Hgap|].
           split; [apply Z.eqb_neq; exact B|].
           split; [exact stamp|].
           exact (consumed_inside_window _ _ _ Hc N).
    + left. exists SINGLE_CLICK. injection H as <-. cbn.
      rewrite (consumed_consolidated_queue _ _ Hc). reflexivity.
Qed.

(** C2 as stated fails: after a quick press and release, a knob turn that
    the debouncer suppresses leaves the consolidated queue as it was. *)
Lemma button_press_may_push_nothing :
  ~ (forall w',
        __button_press 10000 suppressed_turn_world = Returned tt w' ->
        exists c,
          __consolidated_queue w'
          = __consolidated_queue suppressed_turn_world ++ [Some c]).
Proof.
  intro claim.
  destruct (claim (with_ticks 3 (with_raw_queue [] suppressed_turn_world)))
    as [c Hc]; [vm_compute; reflexivity|].
  discriminate Hc.
Qed.

(** C2, amended.  When the classifier returns it has pushed at most one
    event: exactly one, unless the record that follows the answer that
    ended the long-press race and the one dropped record is no button edge
    and the debouncer suppresses it; then nothing is pushed, and the
    classifier has consumed the raw queue up to and including that record
    and changed nothing else.  The answer that ended the race is then a
    button edge, unless the countdown is not a number. *)
Theorem button_press_at_most_one (time_pressed : Z) (w w' : World) :
  __button_press time_pressed w = Returned tt w' ->
  (exists c, __consolidated_queue w' = __consolidated_queue w ++ [Some c]) \/
  (__consolidated_queue w' = __consolidated_queue w /\
   consumed w w' /\
   exists init ended gap quirk e T,
     __raw_queue w
     = init ++ ended :: gap ++ Some quirk :: Some e :: __raw_queue w' /\
     Forall no_edge init /\
     Forall empty_moment gap /\
     code e <> BUTTON_PUSHED /\
     event_time_in_ms e = inr T /\
     inside_window T w /\
     ((exists release, ended = Some release /\
                       code release = BUTTON_PUSHED) \/
      exists x w1,
        __button_press_race time_pressed w = Returned (ended, x) w1 /\
        number_value x = NotANumber)).
Proof.
  unfold __button_press. intro H.
  bind_inv H as r w1 Hrace. destruct r as [ended x].
  destruct (button_press_race_Returned _ _ _ _ Hrace) as (Hc & Hexit).
  destruct (button_press_race_seen _ _ _ _ _ Hrace) as (init & Hraw & Hall).
  cbn [fst snd] in H, Hexit.
  apply resolve_Returned in H.
  rewrite (consumed_consolidated_queue _ _ Hc) in H.
  destruct H as [H|(Hle & Hc' & gap & quirk & e & T & Hq & Hgap & Hcode
                    & stamp & N)].
  - left. exact H.
  - right.
    split; [rewrite (consumed_consolidated_queue _ _ Hc'),
              (consumed_consolidated_queue _ _ Hc); reflexivity|].
    split; [exact (consumed_trans _ _ _ Hc Hc')|].
    exists init, ended, gap, quirk, e, T.
    split; [rewrite Hraw, Hq; reflexivity|].
    split; [exact Hall|]. split; [exact Hgap|].
    split; [exact Hcode|]. split; [exact stamp|].
    split; [exact (consumed_inside_window _ _ _ Hc N)|].
    destruct (number_gt x 0) eqn:G.
    + left. rewrite andb_true_r in Hexit.
      destruct ended as [release|]; [|discriminate].
      exists release. split; [reflexivity|].
      cbn in Hexit. apply negb_false_iff, Z.eqb_eq in Hexit. exact Hexit.
    + right. exists x, w1. split; [exact Hrace|].
      exact (number_unordered _ _ G Hle).
Qed.

Lemma button_press_at_most_one_witness :
  (exists c,
      __consolidated_queue
        (with_ticks 3 (with_raw_queue [] suppressed_turn_world))
      = __consolidated_queue suppressed_turn_world ++ [Some c]) \/
  (__consolidated_queue
     (with_ticks 3 (with_raw_queue [] suppressed_turn_world))
   = __consolidated_queue suppressed_turn_world /\
   consumed suppressed_turn_world
     (with_ticks 3 (with_raw_queue [] suppressed_turn_world)) /\
   exists init ended gap quirk e T,
     __raw_queue suppressed_turn_world
     = init ++ ended :: gap ++ Some quirk :: Some e
         :: __raw_queue
              (with_ticks 3 (with_raw_queue [] suppressed_turn_world)) /\
     Forall no_edge init /\
     Forall empty_moment gap /\
     code e <> BUTTON_PUSHED /\
     event_time_in_ms e = inr T /\
     inside_window T suppressed_turn_world /\
     ((exists release, ended = Some release /\
                       code release = BUTTON_PUSHED) \/
      exists x w1,
        __button_press_race 10000 suppressed_turn_world
        = Returned (ended, x) w1 /\
        number_value x = NotANumber)).
Proof.
  apply (button_press_at_most_one 10000 suppressed_turn_world).
  vm_compute. reflexivity.
Defined.

(** ** The LED *)

Lemma set_led_brightness_eq v w :
  set_led_brightness v w
  = Returned tt
      (with_led_brightness (clamp v) (with_uinput (__uinput w ++ [clamp v]) w)).
Proof.
  unfold set_led_brightness, clamp.
  destruct (Z.ltb_spec v 0) as [L|L].
  - replace (Z.max 0 (Z.min 255 v)) with 0 by lia. reflexivity.
  - destruct (Z.ltb_spec 255 v) as [G|G].
    + replace (Z.max 0 (Z.min 255 v)) with 255 by lia. reflexivity.
    + replace (Z.max 0 (Z.min 255 v)) with v by lia. reflexivity.
Qed.

(** C6.  For every integer [v], [set_led_brightness v] returns, having
    written and stored one value [c] in [0,255]: 0 when [v < 0], 255 when
    [v > 255], [v] itself otherwise. *)
Theorem set_led_brightness_clamps (v : Z) (w : World) :
  exists c,
    set_led_brightness v w
    = Returned tt
        (with_led_brightness c (with_uinput (__uinput w ++ [c]) w)) /\
    0 <= c <= 255 /\
    (v < 0 -> c = 0) /\
    (255 < v -> c = 255) /\
    (0 <= v <= 255 -> c = v).
Proof.
  exists (clamp v). split; [apply set_led_brightness_eq|].
  unfold clamp. repeat split; lia.
Qed.

Lemma set_led_brightness_clamps_witness :
  (exists w',
      set_led_brightness (-5) (fresh [] []) = Returned tt w' /\
      __led_brightness w' = 0 /\ __uinput w' = [255; 0]) /\
  (exists w',
      set_led_brightness 300 (fresh [] []) = Returned tt w' /\
      __led_brightness w' = 255 /\ __uinput w' = [255; 255]).
Proof.
  split.
  - destruct (set_led_brightness_clamps (-5) (fresh [] []))
      as (c & Hrun & _ & Hneg & _).
    assert (E : c = 0) by (apply Hneg; lia). subst c.
    eexists. split; [exact Hrun|]. split; reflexivity.
  - destruct (set_led_brightness_clamps 300 (fresh [] []))
      as (c & Hrun & _ & _ & Hbig & _).
    assert (E : c = 255) by (apply Hbig; lia). subst c.
    eexists. split; [exact Hrun|]. split; reflexivity.
Defined.

Lemma flashes_S k b : flashes (S k) b = b :: 0 :: flashes k b.
Proof. reflexivity. Qed.

Lemma flashes_end k b : flashes (S k) b = flashes k b ++ [b; 0].
Proof.
  induction k as [|k IH]; [reflexivity|].
  rewrite flashes_S, IH at 1. reflexivity.
Qed.

Lemma flash_body b d s w :
  Qlt_bool d 0 = false ->
  Qlt_bool s 0 = false ->
  (set_led_brightness b ;; time_sleep d ;;
   set_led_brightness 0 ;; time_sleep s) w
  = Returned tt
      (with_led_brightness 0
         (with_uinput (__uinput w ++ [clamp b; 0]) w)).
Proof.
  intros Hd Hs. unfold bind.
  rewrite set_led_brightness_eq. unfold time_sleep. rewrite Hd. cbn [ret].
  rewrite set_led_brightness_eq, Hs. cbn.
  rewrite <- app_assoc. reflexivity.
Qed.

Lemma flash_loop k b d s w :
  Qlt_bool d 0 = false ->
  Qlt_bool s 0 = false ->
  for_range k
    (set_led_brightness b ;; time_sleep d ;;
     set_led_brightness 0 ;; time_sleep s) w
  = Returned tt
      (with_led_brightness
         (match k with O => __led_brightness w | S _ => 0 end)
         (with_uinput (__uinput w ++ flashes k (clamp b)) w)).
Proof.
  intros Hd Hs. revert w.
  induction k as [|k IH]; intro w.
  - cbn. rewrite app_nil_r. destruct w; reflexivity.
  - cbn [for_range].
    rewrite (bind_Returned _ _ _ _ _ (flash_body b d s w Hd Hs)), IH.
    cbn [__uinput __led_brightness with_uinput with_led_brightness].
    rewrite <- app_assoc. destruct k; reflexivity.
Qed.

Lemma sleepable_default (d : option Q) (dflt : Q) :
  sleepable d -> Qlt_bool dflt 0 = false ->
  Qlt_bool (match d with Some q => q | None => dflt end) 0 = false.
Proof.
  destruct d as [q|]; cbn; intros H D; [|exact D].
  apply Qlt_bool_false_iff. exact H.
Qed.

(** What a call of [flash_led] does, whatever the brightness asked for: the
    writes of the flashes, and the stored brightness put back. *)
Lemma flash_led_eq num_flashes brightness duration sleep w :
  sleepable duration -> sleepable sleep ->
  flash_led num_flashes brightness duration sleep w
  = Returned tt
      (with_uinput
         (__uinput w ++
          flashes
            (Z.to_nat (match num_flashes with Some n => n | None => 2 end))
            (clamp (match brightness with
                    | Some b => b
                    | None => led_brightness_at_def
                    end)))
         w).
Proof.
  intros Hd Hs. unfold flash_led, bind at 1 2, gets.
  rewrite flash_loop.
  - reflexivity.
  - apply sleepable_default; [exact Hd|reflexivity].
  - apply sleepable_default; [exact Hs|reflexivity].
Qed.

Lemma device_led_after_flashes k b u w :
  (0 < k)%nat ->
  device_led (with_uinput (u ++ flashes k b) w) = Some 0.
Proof.
  destruct k as [|k]; [lia|]. intros _.
  unfold device_led. cbn [__uinput with_uinput].
  rewrite flashes_end, !map_app, !app_assoc. cbn [map].
  change [Some b; Some 0] with ([Some b] ++ [Some 0]).
  rewrite app_assoc. apply last_last.
Qed.

(** C7, at [flash_led(3, 200)] on a handler at brightness 255: the call
    returns with the stored brightness 255 again, but the last value
    written to the device is the 0 of the third flash; the device is never
    written the value it showed before the call. *)
Theorem flash_led_leaves_device_dark :
  exists w',
    flash_led (Some 3) (Some 200) None None (fresh [] []) = Returned tt w' /\
    __led_brightness (fresh [] []) = 255 /\
    device_led (fresh [] []) = Some 255 /\
    __led_brightness w' = 255 /\
    __uinput w' = [255; 200; 0; 200; 0; 200; 0] /\
    device_led w' = Some 0.
Proof.
  eexists. split; [reflexivity|]. repeat split.
Qed.

(** The same for every call with at least one flash. *)
Lemma flash_led_device_dark n b d s w :
  0 < n -> sleepable d -> sleepable s ->
  exists w',
    flash_led (Some n) (Some b) d s w = Returned tt w' /\
    __led_brightness w' = __led_brightness w /\
    device_led w' = Some 0.
Proof.
  intros Hn Hd Hs. eexists. split; [apply (flash_led_eq _ _ _ _ _ Hd Hs)|].
  split; [reflexivity|].
  apply device_led_after_flashes. lia.
Qed.

(** C10.  Called without a brightness, [flash_led] writes the flashes at
    100, the value the module global had when the method was defined,
    whatever the global [led_brightness] and the stored brightness of the
    handler are at the call; the world after the call is the world before
    it but for these writes, so the stored brightness is the one held
    before. *)
Theorem flash_led_default_brightness (num_flashes : option Z)
  (duration sleep : option Q) (w : World) :
  sleepable duration -> sleepable sleep ->
  exists w',
    flash_led num_flashes None duration sleep w = Returned tt w' /\
    w' = with_uinput
           (__uinput w ++
            flashes
              (Z.to_nat (match num_flashes with Some n => n | None => 2 end))
              100)
           w /\
    __led_brightness w' = __led_brightness w /\
    led_brightness w' = led_brightness w.
Proof.
  intros Hd Hs. eexists.
  split; [apply (flash_led_eq _ None _ _ _ Hd Hs)|].
  repeat split.
Qed.

Lemma flash_led_default_brightness_witness :
  exists w',
    flash_led None None None None
      (with_led_brightness 30
         (mkWorld [] None [] None [30] 30 false (Int 0) None
            (Float (decimal 1 2)) (3 # 10) 0 None 7 (wall []) 0 []))
    = Returned tt w' /\
    __uinput w' = [30; 100; 0; 100; 0] /\
    __led_brightness w' = 30 /\
    led_brightness w' = 7.
Proof.
  destruct (flash_led_default_brightness None None None
              (with_led_brightness 30
                 (mkWorld [] None [] None [30] 30 false (Int 0) None
                    (Float (decimal 1 2)) (3 # 10) 0 None 7 (wall []) 0
                    [])) I I)
    as (w' & Hrun & -> & _ & _).
  eexists. split; [exact Hrun|]. repeat split.
Defined.

(** ** The setter of the long-press time *)

Lemma set_long_click_time_eq v w :
  set_long_click_time v w = Returned tt (with_long_click_time (Some v) w) /\
  __long_press_time (with_long_click_time (Some v) w) = __long_press_time w.
Proof. split; reflexivity. Qed.

(** C5, at [set_long_click_time(5)] on a handler constructed with the
    default long-press time of half a second: the setter stores 5 in a
    new attribute and leaves the long-press time at 0.5, and a press that
    is then held for 600 ms is classified as a long click after 500 ms. *)
Theorem set_long_click_time_not_read :
  exists w1 w2,
    set_long_click_time (Int 5) held_600ms_world = Returned tt w1 /\
    __long_click_time w1 = Some (Int 5) /\
    __long_press_time w1 = Float (decimal 1 2) /\
    __button_press 10000 w1 = Returned tt w2 /\
    __consolidated_queue w2 = [Some LONG_CLICK].
Proof.
  eexists. eexists. split; [reflexivity|].
  split; [reflexivity|]. split; [reflexivity|].
  split; [vm_compute; reflexivity|reflexivity].
Qed.

(** ** The pull API *)

Lemma start_eq raw_only w :
  start raw_only w
  = Returned tt
      (with_consolidated_thread
         (if negb raw_only then Some ConsolidatedThread else None)
         (with_raw_thread (Some RawThread)
            (with_event_capture_running true w))).
Proof. reflexivity. Qed.

Lemma get_next_running block timeout w :
  __event_capture_running w = true ->
  get_next block timeout w =
  match __consolidated_thread w with
  | Some _ =>
      handed_out Consolidated with_consolidated_queue
        (Queue.get block timeout (__consolidated_queue w)) w
  | None =>
      handed_out Raw with_raw_queue
        (Queue.get block timeout (__raw_queue w)) w
  end.
Proof.
  intro R. unfold get_next, bind, gets, try_except_Empty. rewrite R.
  cbn [negb].
  destruct (__consolidated_thread w).
  - unfold consolidated_queue_get.
    destruct (Queue.get block timeout (__consolidated_queue w));
      reflexivity.
  - unfold raw_queue_get.
    destruct (Queue.get block timeout (__raw_queue w)); reflexivity.
Qed.

(** C8.  While capture is not running, as it is until [start] is called,
    [get_next] raises CaptureNotStarted and leaves the world as it was.
    After [start] it pops the consolidated queue, or the raw queue when
    started raw-only, with the block and timeout it is given: an item is
    returned, and a queue found empty gives [None], not an exception. *)
Theorem get_next_contract (block : bool) (timeout : option Q) (w : World) :
  (__event_capture_running w = false ->
   get_next block timeout w = Raised CaptureNotStarted w) /\
  (forall w1,
      start false w = Returned tt w1 ->
      (forall c q,
          Queue.get block timeout (__consolidated_queue w1) = Queue.Item c q ->
          get_next block timeout w1
          = Returned (Some (Consolidated c)) (with_consolidated_queue q w1)) /\
      (forall q,
          Queue.get block timeout (__consolidated_queue w1) = Queue.Empty q ->
          get_next block timeout w1
          = Returned None (with_consolidated_queue q w1))) /\
  (forall w1,
      start true w = Returned tt w1 ->
      (forall e q,
          Queue.get block timeout (__raw_queue w1) = Queue.Item e q ->
          get_next block timeout w1
          = Returned (Some (Raw e)) (with_raw_queue q w1)) /\
      (forall q,
          Queue.get block timeout (__raw_queue w1) = Queue.Empty q ->
          get_next block timeout w1 = Returned None (with_raw_queue q w1))).
Proof.
  split; [|split].
  - intro R. unfold get_next, bind, gets. rewrite R. reflexivity.
  - intros w1 Hs. rewrite start_eq in Hs. injection Hs as <-.
    split; intros; rewrite get_next_running by reflexivity;
      cbn [__consolidated_thread with_consolidated_thread negb];
      match goal with H : Queue.get _ _ _ = _ |- _ => rewrite H end;
      reflexivity.
  - intros w1 Hs. rewrite start_eq in Hs. injection Hs as <-.
    split; intros; rewrite get_next_running by reflexivity;
      cbn [__consolidated_thread with_consolidated_thread negb];
      match goal with H : Queue.get _ _ _ = _ |- _ => rewrite H end;
      reflexivity.
Qed.

Lemma get_next_contract_witness :
  get_next true None (fresh [] []) = Raised CaptureNotStarted (fresh [] []) /\
  (exists w1,
      start false (with_consolidated_queue [Some RIGHT_TURN] (fresh [] []))
      = Returned tt w1 /\
      get_next false None w1
      = Returned (Some (Consolidated RIGHT_TURN))
          (with_consolidated_queue [] w1)) /\
  (exists w1,
      start true (fresh [None] []) = Returned tt w1 /\
      get_next true (Some 1%Q) w1 = Returned None (with_raw_queue [] w1)).
Proof.
  split; [|split].
  - apply (get_next_contract true None (fresh [] [])). reflexivity.
  - eexists. split; [apply start_eq|].
    destruct (get_next_contract false None
                (with_consolidated_queue [Some RIGHT_TURN] (fresh [] [])))
      as (_ & Hcons & _).
    destruct (Hcons _ (start_eq _ _)) as [Hitem _].
    apply Hitem. reflexivity.
  - eexists. split; [apply start_eq|].
    destruct (get_next_contract true (Some 1%Q) (fresh [None] []))
      as (_ & _ & Hraw).
    destruct (Hraw _ (start_eq _ _)) as [_ Hempty].
    apply Hempty. reflexivity.
Defined.

(** ** The classification loop *)

(** A button-down record at the head of the raw queue is handed to the
    classifier with the next reading of the clock; a release outside a
    classification is dropped; a knob record goes to the debouncer. *)
Lemma consolidated_iteration_dispatch e q w :
  __event_capture_running w = true ->
  sleepable (__read_delay w) ->
  __raw_queue w = Some e :: q ->
  __consolidated_iteration w =
  (if code e =? KNOB_TURNED then __knob_turned e ;; ret true
   else if code e =? BUTTON_PUSHED then
     if value e =? POSITIVE then
       (now <- __get_time_in_ms ;; __button_press now) ;; ret true
     else ret true
   else ret true) (with_raw_queue q w).
Proof.
  intros R D Hq.
  unfold __consolidated_iteration, bind at 1 2 3, gets. rewrite R.
  cbn [negb].
  unfold try_except_Empty, bind at 1, raw_queue_get, Queue.get. rewrite Hq.
  cbn [negb].
  assert (G : match __read_delay w with
              | Some secs =>
                  if Qlt_bool secs 0 then Queue.BadTimeout
                  else Queue.Item e q
              | None => Queue.wait (Some e :: q)
              end = Queue.Item e q).
  { destruct (__read_delay w) as [secs|]; [|reflexivity].
    cbn in D. apply Qlt_bool_false_iff in D. rewrite D. reflexivity. }
  rewrite G. cbn [ret].
  destruct (code e =? KNOB_TURNED); [reflexivity|].
  destruct (code e =? BUTTON_PUSHED); [|reflexivity].
  destruct (value e =? POSITIVE); reflexivity.
Qed.


(** ** Nothing reads the attribute that [set_long_click_time] writes *)

Section Blind.

Variable v : option Number.

Local Abbreviation f := (with_long_click_time v).

Lemma blind_ret {A} (a : A) : blind_to f (ret a).
Proof. intro w. reflexivity. Qed.

Lemma blind_bind {A B} (m : M A) (k : A -> M B) :
  blind_to f m -> (forall a, blind_to f (k a)) -> blind_to f (bind m k).
Proof.
  intros Hm Hk w. unfold bind. rewrite Hm.
  destruct (m w) as [a w'|e w'|w']; cbn; [apply Hk|reflexivity|reflexivity].
Qed.

Lemma blind_try {A} (m h : M A) :
  blind_to f m -> blind_to f h -> blind_to f (try_except_Empty m h).
Proof.
  intros Hm Hh w. unfold try_except_Empty. rewrite Hm.
  destruct (m w) as [a w'|[] w'|w']; cbn; try reflexivity. apply Hh.
Qed.

Lemma blind_raw_queue_get block timeout :
  blind_to f (raw_queue_get block timeout).
Proof.
  intro w. unfold raw_queue_get.
  change (__raw_queue (f w)) with (__raw_queue w).
  destruct (Queue.get block timeout (__raw_queue w)); reflexivity.
Qed.

Lemma blind_get_time : blind_to f __get_time_in_ms.
Proof. intro w. reflexivity. Qed.

Lemma blind_put c : blind_to f (consolidated_queue_put c).
Proof. intro w. reflexivity. Qed.

Lemma blind_pops_left : blind_to f pops_left.
Proof. intro w. reflexivity. Qed.

Lemma blind_lift {A} (r : Exception + A) : blind_to f (lift r).
Proof. destruct r; intro w; reflexivity. Qed.

Lemma blind_timed_pop x : blind_to f (timed_pop x).
Proof.
  apply blind_try; [|apply blind_ret].
  apply blind_bind; [apply blind_raw_queue_get|intro; apply blind_ret].
Qed.

Lemma blind_race_loop fuel :
  forall event x, blind_to f (race_loop fuel event x).
Proof.
  induction fuel as [|fuel IH]; intros event x; rewrite race_loop_eq;
    destruct (not_button event && number_gt x 0);
    try apply blind_ret.
  - intro w. reflexivity.
  - apply blind_bind; [apply blind_get_time|intro].
    apply blind_bind; [apply blind_timed_pop|intro].
    apply blind_bind; [apply blind_get_time|intro].
    apply blind_bind; [apply blind_lift|intro]. apply IH.
Qed.

Lemma blind_race time_pressed : blind_to f (__button_press_race time_pressed).
Proof.
  apply blind_bind; [intro w; reflexivity|intro].
  apply blind_bind; [apply blind_timed_pop|intro].
  apply blind_bind; [apply blind_get_time|intro].
  apply blind_bind; [apply blind_lift|intro].
  apply blind_bind; [apply blind_pops_left|intro]. apply blind_race_loop.
Qed.

Lemma blind_drain_loop fuel : forall e, blind_to f (drain_loop fuel e).
Proof.
  induction fuel as [|fuel IH]; intro e; rewrite drain_loop_eq;
    destruct (negb (code e =? BUTTON_PUSHED)); try apply blind_ret.
  - intro w. reflexivity.
  - apply blind_bind; [apply blind_raw_queue_get|exact IH].
Qed.

Lemma blind_knob_turned e : blind_to f (__knob_turned e).
Proof.
  unfold __knob_turned.
  apply blind_bind; [apply blind_lift|intro T].
  apply blind_bind; [intro w; reflexivity|intro delay].
  apply blind_bind; [apply blind_lift|intro gap].
  apply blind_bind; [intro w; reflexivity|intro last_turn].
  destruct (number_gt _ _); [|apply blind_ret].
  apply blind_bind; [destruct (0 <? value e); apply blind_put|intro].
  apply blind_bind; [apply blind_get_time|intro]. intro w. reflexivity.
Qed.

Lemma blind_resolve event x : blind_to f (__button_press_resolve event x).
Proof.
  unfold __button_press_resolve. destruct (number_le x 0).
  - apply blind_bind; [apply blind_put|intro].
    apply blind_bind; [apply blind_raw_queue_get|intro].
    apply blind_bind; [apply blind_pops_left|intro]. apply blind_drain_loop.
  - apply blind_bind; [intro w; reflexivity|intro dct].
    apply blind_bind.
    + apply blind_try; [|apply blind_ret].
      apply blind_bind; [apply blind_raw_queue_get|intro].
      apply blind_bind; [apply blind_raw_queue_get|intro]. apply blind_ret.
    + intros [e|]; [|apply blind_put].
      destruct (code e =? BUTTON_PUSHED);
        [apply blind_put|apply blind_knob_turned].
Qed.

Lemma blind_button_press time_pressed :
  blind_to f (__button_press time_pressed).
Proof.
  apply blind_bind; [apply blind_race|intro; apply blind_resolve].
Qed.

End Blind.

(** For every value given to [set_long_click_time], the classifier then
    does what it would have done without the call. *)
Lemma set_long_click_time_ignored time w time_pressed :
  (set_long_click_time time ;; __button_press time_pressed) w
  = map_world (with_long_click_time (Some time))
      (__button_press time_pressed w).
Proof.
  unfold bind at 1. cbn. apply blind_button_press.
Qed.

(** ** Pending means starved

    The classifier is left pending only by a pop that the raw queue can no
    longer answer, never by the bound on the number of pops. *)

Lemma bind_Pending_inv {A B} (m : M A) (k : A -> M B) w w1 :
  bind m k w = Pending w1 ->
  m w = Pending w1 \/ exists a w', m w = Returned a w' /\ k a w' = Pending w1.
Proof.
  unfold bind. destruct (m w) as [a w'|e w'|w']; intro H; try discriminate.
  - right. now exists a, w'.
  - left. now injection H as <-.
Qed.

Lemma wait_Waiting {A} (q q' : Queue.t A) :
  Queue.wait q = Queue.Waiting q' -> q' = [].
Proof.
  induction q as [|[a|] q IH]; cbn; intro H; try discriminate.
  - now injection H.
  - exact (IH H).
Qed.

Lemma raw_queue_get_Pending block timeout w w1 :
  raw_queue_get block timeout w = Pending w1 -> __raw_queue w1 = [].
Proof.
  unfold raw_queue_get, Queue.get.
  destruct (negb block); [|destruct timeout as [secs|]].
  - destruct (__raw_queue w) as [|[a|] q]; discriminate.
  - destruct (Qlt_bool secs 0); [discriminate|].
    destruct (__raw_queue w) as [|[a|] q]; intro H; try discriminate.
    now injection H as <-.
  - destruct (Queue.wait (__raw_queue w)) as [a q|q| |q] eqn:G;
      intro H; try discriminate.
    injection H as <-. exact (wait_Waiting _ _ G).
Qed.

Lemma raw_queue_get_shorter block timeout w e w1 :
  raw_queue_get block timeout w = Returned e w1 ->
  (length (__raw_queue w1) < length (__raw_queue w))%nat.
Proof.
  unfold raw_queue_get.
  destruct (Queue.get block timeout (__raw_queue w)) as [a q|q| |q] eqn:G;
    intro H; try discriminate.
  injection H as _ <-. destruct (get_Item _ _ _ _ _ G) as [pre ->].
  cbn. rewrite length_app. cbn. lia.
Qed.

Lemma lift_not_Pending {A} (r : Exception + A) w w1 : lift r w <> Pending w1.
Proof. destruct r; discriminate. Qed.

Lemma timed_pop_shorter x w ev w1 :
  timed_pop x w = Returned ev w1 ->
  (length (__raw_queue w1) < length (__raw_queue w))%nat.
Proof.
  intro H. apply timed_pop_seen in H. destruct H as (skipped & -> & _).
  rewrite length_app. cbn. lia.
Qed.

Lemma timed_pop_Pending x w w1 :
  timed_pop x w = Pending w1 -> __raw_queue w1 = [].
Proof.
  unfold timed_pop, try_except_Empty, bind.
  destruct (raw_queue_get true (timeout_of x) w) as [a w'|[] w'|w'] eqn:G;
    try discriminate.
  intro H. injection H as <-. exact (raw_queue_get_Pending _ _ _ _ G).
Qed.

Lemma race_loop_Pending fuel :
  forall event x w w1,
    (length (__raw_queue w) < fuel)%nat ->
    race_loop fuel event x w = Pending w1 -> __raw_queue w1 = [].
Proof.
  induction fuel as [|fuel IH]; intros event x w w1 Hfuel; [lia|].
  rewrite race_loop_eq. destruct (not_button event && number_gt x 0);
    [|discriminate].
  intro H.
  apply bind_Pending_inv in H.
  destruct H as [H|(t0 & wa & Ht0 & H)]; [discriminate|].
  injection Ht0 as <- <-.
  apply bind_Pending_inv in H.
  destruct H as [H|(ev & wb & Hpop & H)];
    [exact (timed_pop_Pending _ _ _ H)|].
  apply timed_pop_shorter in Hpop. cbn in Hpop.
  apply bind_Pending_inv in H.
  destruct H as [H|(t1 & wc & Ht1 & H)]; [discriminate|].
  injection Ht1 as <- <-.
  apply bind_Pending_inv in H.
  destruct H as [H|(x' & wd & Hs & H)];
    [destruct (lift_not_Pending _ _ _ H)|].
  apply lift_Returned_inv in Hs. destruct Hs as [_ ->].
  apply IH in H; [exact H|].
  cbn. lia.
Qed.

Lemma drain_loop_Pending fuel :
  forall e w w1,
    (length (__raw_queue w) < fuel)%nat ->
    drain_loop fuel e w = Pending w1 -> __raw_queue w1 = [].
Proof.
  induction fuel as [|fuel IH]; intros e w w1 Hfuel; [lia|].
  rewrite drain_loop_eq. destruct (negb (code e =? BUTTON_PUSHED));
    [|discriminate].
  intro H. apply bind_Pending_inv in H.
  destruct H as [H|(k & wa & Hpop & H)];
    [exact (raw_queue_get_Pending _ _ _ _ H)|].
  apply IH in H; [exact H|].
  apply raw_queue_get_shorter in Hpop. lia.
Qed.

Lemma knob_turned_not_Pending e w w1 : __knob_turned e w <> Pending w1.
Proof.
  destruct (event_time_in_ms e) as [exn|T] eqn:stamp.
  - unfold __knob_turned, bind, lift. rewrite stamp. discriminate.
  - rewrite (knob_turned_eq _ _ _ stamp).
    destruct (number_sub _ _); [discriminate|].
    destruct (number_gt _ _); discriminate.
Qed.

Lemma button_press_Pending time_pressed w w1 :
  __button_press time_pressed w = Pending w1 -> __raw_queue w1 = [].
Proof.
  unfold __button_press. intro H. apply bind_Pending_inv in H.
  destruct H as [H|(r & wr & Hrace & H)].
  - unfold __button_press_race in H.
    apply bind_Pending_inv in H.
    destruct H as [H|(lpt & wa & Hl & H)]; [discriminate|].
    injection Hl as <- <-.
    apply bind_Pending_inv in H.
    destruct H as [H|(ev & wb & Hpop & H)];
      [exact (timed_pop_Pending _ _ _ H)|].
    apply bind_Pending_inv in H.
    destruct H as [H|(t1 & wc & Ht1 & H)]; [discriminate|].
    injection Ht1 as <- <-.
    apply bind_Pending_inv in H.
    destruct H as [H|(x' & wx & Hs & H)];
      [destruct (lift_not_Pending _ _ _ H)|].
    apply lift_Returned_inv in Hs. destruct Hs as [_ ->].
    apply bind_Pending_inv in H.
    destruct H as [H|(fuel & wd & Hf & H)]; [discriminate|].
    injection Hf as <- <-.
    apply race_loop_Pending in H; [exact H|]. cbn. lia.
  - unfold __button_press_resolve in H. destruct (number_le (snd r) 0).
    + apply bind_Pending_inv in H.
      destruct H as [H|(u & wa & Hput & H)]; [discriminate|].
      apply bind_Pending_inv in H.
      destruct H as [H|(k & wb & Hpop & H)];
        [exact (raw_queue_get_Pending _ _ _ _ H)|].
      apply bind_Pending_inv in H.
      destruct H as [H|(fuel & wc & Hf & H)]; [discriminate|].
      injection Hf as <- <-.
      apply drain_loop_Pending in H; [exact H|]. cbn. lia.
    + apply bind_Pending_inv in H.
      destruct H as [H|(dct & wa & Hd & H)]; [discriminate|].
      apply bind_Pending_inv in H.
      destruct H as [H|(ev & wb & Hpops & H)].
      * unfold try_except_Empty in H.
        destruct (bind (raw_queue_get true None) _ wa)
          as [a w'|[] w'|w'] eqn:G; try discriminate.
        injection H as <-.
        apply bind_Pending_inv in G.
        destruct G as [G|(k & wk & _ & G)];
          [exact (raw_queue_get_Pending _ _ _ _ G)|].
        apply bind_Pending_inv in G.
        destruct G as [G|(k2 & wk2 & _ & G)];
          [exact (raw_queue_get_Pending _ _ _ _ G)|discriminate].
      * destruct ev as [e|]; [|discriminate].
        destruct (code e =? BUTTON_PUSHED); [discriminate|].
        destruct (knob_turned_not_Pending _ _ _ H).
Qed.

(** * Further properties *)

(** ** What a method keeps, however it ends *)

Lemma final_bind {A B} (m : M A) (k : A -> M B) w :
  final_world (bind m k w) =
  match m w with
  | Returned a w1 => final_world (k a w1)
  | Raised _ w1 => w1
  | Pending w1 => w1
  end.
Proof. unfold bind. destruct (m w); reflexivity. Qed.

Lemma keeps_get_of_raw (R : World -> World -> Prop) :
  (forall w, R w w) ->
  (forall q w, R w (with_raw_queue q w)) ->
  forall block timeout, keeps R (raw_queue_get block timeout).
Proof.
  intros Hrefl Hraw block timeout w. unfold raw_queue_get.
  destruct (Queue.get block timeout (__raw_queue w)); cbn; auto.
Qed.

Section Keeps.

Variable R : World -> World -> Prop.
Hypothesis R_refl : forall w, R w w.
Hypothesis R_trans : forall w1 w2 w3, R w1 w2 -> R w2 w3 -> R w1 w3.

Lemma keeps_ret {A} (a : A) : keeps R (ret a).
Proof. intro w. apply R_refl. Qed.

Lemma keeps_raise {A} e : keeps R (@raise A e).
Proof. intro w. apply R_refl. Qed.

Lemma keeps_gets {A} (g : World -> A) : keeps R (gets g).
Proof. intro w. apply R_refl. Qed.

Lemma keeps_lift {A} (r : Exception + A) : keeps R (lift r).
Proof. destruct r; [apply keeps_raise|apply keeps_ret]. Qed.

Lemma keeps_modify (g : World -> World) :
  (forall w, R w (g w)) -> keeps R (modify g).
Proof. intros H w. apply H. Qed.

Lemma keeps_bind {A B} (m : M A) (k : A -> M B) :
  keeps R m -> (forall a, keeps R (k a)) -> keeps R (bind m k).
Proof.
  intros Hm Hk w. rewrite final_bind. specialize (Hm w).
  destruct (m w) as [a w1|e w1|w1]; cbn in Hm; [|exact Hm|exact Hm].
  exact (R_trans _ _ _ Hm (Hk a w1)).
Qed.

Lemma keeps_try {A} (m h : M A) :
  keeps R m -> keeps R h -> keeps R (try_except_Empty m h).
Proof.
  intros Hm Hh w. unfold try_except_Empty. specialize (Hm w).
  destruct (m w) as [a w1|[] w1|w1]; cbn in Hm; try exact Hm.
  exact (R_trans _ _ _ Hm (Hh w1)).
Qed.

Hypothesis R_get : forall block timeout, keeps R (raw_queue_get block timeout).
Hypothesis R_tick : forall n w, R w (with_ticks n w).

Lemma keeps_raw_queue_get block timeout :
  keeps R (raw_queue_get block timeout).
Proof. apply R_get. Qed.

Lemma keeps_get_time : keeps R __get_time_in_ms.
Proof. intro w. apply R_tick. Qed.

Lemma keeps_timed_pop x : keeps R (timed_pop x).
Proof.
  apply keeps_try; [|apply keeps_ret].
  apply keeps_bind; [apply keeps_raw_queue_get|intro; apply keeps_ret].
Qed.

Lemma keeps_race_loop fuel : forall event x, keeps R (race_loop fuel event x).
Proof.
  induction fuel as [|fuel IH]; intros event x; rewrite race_loop_eq;
    destruct (not_button event && number_gt x 0); try apply keeps_ret.
  - intro w. apply R_refl.
  - apply keeps_bind; [apply keeps_get_time|intro].
    apply keeps_bind; [apply keeps_timed_pop|intro].
    apply keeps_bind; [apply keeps_get_time|intro].
    apply keeps_bind; [apply keeps_lift|intro]. apply IH.
Qed.

Lemma keeps_race time_pressed : keeps R (__button_press_race time_pressed).
Proof.
  apply keeps_bind; [apply keeps_gets|intro].
  apply keeps_bind; [apply keeps_timed_pop|intro].
  apply keeps_bind; [apply keeps_get_time|intro].
  apply keeps_bind; [apply keeps_lift|intro].
  apply keeps_bind; [apply keeps_gets|intro]. apply keeps_race_loop.
Qed.

Lemma keeps_drain_loop fuel : forall e, keeps R (drain_loop fuel e).
Proof.
  induction fuel as [|fuel IH]; intro e; rewrite drain_loop_eq;
    destruct (negb (code e =? BUTTON_PUSHED)); try apply keeps_ret.
  - intro w. apply R_refl.
  - apply keeps_bind; [apply keeps_raw_queue_get|exact IH].
Qed.

Lemma keeps_long_tail :
  keeps R (event <- raw_queue_get true None ;;
           fuel <- pops_left ;;
           drain_loop fuel event).
Proof.
  apply keeps_bind; [apply keeps_raw_queue_get|intro].
  apply keeps_bind; [apply keeps_gets|intro]. apply keeps_drain_loop.
Qed.

Lemma keeps_short_pops dct :
  keeps R (try_except_Empty
             (raw_queue_get true None ;;
              e <- raw_queue_get true (Some dct) ;;
              ret (Some e))
             (ret None)).
Proof.
  apply keeps_try; [|apply keeps_ret].
  apply keeps_bind; [apply keeps_raw_queue_get|intro].
  apply keeps_bind; [apply keeps_raw_queue_get|intro]. apply keeps_ret.
Qed.

Hypothesis R_put : forall c w, R w (pushed c w).
Hypothesis R_last : forall t w, R w (with_time_of_last_turn t w).

Lemma keeps_put c : keeps R (consolidated_queue_put c).
Proof. intro w. apply R_put. Qed.

Lemma keeps_knob_turned e : keeps R (__knob_turned e).
Proof.
  unfold __knob_turned.
  apply keeps_bind; [apply keeps_lift|intro T].
  apply keeps_bind; [apply keeps_gets|intro delay].
  apply keeps_bind; [apply keeps_lift|intro gap].
  apply keeps_bind; [apply keeps_gets|intro last_turn].
  destruct (number_gt _ _); [|apply keeps_ret].
  apply keeps_bind; [destruct (0 <? value e); apply keeps_put|intro].
  apply keeps_bind; [apply keeps_get_time|intro].
  apply keeps_modify. apply R_last.
Qed.

Lemma keeps_resolve event x : keeps R (__button_press_resolve event x).
Proof.
  unfold __button_press_resolve. destruct (number_le x 0).
  - apply keeps_bind; [apply keeps_put|intro]. apply keeps_long_tail.
  - apply keeps_bind; [apply keeps_gets|intro dct].
    apply keeps_bind; [apply keeps_short_pops|].
    intros [e|]; [|apply keeps_put].
    destruct (code e =? BUTTON_PUSHED);
      [apply keeps_put|apply keeps_knob_turned].
Qed.

Lemma keeps_button_press time_pressed : keeps R (__button_press time_pressed).
Proof.
  apply keeps_bind; [apply keeps_race|intro; apply keeps_resolve].
Qed.

Lemma keeps_iteration : keeps R __consolidated_iteration.
Proof.
  unfold __consolidated_iteration.
  apply keeps_bind; [apply keeps_gets|intro running].
  destruct (negb running); [apply keeps_ret|].
  apply keeps_bind; [apply keeps_gets|intro read_delay].
  apply keeps_bind.
  { apply keeps_try; [|apply keeps_ret].
    apply keeps_bind; [apply keeps_raw_queue_get|intro; apply keeps_ret]. }
  intros [e|]; [|apply keeps_ret].
  apply keeps_bind; [|intro; apply keeps_ret].
  destruct (code e =? KNOB_TURNED); [apply keeps_knob_turned|].
  destruct (code e =? BUTTON_PUSHED); [|apply keeps_ret].
  destruct (value e =? POSITIVE); [|apply keeps_ret].
  apply keeps_bind; [apply keeps_get_time|intro; apply keeps_button_press].
Qed.

Lemma keeps_consolidated_loop fuel : keeps R (consolidated_loop fuel).
Proof.
  induction fuel as [|fuel IH]; cbn [consolidated_loop].
  - intro w. apply R_refl.
  - apply keeps_bind; [apply keeps_iteration|].
    intros []; [exact IH|apply keeps_ret].
Qed.

Lemma keeps_consolidated : keeps R __consolidated.
Proof.
  apply keeps_bind; [apply keeps_gets|intro; apply keeps_consolidated_loop].
Qed.

End Keeps.

Lemma untouched_refl w : untouched w w.
Proof. repeat split. Qed.

Lemma untouched_trans w1 w2 w3 :
  untouched w1 w2 -> untouched w2 w3 -> untouched w1 w3.
Proof.
  unfold untouched. intros H1 H2.
  repeat match goal with H : _ /\ _ |- _ => destruct H end.
  repeat split; congruence.
Qed.

Lemma grown_same w w' :
  __consolidated_queue w' = __consolidated_queue w -> grown w w'.
Proof. intro H. exists []. unfold grown_by. cbn. now rewrite app_nil_r. Qed.

Lemma grown_refl w : grown w w.
Proof. now apply grown_same. Qed.

Lemma grown_trans w1 w2 w3 : grown w1 w2 -> grown w2 w3 -> grown w1 w3.
Proof.
  intros [l1 H1] [l2 H2]. exists (l1 ++ l2). unfold grown_by in *.
  rewrite H2, H1, map_app, app_assoc. reflexivity.
Qed.

Lemma popped_refl w : popped w w.
Proof. unfold popped. destruct w; reflexivity. Qed.

Lemma popped_trans w1 w2 w3 : popped w1 w2 -> popped w2 w3 -> popped w1 w3.
Proof.
  unfold popped. intros H1 H2. rewrite H1 in H2. exact H2.
Qed.

Lemma popped_consolidated_queue w w' :
  popped w w' -> __consolidated_queue w' = __consolidated_queue w.
Proof. intros ->. reflexivity. Qed.

(** X1.  The classification loop, however it ends, leaves the threads, the
    device writes, the stored brightness, the running flag, every timing
    parameter and the module global as they were: it changes nothing but
    the two queues, the clock and the time of the last turn. *)
Theorem consolidated_untouched (w : World) :
  untouched w (final_world (__consolidated w)).
Proof.
  apply (keeps_consolidated untouched untouched_refl untouched_trans);
    try apply (keeps_get_of_raw untouched untouched_refl);
    intros; repeat split.
Qed.

(** X2.  The classification loop, however it ends, only appends to the
    consolidated queue: what was queued stays, in its order, and what
    follows are the events pushed, without empty moments between them. *)
Theorem consolidated_only_appends (w : World) :
  exists l,
    __consolidated_queue (final_world (__consolidated w))
    = __consolidated_queue w ++ map Some l.
Proof.
  apply (keeps_consolidated grown grown_refl grown_trans).
  - apply (keeps_get_of_raw grown grown_refl). intros q w0.
    now apply grown_same.
  - intros n w0. now apply grown_same.
  - intros c w0. exists [c]. reflexivity.
  - intros t w0. now apply grown_same.
Qed.

Lemma knob_turned_at_most_one e w :
  exists l,
    grown_by l w (final_world (__knob_turned e w)) /\ (length l <= 1)%nat.
Proof.
  destruct (event_time_in_ms e) as [exn|T] eqn:stamp.
  - exists []. unfold __knob_turned, bind, lift. rewrite stamp. cbn.
    split; [symmetry; apply app_nil_r|lia].
  - rewrite (knob_turned_eq _ _ _ stamp).
    destruct (number_sub (Int T) (__turn_delay w)) as [exn|gap];
      [exists []; split; [symmetry; apply app_nil_r|cbn; lia]|].
    destruct (number_gt gap (__time_of_last_turn w)).
    + eexists [_]. split; [reflexivity|cbn; lia].
    + exists []. split; [symmetry; apply app_nil_r|cbn; lia].
Qed.

Lemma grown_by_popped l w w1 w' :
  popped w w1 -> grown_by l w1 w' -> grown_by l w w'.
Proof.
  unfold grown_by. intros P H.
  now rewrite H, (popped_consolidated_queue _ _ P).
Qed.

Lemma grown_by_nil w w' : popped w w' -> grown_by [] w w'.
Proof.
  unfold grown_by. intro P. rewrite (popped_consolidated_queue _ _ P).
  symmetry. apply app_nil_r.
Qed.

(** X3.  However a call of [__button_press] ends, by returning, by an
    exception or still waiting for the raw queue, it has appended at most
    one event to the consolidated queue and removed none. *)
Theorem button_press_at_most_one_any_end (time_pressed : Z) (w : World) :
  exists l,
    __consolidated_queue (final_world (__button_press time_pressed w))
    = __consolidated_queue w ++ map Some l /\
    (length l <= 1)%nat.
Proof.
  change (exists l,
             grown_by l w (final_world (__button_press time_pressed w)) /\
             (length l <= 1)%nat).
  pose proof (keeps_get_of_raw popped popped_refl
                (fun q w0 => eq_refl : popped w0 (with_raw_queue q w0)))
    as Praw.
  pose proof (fun n w0 => eq_refl : popped w0 (with_ticks n w0)) as Ptick.
  unfold __button_press. rewrite final_bind.
  pose proof (keeps_race popped popped_refl popped_trans Praw Ptick
                time_pressed w) as Hr.
  destruct (__button_press_race time_pressed w) as [r w1|e w1|w1];
    cbn in Hr;
    [|exists []; split; [apply grown_by_nil; exact Hr|cbn; lia] ..].
  unfold __button_press_resolve. destruct (number_le (snd r) 0).
  - rewrite (bind_Returned (consolidated_queue_put LONG_CLICK) _ w1 tt
               (pushed LONG_CLICK w1) eq_refl).
    pose proof (keeps_long_tail popped popped_refl popped_trans Praw
                  (pushed LONG_CLICK w1)) as Ht.
    exists [LONG_CLICK]. split; [|cbn; lia].
    apply (grown_by_popped _ _ _ _ Hr). unfold grown_by.
    rewrite (popped_consolidated_queue _ _ Ht). reflexivity.
  - rewrite (bind_Returned (gets __double_click_time) _ w1
               (__double_click_time w1) w1 eq_refl).
    rewrite final_bind.
    pose proof (keeps_short_pops popped popped_refl popped_trans Praw
                  (__double_click_time w1) w1) as Hs.
    destruct (try_except_Empty _ _ w1) as [ev wb|e wb|wb]; cbn in Hs;
      [|exists []; split;
        [apply grown_by_nil; exact (popped_trans _ _ _ Hr Hs)|cbn; lia] ..].
    pose proof (popped_trans _ _ _ Hr Hs) as Hb.
    destruct ev as [e|].
    + destruct (code e =? BUTTON_PUSHED).
      * exists [DOUBLE_CLICK]. split; [|cbn; lia].
        apply (grown_by_popped _ _ _ _ Hb). reflexivity.
      * destruct (knob_turned_at_most_one e wb) as (l & Hl & Hlen).
        exists l. split; [exact (grown_by_popped _ _ _ _ Hb Hl)|exact Hlen].
    + exists [SINGLE_CLICK]. split; [|cbn; lia].
      apply (grown_by_popped _ _ _ _ Hb). reflexivity.
Qed.

(** ** The classification loop *)

Lemma behind_refl w : behind w w.
Proof. now exists []. Qed.

Lemma behind_trans w1 w2 w3 : behind w1 w2 -> behind w2 w3 -> behind w1 w3.
Proof.
  intros [p1 H1] [p2 H2]. exists (p1 ++ p2).
  rewrite H1, H2. apply app_assoc.
Qed.

Lemma behind_same w w' : __raw_queue w' = __raw_queue w -> behind w w'.
Proof. intro H. exists []. now rewrite H. Qed.

Lemma behind_length w w' :
  behind w w' -> (length (__raw_queue w') <= length (__raw_queue w))%nat.
Proof. intros [pre ->]. rewrite length_app. lia. Qed.

Lemma behind_get block timeout : keeps behind (raw_queue_get block timeout).
Proof.
  intro w. unfold raw_queue_get.
  destruct (Queue.get block timeout (__raw_queue w)) as [a q|q| |q] eqn:G;
    cbn.
  - destruct (get_Item _ _ _ _ _ G) as [pre H].
    exists (pre ++ [Some a]). rewrite H, <- app_assoc. reflexivity.
  - exact (get_Empty _ _ _ _ G).
  - apply behind_refl.
  - assert (E : q = []).
    { unfold Queue.get in G. destruct (negb block).
      - destruct (__raw_queue w) as [|[]]; discriminate.
      - destruct timeout as [secs|]; [|exact (wait_Waiting _ _ G)].
        destruct (Qlt_bool secs 0); [discriminate|].
        destruct (__raw_queue w) as [|[]]; try discriminate.
        now injection G. }
    subst q. exists (__raw_queue w). cbn. now rewrite app_nil_r.
Qed.

Lemma behind_iteration : keeps behind __consolidated_iteration.
Proof.
  apply (keeps_iteration behind behind_refl behind_trans behind_get);
    intros; now apply behind_same.
Qed.

Lemma untouched_iteration : keeps untouched __consolidated_iteration.
Proof.
  apply (keeps_iteration untouched untouched_refl untouched_trans);
    try apply (keeps_get_of_raw untouched untouched_refl);
    intros; repeat split.
Qed.

(** A turn of the loop says "again" whenever capture is running. *)
Lemma iteration_again w b w1 :
  __consolidated_iteration w = Returned b w1 ->
  __event_capture_running w = true -> b = true.
Proof.
  unfold __consolidated_iteration. intros H R.
  bind_inv H as running wa Hr. injection Hr as <- <-. rewrite R in H.
  cbn [negb] in H.
  bind_inv H as rd wb Hd. injection Hd as <- <-.
  bind_inv H as ev wc Hpop.
  destruct ev as [e|]; [|now injection H].
  bind_inv H as u wd Hdo. now injection H.
Qed.

(** A turn of the loop that says "again" has consumed an answer. *)
Lemma iteration_shorter w w1 :
  __consolidated_iteration w = Returned true w1 ->
  (length (__raw_queue w1) < length (__raw_queue w))%nat.
Proof.
  unfold __consolidated_iteration. intro H.
  bind_inv H as running wa Hr. injection Hr as <- <-.
  destruct (negb (__event_capture_running w)); [discriminate|].
  bind_inv H as rd wb Hd. injection Hd as <- <-.
  bind_inv H as ev wc Hpop.
  assert (Hlt : (length (__raw_queue wc) < length (__raw_queue w))%nat).
  { unfold try_except_Empty, bind in Hpop.
    destruct (raw_queue_get true (__read_delay w) w) as [a w'|[] w'|w']
      eqn:G; try discriminate; injection Hpop as <- <-.
    - exact (raw_queue_get_shorter _ _ _ _ _ G).
    - unfold raw_queue_get, Queue.get in G. cbn [negb] in G.
      destruct (__read_delay w) as [secs|].
      + destruct (Qlt_bool secs 0); [discriminate|].
        destruct (__raw_queue w) as [|[]]; try discriminate.
        injection G as <-. cbn. lia.
      + destruct (wait_cases (__raw_queue w)) as [(a & q' & E)|E];
          rewrite E in G; discriminate. }
  destruct ev as [e|]; [|inversion H; subst; exact Hlt].
  bind_inv H as u wd Hdo.
  assert (E : w1 = wd) by (inversion H; reflexivity). subst w1.
  assert (Hb : behind wc wd).
  { destruct (code e =? KNOB_TURNED).
    - pose proof (keeps_knob_turned behind behind_refl behind_trans) as K.
      specialize (K ltac:(intros; now apply behind_same)
                    ltac:(intros; now apply behind_same)
                    ltac:(intros; now apply behind_same) e wc).
      now rewrite Hdo in K.
    - destruct (code e =? BUTTON_PUSHED);
        [|injection Hdo as _ <-; apply behind_refl].
      destruct (value e =? POSITIVE);
        [|injection Hdo as _ <-; apply behind_refl].
      pose proof (keeps_bind behind behind_trans __get_time_in_ms
                    (fun now => __button_press now)) as K.
      specialize (K ltac:(intro; now apply behind_same)).
      specialize (K (fun now =>
                       keeps_button_press behind behind_refl behind_trans
                         behind_get
                         ltac:(intros; now apply behind_same)
                         ltac:(intros; now apply behind_same)
                         ltac:(intros; now apply behind_same) now) wc).
      now rewrite Hdo in K. }
  apply behind_length in Hb. lia.
Qed.

Lemma iteration_Pending w w1 :
  __consolidated_iteration w = Pending w1 -> __raw_queue w1 = [].
Proof.
  unfold __consolidated_iteration. intro H.
  apply bind_Pending_inv in H.
  destruct H as [H|(running & wa & _ & H)]; [discriminate|].
  destruct (negb running); [discriminate|].
  apply bind_Pending_inv in H.
  destruct H as [H|(rd & wb & _ & H)]; [discriminate|].
  apply bind_Pending_inv in H. destruct H as [H|(ev & wc & _ & H)].
  - unfold try_except_Empty, bind in H.
    destruct (raw_queue_get true rd wb) as [a w'|[] w'|w'] eqn:G;
      try discriminate.
    injection H as <-. exact (raw_queue_get_Pending _ _ _ _ G).
  - destruct ev as [e|]; [|discriminate].
    apply bind_Pending_inv in H.
    destruct H as [H|(u & wd & _ & H)]; [|discriminate].
    destruct (code e =? KNOB_TURNED);
      [destruct (knob_turned_not_Pending _ _ _ H)|].
    destruct (code e =? BUTTON_PUSHED); [|discriminate].
    destruct (value e =? POSITIVE); [|discriminate].
    apply bind_Pending_inv in H.
    destruct H as [H|(now & we & _ & H)]; [discriminate|].
    exact (button_press_Pending _ _ _ H).
Qed.

(** The loop is left pending only by a raw queue that has no answer left,
    never by the bound on its turns. *)
Lemma consolidated_Pending w w1 :
  __consolidated w = Pending w1 -> __raw_queue w1 = [].
Proof.
  unfold __consolidated, bind at 1, pops_left, gets.
  assert (L : forall fuel w0,
             (length (__raw_queue w0) < fuel)%nat ->
             consolidated_loop fuel w0 = Pending w1 -> __raw_queue w1 = []).
  { induction fuel as [|fuel IH]; intros w0 Hfuel; [lia|].
    cbn [consolidated_loop]. intro H.
    apply bind_Pending_inv in H.
    destruct H as [H|(b & wa & Hit & H)];
      [exact (iteration_Pending _ _ H)|].
    destruct b; [|discriminate].
    apply (IH wa); [|exact H].
    apply iteration_shorter in Hit. lia. }
  apply L. lia.
Qed.

Lemma consolidated_loop_running fuel :
  forall w w',
    __event_capture_running w = true ->
    consolidated_loop fuel w <> Returned tt w'.
Proof.
  induction fuel as [|fuel IH]; intros w w' R; [discriminate|].
  cbn [consolidated_loop]. intro H.
  bind_inv H as b wa Hit.
  pose proof (iteration_again _ _ _ Hit R) as ->.
  apply (IH wa w'); [|exact H].
  pose proof (untouched_iteration w) as U. rewrite Hit in U.
  destruct U as (_ & _ & _ & _ & U & _). cbn in U. congruence.
Qed.

(** X4.  Run on its own, with no other thread clearing the flag
    meanwhile, [__consolidated] returns exactly when capture is not
    running as it is entered, and then it has changed nothing; nothing the
    loop does itself lets it return once it has found capture running. *)
Theorem consolidated_returns_iff (w w' : World) :
  __consolidated w = Returned tt w' <->
  __event_capture_running w = false /\ w' = w.
Proof.
  split.
  - intro H. destruct (__event_capture_running w) eqn:R.
    + unfold __consolidated in H. bind_inv H as fuel wa Hf.
      injection Hf as <- <-.
      destruct (consolidated_loop_running _ _ _ R H).
    + split; [reflexivity|].
      unfold __consolidated, bind, pops_left, gets in H.
      cbn [consolidated_loop] in H.
      unfold __consolidated_iteration, bind, gets in H. rewrite R in H.
      cbn in H. now injection H.
  - intros [R ->].
    unfold __consolidated, bind, pops_left, gets.
    cbn [consolidated_loop].
    unfold __consolidated_iteration, bind, gets. rewrite R. reflexivity.
Qed.

Lemma iteration_starved w :
  __event_capture_running w = true ->
  sleepable (__read_delay w) ->
  __consolidated_iteration (with_raw_queue [] w)
  = Pending (with_raw_queue [] w).
Proof.
  intros R D. unfold __consolidated_iteration, bind, gets.
  cbn [__event_capture_running with_raw_queue]. rewrite R. cbn [negb].
  unfold try_except_Empty, raw_queue_get, Queue.get. cbn.
  destruct (__read_delay w) as [secs|]; [|reflexivity].
  cbn in D. apply Qlt_bool_false_iff in D. rewrite D. reflexivity.
Qed.

Lemma iteration_silent_record w e q :
  __event_capture_running w = true ->
  sleepable (__read_delay w) ->
  silent w e ->
  __consolidated_iteration (with_raw_queue (Some e :: q) w)
  = Returned true (with_raw_queue q w).
Proof.
  intros R D S.
  rewrite (consolidated_iteration_dispatch e q
             (with_raw_queue (Some e :: q) w) R D eq_refl).
  change (with_raw_queue q (with_raw_queue (Some e :: q) w))
    with (with_raw_queue q w).
  destruct S as [(C & T & stamp & N)|[(C & V)|(C1 & C2)]].
  - rewrite C. change (KNOB_TURNED =? KNOB_TURNED) with true. cbv iota.
    rewrite (bind_Returned _ _ _ _ _
               (knob_turned_discards e T (with_raw_queue q w) stamp N)).
    reflexivity.
  - rewrite C. change (BUTTON_PUSHED =? KNOB_TURNED) with false.
    change (BUTTON_PUSHED =? BUTTON_PUSHED) with true. cbv iota.
    apply Z.eqb_neq in V. rewrite V. reflexivity.
  - apply Z.eqb_neq in C1, C2. rewrite C1, C2. reflexivity.
Qed.

Lemma bind_try_wait_skip {B C} (k1 : InputEvent -> M B) (h : M B)
  (k2 : B -> M C) q w :
  bind (try_except_Empty (bind (raw_queue_get true None) k1) h) k2
    (with_raw_queue (None :: q) w)
  = bind (try_except_Empty (bind (raw_queue_get true None) k1) h) k2
      (with_raw_queue q w).
Proof.
  unfold bind at 1. unfold try_except_Empty at 1.
  rewrite bind_wait_skip. reflexivity.
Qed.

Lemma iteration_empty_moment w q :
  __event_capture_running w = true ->
  sleepable (__read_delay w) ->
  (__consolidated_iteration (with_raw_queue (None :: q) w)
   = Returned true (with_raw_queue q w)) \/
  (__consolidated_iteration (with_raw_queue (None :: q) w)
   = __consolidated_iteration (with_raw_queue q w)).
Proof.
  intros R D.
  assert (E : forall q0,
             __consolidated_iteration (with_raw_queue q0 w)
             = (event <- try_except_Empty
                           (e <- raw_queue_get true (__read_delay w) ;;
                            ret (Some e))
                           (ret None) ;;
                match event with
                | None => ret true
                | Some event =>
                    (if code event =? KNOB_TURNED then __knob_turned event
                     else if code event =? BUTTON_PUSHED then
                       if value event =? POSITIVE then
                         now <- __get_time_in_ms ;;
                         __button_press now
                       else ret tt
                     else ret tt) ;;
                    ret true
                end) (with_raw_queue q0 w)).
  { intro q0. unfold __consolidated_iteration. unfold bind at 1. unfold gets.
    cbn [__event_capture_running with_raw_queue]. rewrite R. cbn [negb].
    unfold bind at 1. reflexivity. }
  rewrite !E.
  destruct (__read_delay w) as [secs|].
  - left. cbn in D. apply Qlt_bool_false_iff in D.
    unfold try_except_Empty, bind, raw_queue_get, Queue.get. cbn.
    rewrite D. reflexivity.
  - right. apply bind_try_wait_skip.
Qed.

Lemma consolidated_loop_silent w :
  __event_capture_running w = true ->
  sleepable (__read_delay w) ->
  forall q,
    Forall (silent_answer w) q ->
    forall fuel,
      (length q < fuel)%nat ->
      consolidated_loop fuel (with_raw_queue q w)
      = Pending (with_raw_queue [] w).
Proof.
  intros R D q Hall.
  induction Hall as [|a q Ha Hall IH]; intros fuel Hfuel;
    (destruct fuel as [|fuel]; [cbn in Hfuel; lia|]).
  - cbn [consolidated_loop]. unfold bind.
    rewrite (iteration_starved w R D). reflexivity.
  - destruct a as [e|].
    + cbn [consolidated_loop].
      rewrite (bind_Returned _ _ _ _ _ (iteration_silent_record w e q R D Ha)).
      apply IH. cbn in Hfuel. lia.
    + destruct (iteration_empty_moment w q R D) as [E|E].
      * cbn [consolidated_loop]. rewrite (bind_Returned _ _ _ _ _ E).
        apply IH. cbn in Hfuel. lia.
      * specialize (IH (S fuel) ltac:(cbn in Hfuel; lia)).
        cbn [consolidated_loop] in IH |- *.
        unfold bind at 1 in IH. unfold bind at 1. rewrite E. exact IH.
Qed.

(** X5.  Records that are button releases, records with a code other than
    knob and button, and knob turns inside the turn-delay window are taken
    from the raw queue by the classification loop without any effect: a
    running loop in front of nothing but such records, and of moments
    without a record, consumes them all and is left waiting, the
    consolidated queue and the time of the last turn as they were. *)
Theorem consolidated_silent_records (w : World) :
  __event_capture_running w = true ->
  sleepable (__read_delay w) ->
  Forall (silent_answer w) (__raw_queue w) ->
  __consolidated w = Pending (with_raw_queue [] w).
Proof.
  intros R D Hall. unfold __consolidated, bind at 1, pops_left, gets.
  rewrite (consumed_eta w) at 2.
  apply (consolidated_loop_silent w R D _ Hall). lia.
Qed.

Lemma consolidated_silent_records_witness :
  __consolidated quiet_world = Pending (with_raw_queue [] quiet_world).
Proof.
  apply consolidated_silent_records.
  - reflexivity.
  - exact I.
  - apply Forall_cons; [|apply Forall_cons; [|apply Forall_cons;
      [|apply Forall_cons; [exact I|apply Forall_nil]]]].
    + right. right. split; discriminate.
    + right. left. split; [reflexivity|discriminate].
    + left. split; [reflexivity|].
      exists 10200. split; [vm_compute; reflexivity|].
      eexists. split; vm_compute; reflexivity.
Defined.

(** ** Windows that are negative numbers *)

Lemma negative_timeout x :
  negative x -> exists secs, timeout_of x = Some secs /\ (secs < 0)%Q.
Proof.
  unfold negative, compare_int, timeout_of.
  destruct (number_value x) as [q|[|]|]; intro H; try discriminate.
  - exists q. split; [reflexivity|].
    apply Qlt_alt. now injection H.
  - exists (-1)%Q. split; reflexivity.
Qed.

Lemma timed_pop_negative x w :
  negative x -> timed_pop x w = Raised ValueError w.
Proof.
  intro H. destruct (negative_timeout x H) as (secs & Ht & Hs).
  apply Qlt_bool_iff in Hs.
  unfold timed_pop, try_except_Empty, bind, raw_queue_get, Queue.get.
  cbn [negb]. rewrite Ht, Hs. reflexivity.
Qed.

Lemma button_press_negative_long_press_time time_pressed w :
  negative (__long_press_time w) ->
  __button_press time_pressed w = Raised ValueError w.
Proof.
  intro H. unfold __button_press, __button_press_race, bind, gets.
  rewrite (timed_pop_negative _ _ H). reflexivity.
Qed.

(** X6.  With a long-press time below zero, the first button press that
    the running classification loop takes from the raw queue ends the loop
    with the ValueError of [Queue.get]: the press is consumed, the clock
    read once, nothing is pushed, and no later record is looked at. *)
Theorem consolidated_negative_long_press_time (w : World)
  (press : InputEvent) (q : Queue.t InputEvent) :
  __event_capture_running w = true ->
  sleepable (__read_delay w) ->
  negative (__long_press_time w) ->
  __raw_queue w = Some press :: q ->
  code press = BUTTON_PUSHED ->
  value press = POSITIVE ->
  __consolidated w
  = Raised ValueError (with_ticks (S (ticks w)) (with_raw_queue q w)).
Proof.
  intros R D L Hq C V.
  unfold __consolidated, bind at 1, pops_left, gets.
  cbn [consolidated_loop]. unfold bind at 1.
  rewrite (consolidated_iteration_dispatch press q w R D Hq).
  rewrite C, V. change (BUTTON_PUSHED =? KNOB_TURNED) with false.
  change (BUTTON_PUSHED =? BUTTON_PUSHED) with true.
  change (POSITIVE =? POSITIVE) with true. cbv iota.
  unfold bind at 1 2, __get_time_in_ms.
  rewrite button_press_negative_long_press_time by exact L.
  reflexivity.
Qed.

Lemma consolidated_negative_long_press_time_witness :
  __consolidated negative_window_world
  = Raised ValueError
      (with_ticks 1 (with_raw_queue [Some syn_report] negative_window_world)).
Proof.
  apply (consolidated_negative_long_press_time negative_window_world
           button_down [Some syn_report]);
    first [reflexivity|exact I].
Defined.

(** X7.  With a double-click time below zero, a press whose release is
    popped while the countdown of the long-press time, as the program
    computes it, is above zero ends [__button_press] with the ValueError
    of [Queue.get]: the record after the release has been dropped, no
    click is pushed. *)
Theorem short_press_negative_double_click_time (time_pressed : Z)
  (w : World) (answers : list (option InputEvent)) (release : InputEvent)
  (gap : list (option InputEvent)) (quirk : InputEvent)
  (later : Queue.t InputEvent) :
  __raw_queue w = answers ++ Some release :: gap ++ Some quirk :: later ->
  Forall no_edge answers ->
  code release = BUTTON_PUSHED ->
  Forall empty_moment gap ->
  poppable (__long_press_time w) ->
  (forall k, (1 <= k <= S (length answers))%nat ->
             counting time_pressed w k) ->
  (__double_click_time w < 0)%Q ->
  __button_press time_pressed w
  = Raised ValueError
      (with_ticks (ticks w + 2 * length answers + 1)
         (with_raw_queue later w)).
Proof.
  intros Hq Hall Hrel Hgap Hpop Hcount Hd.
  destruct (short_press_race time_pressed w answers release _
              Hq Hall Hrel Hpop Hcount) as (x & Hrace & Hle).
  apply Qlt_bool_iff in Hd.
  unfold __button_press. rewrite (bind_Returned _ _ _ _ _ Hrace).
  cbn [fst snd]. unfold __button_press_resolve. rewrite Hle.
  unfold bind at 1, gets. cbv iota beta.
  unfold bind at 1, try_except_Empty.
  change (with_ticks (ticks w + 2 * length answers + 1)
            (with_raw_queue (gap ++ Some quirk :: later) w))
    with (with_raw_queue (gap ++ Some quirk :: later)
            (with_ticks (ticks w + 2 * length answers + 1) w)).
  rewrite (untimed_pop_skips _ gap quirk later _ Hgap).
  unfold bind, raw_queue_get, Queue.get. cbn. rewrite Hd. reflexivity.
Qed.

Lemma short_press_negative_double_click_time_witness :
  __button_press 10000 negative_double_click_world
  = Raised ValueError
      (with_ticks 3 (with_raw_queue [None] negative_double_click_world)).
Proof.
  apply (short_press_negative_double_click_time 10000
           negative_double_click_world [Some syn_report] quick_up []
           syn_report [None]).
  - reflexivity.
  - repeat constructor.
  - reflexivity.
  - constructor.
  - eexists. split; [vm_compute; reflexivity|]. vm_compute. discriminate.
  - intros k Hk. cbn [length] in Hk.
    assert (E : k = 1%nat \/ k = 2%nat) by lia.
    destruct E as [-> | ->]; eexists; eexists;
      (split; [vm_compute; reflexivity|]);
      (split; [vm_compute; reflexivity|]); vm_compute; reflexivity.
  - vm_compute. reflexivity.
Defined.

(** X8.  A button edge popped by the race when the countdown, as the
    program computes it, has run out does not count as the release:
    LONG_CLICK is pushed and the classifier goes on popping, without
    timeout, up to and including the next button edge, so that the edge
    of the next press is consumed with everything before it. *)
Theorem late_edge_is_long_click (time_pressed : Z) (w : World)
  (answers : list (option InputEvent)) (release : InputEvent)
  (prefix : Queue.t InputEvent) (edge : InputEvent)
  (rest : Queue.t InputEvent) :
  __raw_queue w = answers ++ Some release :: prefix ++ Some edge :: rest ->
  Forall no_edge answers ->
  code release = BUTTON_PUSHED ->
  poppable (__long_press_time w) ->
  (forall k, (1 <= k <= length answers)%nat -> counting time_pressed w k) ->
  run_out time_pressed w (S (length answers)) ->
  Forall no_edge prefix ->
  code edge = BUTTON_PUSHED ->
  __button_press time_pressed w
  = Returned tt
      (with_raw_queue rest
         (pushed LONG_CLICK
            (with_ticks (ticks w + 2 * length answers + 1) w))).
Proof.
  intros Hq Hall _ Hpop Hcount Hout Hpre Hedge.
  destruct (long_press_race time_pressed w answers (Some release) _
              Hq Hall Hpop Hcount Hout) as (x & Hrace & Hle).
  unfold __button_press. rewrite (bind_Returned _ _ _ _ _ Hrace).
  cbn [fst snd]. rewrite (resolve_long _ _ _ Hle).
  assert (Hedge' : (code edge =? BUTTON_PUSHED) = true)
    by (rewrite Hedge; reflexivity).
  exact (long_tail_until_edge prefix edge rest Hpre Hedge'
           (pushed LONG_CLICK
              (with_ticks (ticks w + 2 * length answers + 1) w))).
Qed.

Lemma late_edge_is_long_click_witness :
  __button_press 10000 late_release_world
  = Returned tt
      (with_raw_queue [Some syn_report]
         (pushed LONG_CLICK (with_ticks 1 late_release_world))).
Proof.
  apply (late_edge_is_long_click 10000 late_release_world [] button_up
           [Some syn_report] button_down [Some syn_report]).
  - reflexivity.
  - constructor.
  - reflexivity.
  - eexists. split; [vm_compute; reflexivity|]. vm_compute. discriminate.
  - intros k Hk. cbn [length] in Hk. lia.
  - eexists. split; [vm_compute; reflexivity|]. vm_compute. reflexivity.
  - repeat constructor.
  - reflexivity.
Defined.

Lemma wait_no_items {A} (q : Queue.t A) :
  Forall (fun a => a = None) q -> Queue.wait q = Queue.Waiting [].
Proof.
  intro H. induction H as [|a q Ha H IH]; [reflexivity|].
  rewrite Ha. exact IH.
Qed.

(** X9.  After a release popped while the countdown of the long-press
    time, as the program computes it, is above zero, the classifier pops
    the record to drop without timeout: as long as no record at all
    follows the release, it is left waiting and SINGLE_CLICK is not
    pushed, however much time passes. *)
Theorem short_press_waits_for_a_record (time_pressed : Z) (w : World)
  (answers : list (option InputEvent)) (release : InputEvent)
  (later : Queue.t InputEvent) :
  __raw_queue w = answers ++ Some release :: later ->
  Forall no_edge answers ->
  code release = BUTTON_PUSHED ->
  poppable (__long_press_time w) ->
  (forall k, (1 <= k <= S (length answers))%nat ->
             counting time_pressed w k) ->
  Forall empty_moment later ->
  __button_press time_pressed w
  = Pending
      (with_ticks (ticks w + 2 * length answers + 1) (with_raw_queue [] w)).
Proof.
  intros Hq Hall Hrel Hpop Hcount Hnone.
  destruct (short_press_race time_pressed w answers release _
              Hq Hall Hrel Hpop Hcount) as (x & Hrace & Hle).
  unfold __button_press. rewrite (bind_Returned _ _ _ _ _ Hrace).
  cbn [fst snd]. unfold __button_press_resolve. rewrite Hle.
  unfold bind, gets, try_except_Empty, raw_queue_get, Queue.get.
  cbn [negb __raw_queue with_ticks with_raw_queue].
  rewrite (wait_no_items _ Hnone). reflexivity.
Qed.

Lemma short_press_waits_for_a_record_witness :
  __button_press 10000 lone_click_world
  = Pending (with_ticks 3 (with_raw_queue [] lone_click_world)).
Proof.
  apply (short_press_waits_for_a_record 10000 lone_click_world
           [Some syn_report] quick_up [None; None]).
  - reflexivity.
  - repeat constructor.
  - reflexivity.
  - eexists. split; [vm_compute; reflexivity|]. vm_compute. discriminate.
  - intros k Hk. cbn [length] in Hk.
    assert (E : k = 1%nat \/ k = 2%nat) by lia.
    destruct E as [-> | ->]; eexists; eexists;
      (split; [vm_compute; reflexivity|]);
      (split; [vm_compute; reflexivity|]); vm_compute; reflexivity.
  - repeat constructor.
Defined.

(** ** Two turns in a row *)

(** X10.  After a turn has been emitted, whether the next knob record is
    emitted depends on the wall-clock reading taken at that emission and
    not on the stamp of the record that was emitted: the record stamped
    [T2] is emitted exactly when [T2 - turnDelay], as the program
    evaluates it, exceeds that reading. *)
Theorem knob_turned_twice (e1 e2 : InputEvent) (T1 T2 : Z) (w : World) :
  event_time_in_ms e1 = inr T1 ->
  event_time_in_ms e2 = inr T2 ->
  outside_window T1 w ->
  (outside_window T2 (with_time_of_last_turn (clock w (ticks w)) w) ->
   exists c1 c2 w',
     (__knob_turned e1 ;; __knob_turned e2) w = Returned tt w' /\
     __consolidated_queue w'
     = __consolidated_queue w ++ [Some c1; Some c2] /\
     __time_of_last_turn w' = clock w (S (ticks w))) /\
  (inside_window T2 (with_time_of_last_turn (clock w (ticks w)) w) ->
   exists c1 w',
     (__knob_turned e1 ;; __knob_turned e2) w = Returned tt w' /\
     __consolidated_queue w' = __consolidated_queue w ++ [Some c1] /\
     __time_of_last_turn w' = clock w (ticks w)).
Proof.
  intros stamp1 stamp2 O1.
  pose proof (knob_turned_emits e1 T1 w stamp1 O1) as E1.
  split; intro H.
  - eexists. eexists. eexists.
    split; [rewrite (bind_Returned _ _ _ _ _ E1);
            apply (knob_turned_emits e2 T2 _ stamp2); exact H|].
    split; [|reflexivity].
    cbn. unfold Queue.put. rewrite <- app_assoc. reflexivity.
  - eexists. eexists.
    split; [rewrite (bind_Returned _ _ _ _ _ E1);
            apply (knob_turned_discards e2 T2 _ stamp2); exact H|].
    split; reflexivity.
Qed.

Lemma knob_turned_twice_witness :
  exists c1 w',
    (__knob_turned knob_right ;;
     __knob_turned (mkInputEvent 10 240000 KNOB_TURNED 1))
      (fresh [] [10250]) = Returned tt w' /\
    __consolidated_queue w' = [Some c1] /\
    __time_of_last_turn w' = 10250.
Proof.
  assert (s1 : event_time_in_ms knob_right = inr 10200)
    by (vm_compute; reflexivity).
  assert (s2 : event_time_in_ms (mkInputEvent 10 240000 KNOB_TURNED 1)
               = inr 10240)
    by (vm_compute; reflexivity).
  assert (O1 : outside_window 10200 (fresh [] [10250]))
    by (eexists; split; vm_compute; reflexivity).
  destruct (knob_turned_twice _ _ _ _ (fresh [] [10250]) s1 s2 O1)
    as [_ Hsup].
  apply Hsup. eexists. split; vm_compute; reflexivity.
Defined.

(** ** The LED over a session *)

Lemma clamp_in_range v : in_range (clamp v).
Proof. unfold in_range, clamp. lia. Qed.

Lemma led_ok_set v w :
  led_ok w -> led_ok (final_world (set_led_brightness v w)).
Proof.
  intros [_ Hu]. rewrite set_led_brightness_eq. split.
  - apply clamp_in_range.
  - cbn. apply Forall_app. split; [exact Hu|].
    constructor; [apply clamp_in_range|constructor].
Qed.

Lemma led_ok_trans_rel (w1 w2 w3 : World) :
  (led_ok w1 -> led_ok w2) -> (led_ok w2 -> led_ok w3) ->
  led_ok w1 -> led_ok w3.
Proof. auto. Qed.

Lemma led_ok_flash_loop k b d s :
  keeps (fun w w' => led_ok w -> led_ok w')
    (for_range k
       (set_led_brightness b ;; time_sleep d ;;
        set_led_brightness 0 ;; time_sleep s)).
Proof.
  assert (Hsleep : forall secs,
             keeps (fun w w' => led_ok w -> led_ok w') (time_sleep secs)).
  { intros secs w. unfold time_sleep. destruct (Qlt_bool secs 0); cbn; auto. }
  induction k as [|k IH]; cbn [for_range].
  - intros w H. exact H.
  - apply (keeps_bind _ led_ok_trans_rel); [|intro; exact IH].
    apply (keeps_bind _ led_ok_trans_rel); [intro w; apply led_ok_set|intro].
    apply (keeps_bind _ led_ok_trans_rel); [apply Hsleep|intro].
    apply (keeps_bind _ led_ok_trans_rel); [intro w; apply led_ok_set|intro].
    apply Hsleep.
Qed.

Lemma led_ok_flash n b d s w :
  led_ok w -> led_ok (final_world (flash_led n b d s w)).
Proof.
  intro H. pose proof (proj1 H) as Hr. unfold flash_led.
  rewrite (bind_Returned (gets __led_brightness) _ w (__led_brightness w) w
             eq_refl).
  revert H.
  apply (keeps_bind (fun w0 w' => led_ok w0 -> led_ok w') led_ok_trans_rel).
  - apply led_ok_flash_loop.
  - intros _ w0 [_ Hu]. split; [exact Hr|exact Hu].
Qed.

Lemma led_ok_untouched w w' : untouched w w' -> led_ok w -> led_ok w'.
Proof.
  intros (_ & _ & Hu & Hl & _) [H1 H2]. unfold led_ok.
  rewrite Hu, Hl. now split.
Qed.

(** However [stop] ends, it has done no more than clear the running flag
    and wait for the threads. *)
Lemma stop_final w :
  exists later,
    final_world (stop w)
    = with_joins later (with_event_capture_running false w).
Proof.
  unfold stop, bind, gets, modify, thread_join.
  destruct (__event_capture_running w) eqn:R; cbn.
  - destruct (__consolidated_thread w) as [t|]; cbn.
    + destruct (joins w) as [|[|] later]; cbn;
        [eexists; reflexivity| |eexists; reflexivity].
      destruct (__raw_thread w) as [t'|]; cbn; [|eexists; reflexivity].
      destruct later as [|[|] later']; cbn; eexists; reflexivity.
    + destruct (__raw_thread w) as [t'|]; cbn; [|eexists; reflexivity].
      destruct (joins w) as [|[|] later]; cbn; eexists; reflexivity.
  - exists (joins w). destruct w; cbn in *. subst. reflexivity.
Qed.

Lemma led_ok_perform c w : led_ok w -> led_ok (perform c w).
Proof.
  destruct c; cbn [perform]; intro H;
    try (apply led_ok_set; exact H);
    try (apply led_ok_flash; exact H);
    try exact H.
  - destruct (stop_final w) as [later ->]. exact H.
  - unfold get_next, bind, gets, try_except_Empty.
    destruct (negb (__event_capture_running w)); [exact H|].
    destruct (__consolidated_thread w).
    + unfold consolidated_queue_get.
      destruct (Queue.get block timeout (__consolidated_queue w));
        exact H.
    + unfold raw_queue_get.
      destruct (Queue.get block timeout (__raw_queue w)); exact H.
  - exact (led_ok_untouched _ _ (untouched_iteration w) H).
Qed.

(** X11.  From construction on, whatever public methods are called, in
    whatever order and however each call ends, and whatever the
    classification loop does in between, the stored brightness and every
    value written to the device lie in [0,255]. *)
Theorem led_always_in_range (brightness : Z) (read_delay : option Q)
  (turn_delay long_press_time : Number) (double_click_time : Q)
  (raw : Queue.t InputEvent) (cons : Queue.t ConsolidatedEventCode)
  (global_led_brightness : Z) (wall_clock : nat -> Z)
  (joins_to_come : list bool) (calls : list Call) :
  led_ok
    (session calls
       (final_world
          (__init__ brightness read_delay turn_delay long_press_time
             double_click_time raw cons global_led_brightness wall_clock
             joins_to_come))).
Proof.
  assert (H0 : led_ok
                 (final_world
                    (__init__ brightness read_delay turn_delay
                       long_press_time double_click_time raw cons
                       global_led_brightness wall_clock joins_to_come))).
  { unfold __init__. unfold bind at 1. rewrite set_led_brightness_eq.
    cbn. split; [apply clamp_in_range|].
    constructor; [apply clamp_in_range|constructor]. }
  revert H0. generalize (final_world
                 (__init__ brightness read_delay turn_delay long_press_time
                    double_click_time raw cons global_led_brightness
                    wall_clock joins_to_come)).
  unfold session.
  induction calls as [|c calls IH]; intros w H; [exact H|].
  cbn [fold_left]. apply IH. apply led_ok_perform. exact H.
Qed.

(** X12.  [flash_led] with a count of zero or less does nothing at all:
    no write, no sleep, so that not even a negative duration is noticed. *)
Theorem flash_led_no_flashes (n : Z) (brightness : option Z)
  (duration sleep : option Q) (w : World) :
  n <= 0 ->
  flash_led (Some n) brightness duration sleep w = Returned tt w.
Proof.
  intro H. unfold flash_led, bind, gets.
  replace (Z.to_nat n) with 0%nat by lia.
  cbn. destruct w; reflexivity.
Qed.

Lemma flash_led_no_flashes_witness :
  flash_led (Some (-3)) (Some 200) (Some (-1)%Q) None (fresh [] [])
  = Returned tt (fresh [] []).
Proof. apply flash_led_no_flashes. lia. Defined.

(** X13.  A negative duration makes [flash_led] end with the error of
    [time.sleep] in the first flash: the flash brightness has been written
    and stored, and neither the device nor the stored brightness is put
    back.  With a negative pause the same happens after the first flash
    has been switched off: device and stored brightness are left at 0. *)
Theorem flash_led_negative_sleep (n b : Z) (d s : Q) (w : World) :
  0 < n ->
  ((d < 0)%Q ->
   flash_led (Some n) (Some b) (Some d) (Some s) w
   = Raised IOError
       (with_led_brightness (clamp b)
          (with_uinput (__uinput w ++ [clamp b]) w))) /\
  ((0 <= d)%Q -> (s < 0)%Q ->
   flash_led (Some n) (Some b) (Some d) (Some s) w
   = Raised IOError
       (with_led_brightness 0
          (with_uinput (__uinput w ++ [clamp b; 0]) w))).
Proof.
  intro Hn.
  destruct (Z.to_nat n) as [|k] eqn:E; [lia|].
  split.
  - intro Hd. apply Qlt_bool_iff in Hd.
    unfold flash_led, bind at 1 2, gets. rewrite E. cbn [for_range].
    unfold bind. rewrite set_led_brightness_eq.
    unfold time_sleep. rewrite Hd. reflexivity.
  - intros Hd Hs. apply Qlt_bool_false_iff in Hd. apply Qlt_bool_iff in Hs.
    unfold flash_led, bind at 1 2, gets. rewrite E. cbn [for_range].
    unfold bind. rewrite set_led_brightness_eq.
    unfold time_sleep. rewrite Hd. cbn [ret].
    rewrite set_led_brightness_eq, Hs. cbn.
    rewrite <- app_assoc. reflexivity.
Qed.

Lemma flash_led_negative_sleep_witness :
  flash_led (Some 2) (Some 200) (Some (-1)%Q) (Some (15 # 100)) (fresh [] [])
  = Raised IOError
      (with_led_brightness 200 (with_uinput [255; 200] (fresh [] []))) /\
  flash_led (Some 2) (Some 200) (Some (15 # 100)) (Some (-1)%Q) (fresh [] [])
  = Raised IOError
      (with_led_brightness 0 (with_uinput [255; 200; 0] (fresh [] []))).
Proof.
  destruct (flash_led_negative_sleep 2 200 (-1) (15 # 100) (fresh [] []))
    as [H1 _]; [lia|].
  destruct (flash_led_negative_sleep 2 200 (15 # 100) (-1) (fresh [] []))
    as [_ H2]; [lia|].
  split.
  - apply H1. reflexivity.
  - apply H2; [vm_compute; discriminate|reflexivity].
Defined.

(** ** Starting and stopping over a session *)

Lemma running_flash_led n b d s w :
  __event_capture_running (final_world (flash_led n b d s w))
  = __event_capture_running w.
Proof.
  set (R := fun w0 w' : World =>
              __event_capture_running w' = __event_capture_running w0).
  assert (Rt : forall w1 w2 w3, R w1 w2 -> R w2 w3 -> R w1 w3)
    by (unfold R; intros; congruence).
  assert (Hset : forall v, keeps R (set_led_brightness v))
    by (intros v w0; unfold R; rewrite set_led_brightness_eq; reflexivity).
  assert (Hsleep : forall secs, keeps R (time_sleep secs)).
  { intros secs w0. unfold R, time_sleep.
    destruct (Qlt_bool secs 0); reflexivity. }
  assert (Hloop : forall k b0 d0 s0,
             keeps R (for_range k
                        (set_led_brightness b0 ;; time_sleep d0 ;;
                         set_led_brightness 0 ;; time_sleep s0))).
  { induction k as [|k IH]; intros b0 d0 s0; cbn [for_range].
    - intro w0. reflexivity.
    - apply (keeps_bind R Rt); [|intro; apply IH].
      apply (keeps_bind R Rt); [apply Hset|intro].
      apply (keeps_bind R Rt); [apply Hsleep|intro].
      apply (keeps_bind R Rt); [apply Hset|intro]. apply Hsleep. }
  unfold flash_led.
  rewrite (bind_Returned (gets __led_brightness) _ w (__led_brightness w) w
             eq_refl).
  apply (keeps_bind R Rt); [apply Hloop|].
  intros _ w0. reflexivity.
Qed.

Lemma running_perform c w :
  __event_capture_running (perform c w)
  = runs_after (__event_capture_running w) [c].
Proof.
  destruct c; cbn [perform runs_after]; try reflexivity.
  - apply running_flash_led.
  - destruct (stop_final w) as [later ->]. reflexivity.
  - unfold get_next, bind, gets, try_except_Empty.
    destruct (negb (__event_capture_running w)); [reflexivity|].
    destruct (__consolidated_thread w).
    + unfold consolidated_queue_get.
      destruct (Queue.get block timeout (__consolidated_queue w));
        reflexivity.
    + unfold raw_queue_get.
      destruct (Queue.get block timeout (__raw_queue w)); reflexivity.
  - pose proof (untouched_iteration w) as (_ & _ & _ & _ & U & _).
    exact U.
Qed.

Lemma runs_after_app running calls1 calls2 :
  runs_after running (calls1 ++ calls2)
  = runs_after (runs_after running calls1) calls2.
Proof.
  revert running.
  induction calls1 as [|c calls1 IH]; intro running; [reflexivity|].
  destruct c; cbn; apply IH.
Qed.

Lemma running_session calls :
  forall w,
    __event_capture_running (session calls w)
    = runs_after (__event_capture_running w) calls.
Proof.
  unfold session.
  induction calls as [|c calls IH]; intro w; [reflexivity|].
  cbn [fold_left]. rewrite IH, running_perform.
  change (c :: calls) with ([c] ++ calls).
  now rewrite runs_after_app.
Qed.

(** X14.  Over any session, [get_next] raises CaptureNotStarted, leaving
    the world as it is, exactly when the last [start] or [stop] called
    before it was a [stop], or none was called on a handler not running;
    no other method and no turn of the classification loop changes that. *)
Theorem get_next_raises_iff_stopped (calls : list Call) (w : World)
  (block : bool) (timeout : option Q) :
  get_next block timeout (session calls w)
  = Raised CaptureNotStarted (session calls w)
  <-> runs_after (__event_capture_running w) calls = false.
Proof.
  rewrite <- running_session.
  generalize (session calls w). intro w'.
  unfold get_next, bind, gets, try_except_Empty.
  destruct (__event_capture_running w'); cbn [negb].
  - split; [|discriminate]. intro H. exfalso.
    destruct (__consolidated_thread w').
    + unfold consolidated_queue_get in H.
      destruct (Queue.get block timeout (__consolidated_queue w'));
        discriminate.
    + unfold raw_queue_get in H.
      destruct (Queue.get block timeout (__raw_queue w')); discriminate.
  - split; reflexivity.
Qed.

(** ** Finding the device *)

Example find_device_default :
  find_device None (plain_fs "/dev/input//"%string input_entries)
  = (inr (Some (mkInputDevice "/dev/input//event2"%string
                  "Griffin PowerMate"%string)),
     [permission_message "/dev/input//"%string "event1"%string]).
Proof. vm_compute. reflexivity. Qed.

Lemma get_after s b t :
  String.get (String.length s) (String.append s (String.String b t))
  = Some b.
Proof. induction s as [|a s IH]; cbn; [reflexivity|exact IH]. Qed.

Lemma length_ending_in s b c :
  String.length (ending_in s b c) = (String.length s + 2)%nat.
Proof.
  unfold ending_in. induction s as [|a s IH]; cbn; [reflexivity|].
  now rewrite IH.
Qed.

Lemma second_to_last_ending_in s b c :
  second_to_last (ending_in s b c) = inr b.
Proof.
  unfold second_to_last. rewrite length_ending_in.
  replace (String.length s + 2 <? 2)%nat with false
    by (symmetry; apply Nat.ltb_ge; lia).
  replace (String.length s + 2 - 2)%nat with (String.length s) by lia.
  unfold ending_in. now rewrite get_after.
Qed.

Lemma second_to_last_short s :
  (String.length s < 2)%nat -> second_to_last s = inl IndexError.
Proof.
  intro H. unfold second_to_last.
  apply Nat.ltb_lt in H. now rewrite H.
Qed.

Lemma scan_past fs dir dev rest :
  ~ is_powermate fs dir dev ->
  scan fs dir (dev :: rest)
  = (fst (scan fs dir rest),
     (if unopenable fs dir dev then [permission_message dir dev] else [])
     ++ snd (scan fs dir rest)).
Proof.
  intro N. cbn [scan]. unfold unopenable.
  destruct (str_find "event"%string dev =? 0) eqn:E;
    [|now destruct (scan fs dir rest)].
  destruct (device_name fs (String.append dir dev)) as [reported|] eqn:D;
    [|now destruct (scan fs dir rest)].
  destruct (0 <=? str_find "Griffin PowerMate"%string reported) eqn:G;
    [|now destruct (scan fs dir rest)].
  exfalso. apply N. split; [now apply Z.eqb_eq|].
  exists reported. split; [exact D|now apply Z.leb_le].
Qed.

Lemma scan_first_match fs dir before hit after reported :
  Forall (fun dev => ~ is_powermate fs dir dev) before ->
  str_find "event"%string hit = 0 ->
  device_name fs (String.append dir hit) = Some reported ->
  0 <= str_find "Griffin PowerMate"%string reported ->
  scan fs dir (before ++ hit :: after)
  = (Some (mkInputDevice (String.append dir hit) reported),
     map (permission_message dir) (filter (unopenable fs dir) before)).
Proof.
  intros Hall E D G.
  induction Hall as [|dev before N Hall IH].
  - cbn. apply Z.eqb_eq in E. rewrite E, D.
    apply Z.leb_le in G. rewrite G. reflexivity.
  - cbn [app]. rewrite (scan_past _ _ _ _ N), IH. cbn [fst snd filter].
    destruct (unopenable fs dir dev); reflexivity.
Qed.

Lemma scan_no_match fs dir listing :
  Forall (fun dev => ~ is_powermate fs dir dev) listing ->
  scan fs dir listing
  = (None, map (permission_message dir) (filter (unopenable fs dir) listing)).
Proof.
  intro Hall. induction Hall as [|dev listing N Hall IH]; [reflexivity|].
  rewrite (scan_past _ _ _ _ N), IH. cbn [fst snd filter].
  destruct (unopenable fs dir dev); reflexivity.
Qed.

(** Without the udev link, [find_device] is the scan of the listing of
    the directory. *)
Lemma find_device_scans fs s b c listing :
  path_exists fs "/dev/GriffinPowermate"%string = false ->
  listdir fs (scanned_dir (ending_in s b c) b) = Some listing ->
  find_device (Some (ending_in s b c)) fs
  = (inr (fst (scan fs (scanned_dir (ending_in s b c) b) listing)),
     snd (scan fs (scanned_dir (ending_in s b c) b) listing)).
Proof.
  intros Hlink Hlist. unfold find_device. rewrite Hlink.
  rewrite second_to_last_ending_in.
  fold (scanned_dir (ending_in s b c) b). rewrite Hlist.
  now destruct (scan fs (scanned_dir (ending_in s b c) b) listing).
Qed.

(** X15.  Without the udev link, [find_device] lists the directory named
    by [dev_dir], to which it appends a slash unless the second-to-last
    character of [dev_dir] is one, whatever the last character is.  It
    returns the first entry of the listing, in its order, whose name
    starts with "event", that opens, and that reports a name containing
    "Griffin PowerMate", opened at that directory followed by the entry;
    it returns [None] when there is no such entry.  It prints one line for
    each entry before the one returned that starts with "event" and does
    not open, and does not touch the entries after it. *)
Theorem find_device_first_powermate (fs : FileSystem) (s : String.string)
  (b c : Ascii.ascii) (listing : list String.string) :
  path_exists fs "/dev/GriffinPowermate"%string = false ->
  listdir fs (scanned_dir (ending_in s b c) b) = Some listing ->
  let dir := scanned_dir (ending_in s b c) b in
  (forall before hit after,
      listing = before ++ hit :: after ->
      Forall (fun dev => ~ is_powermate fs dir dev) before ->
      is_powermate fs dir hit ->
      exists reported,
        device_name fs (String.append dir hit) = Some reported /\
        find_device (Some (ending_in s b c)) fs
        = (inr (Some (mkInputDevice (String.append dir hit) reported)),
           map (permission_message dir)
             (filter (unopenable fs dir) before))) /\
  (Forall (fun dev => ~ is_powermate fs dir dev) listing ->
   find_device (Some (ending_in s b c)) fs
   = (inr None,
      map (permission_message dir) (filter (unopenable fs dir) listing))).
Proof.
  intros Hlink Hlist dir.
  pose proof (find_device_scans _ _ _ _ _ Hlink Hlist) as E.
  fold dir in E. split.
  - intros before hit after -> Hall (Hev & reported & D & G).
    exists reported. split; [exact D|].
    now rewrite E, (scan_first_match _ _ _ _ _ _ Hall Hev D G).
  - intro Hall. now rewrite E, (scan_no_match _ _ _ Hall).
Qed.

Lemma find_device_first_powermate_witness :
  find_device (Some "/dev/input/"%string)
    (plain_fs "/dev/input//"%string input_entries)
  = (inr (Some (mkInputDevice "/dev/input//event2"%string
                  "Griffin PowerMate"%string)),
     [permission_message "/dev/input//"%string "event1"%string]).
Proof.
  destruct (find_device_first_powermate
              (plain_fs "/dev/input//"%string input_entries)
              "/dev/inpu"%string "t"%char "/"%char
              ["mouse0"%string; "event0"%string; "event1"%string;
               "event2"%string; "event3"%string] eq_refl eq_refl)
    as [Hfirst _].
  destruct (Hfirst ["mouse0"%string; "event0"%string; "event1"%string]
              "event2"%string ["event3"%string] eq_refl)
    as (reported & Hname & Hfound).
  - apply Forall_cons; [|apply Forall_cons; [|apply Forall_cons;
      [|apply Forall_nil]]].
    + intros [H _]. vm_compute in H. discriminate.
    + intros (_ & reported & Hname & H). vm_compute in Hname.
      injection Hname as <-. vm_compute in H. apply H. reflexivity.
    + intros (_ & reported & Hname & _). vm_compute in Hname. discriminate.
  - split; [reflexivity|].
    exists "Griffin PowerMate"%string. split; [reflexivity|].
    vm_compute. discriminate.
  - vm_compute in Hname. injection Hname as <-. exact Hfound.
Defined.

(** X16.  When the udev link [/dev/GriffinPowermate] exists, [dev_dir] is
    not looked at and nothing is listed: the link is opened, and an
    OSError from opening it escapes.  When it does not exist, a [dev_dir]
    of fewer than two characters, the empty string among them, makes
    [find_device] raise IndexError. *)
Theorem find_device_link_or_short_dir (fs : FileSystem)
  (dev_dir : String.string) :
  (path_exists fs "/dev/GriffinPowermate"%string = true ->
   find_device (Some dev_dir) fs
   = (match device_name fs "/dev/GriffinPowermate"%string with
      | Some reported =>
          inr (Some (mkInputDevice "/dev/GriffinPowermate"%string reported))
      | None => inl OSError
      end, [])) /\
  (path_exists fs "/dev/GriffinPowermate"%string = false ->
   (String.length dev_dir < 2)%nat ->
   find_device (Some dev_dir) fs = (inl IndexError, [])).
Proof.
  split.
  - intro H. unfold find_device. rewrite H.
    now destruct (device_name fs "/dev/GriffinPowermate"%string).
  - intros H L. unfold find_device.
    rewrite H, (second_to_last_short _ L). reflexivity.
Qed.

Lemma find_device_link_or_short_dir_witness :
  find_device (Some "."%string) (plain_fs "./"%string input_entries)
  = (inl IndexError, []).
Proof.
  apply (find_device_link_or_short_dir
           (plain_fs "./"%string input_entries) "."%string);
    [reflexivity|cbn; lia].
Defined.

(** X17.  The constructor makes no handler when [find_device] finds no
    device: without the udev link and with no entry of the listing that
    is a PowerMate, it ends with DeviceNotFound.  With such an entry it
    goes on with the first of them, and the handler it builds is not
    running, has no thread, has written the clamped brightness to the
    device once and stored it, and has 0 as the time of the last turn. *)
Theorem constructor_needs_a_device (brightness : Z) (read_delay : option Q)
  (turn_delay long_press_time : Number) (double_click_time : Q)
  (fs : FileSystem) (s : String.string) (b c : Ascii.ascii)
  (listing : list String.string)
  (raw : Queue.t InputEvent) (cons : Queue.t ConsolidatedEventCode)
  (global_led_brightness : Z) (wall_clock : nat -> Z)
  (joins_to_come : list bool) :
  path_exists fs "/dev/GriffinPowermate"%string = false ->
  listdir fs (scanned_dir (ending_in s b c) b) = Some listing ->
  let dir := scanned_dir (ending_in s b c) b in
  let construct :=
    PowerMateEventHandler brightness read_delay turn_delay long_press_time
      double_click_time (Some (ending_in s b c)) fs raw cons
      global_led_brightness wall_clock joins_to_come in
  (Forall (fun dev => ~ is_powermate fs dir dev) listing ->
   construct = DeviceNotFound) /\
  (forall before hit after,
      listing = before ++ hit :: after ->
      Forall (fun dev => ~ is_powermate fs dir dev) before ->
      is_powermate fs dir hit ->
      exists reported w,
        construct
        = Built (mkInputDevice (String.append dir hit) reported)
            (Returned tt w) /\
        __event_capture_running w = false /\
        __raw_thread w = None /\
        __consolidated_thread w = None /\
        __uinput w = [clamp brightness] /\
        __led_brightness w = clamp brightness /\
        __time_of_last_turn w = 0 /\
        __raw_queue w = raw /\
        __consolidated_queue w = cons).
Proof.
  intros Hlink Hlist dir construct.
  pose proof (find_device_scans _ _ _ _ _ Hlink Hlist) as E.
  fold dir in E. split.
  - intro Hall. unfold construct, PowerMateEventHandler.
    rewrite E, (scan_no_match _ _ _ Hall). reflexivity.
  - intros before hit after -> Hall (Hev & reported & D & G).
    exists reported. eexists.
    unfold construct, PowerMateEventHandler.
    rewrite E, (scan_first_match _ _ _ _ _ _ Hall Hev D G). cbn [fst].
    unfold __init__. unfold bind at 1. rewrite set_led_brightness_eq.
    split; [reflexivity|]. repeat split.
Qed.

Lemma constructor_needs_a_device_witness :
  PowerMateEventHandler 300 None (Int 0) (Float (decimal 1 2)) (3 # 10)
    (Some "/dev/input/"%string)
    (plain_fs "/dev/input//"%string
       [("mouse0"%string, Some "Some Mouse"%string);
        ("event1"%string, None)])
    [] [] 100 (wall []) []
  = DeviceNotFound.
Proof.
  destruct (constructor_needs_a_device 300 None (Int 0)
              (Float (decimal 1 2)) (3 # 10)
              (plain_fs "/dev/input//"%string
                 [("mouse0"%string, Some "Some Mouse"%string);
                  ("event1"%string, None)])
              "/dev/inpu"%string "t"%char "/"%char
              ["mouse0"%string; "event1"%string] [] [] 100 (wall []) []
              eq_refl eq_refl) as [Hnone _].
  apply Hnone.
  apply Forall_cons; [|apply Forall_cons; [|apply Forall_nil]].
  - intros [H _]. vm_compute in H. discriminate.
  - intros (_ & reported & Hname & _). vm_compute in Hname. discriminate.
Defined.

(** ** The capture thread *)

Lemma quot_le_m1 n p : 0 < p -> n <= - p -> Z.quot n p <= -1.
Proof.
  intros Hp Hn.
  replace n with (- (- n)) by lia.
  rewrite Z.quot_opp_l by lia.
  rewrite Z.quot_div_nonneg by lia.
  assert (1 <= (- n) / p) by (apply Z.div_le_lower_bound; lia). lia.
Qed.

Lemma quot_small_neg n p : 0 < p -> - p < n -> n <= 0 -> Z.quot n p = 0.
Proof.
  intros Hp L U. replace n with (- (- n)) by lia.
  rewrite Z.quot_opp_l by lia. rewrite Z.quot_small by lia. reflexivity.
Qed.

Lemma Qtruncate_le_m1 x : (x <= inject_Z (-1))%Q -> Qtruncate x <= -1.
Proof.
  destruct x as [n p]. unfold Qle, Qtruncate. cbn. intro H.
  apply quot_le_m1; lia.
Qed.

Lemma Qtruncate_nonneg x : (0 <= x)%Q -> 0 <= Qtruncate x.
Proof.
  destruct x as [n p]. unfold Qle, Qtruncate. cbn. intro H.
  apply Z.quot_pos; lia.
Qed.

(** [select] refuses a timeout of minus a microsecond or less. *)
Lemma select_refuses_negative secs :
  (secs <= - (1 # 1000000))%Q -> select_refuses (Some secs) = true.
Proof.
  intro H. unfold select_refuses.
  destruct (Qlt_bool (inject_Z (2 ^ 63)) secs); [reflexivity|].
  cbv zeta. apply orb_true_iff.
  destruct (Z_le_gt_dec (Qnum secs) (- Zpos (Qden secs))) as [L|G].
  - left. apply Z.ltb_lt.
    assert (Z.quot (Qnum secs) (Zpos (Qden secs)) <= -1)
      by (apply quot_le_m1; lia).
    unfold Qtruncate. lia.
  - right. apply Z.ltb_lt.
    assert (N : Qnum secs <= 0).
    { destruct secs as [n p]. unfold Qle in H. cbn in *. lia. }
    assert (E : Qtruncate secs = 0).
    { unfold Qtruncate. apply quot_small_neg; lia. }
    rewrite E.
    assert (Qtruncate ((secs - inject_Z 0) * inject_Z 1000000)%Q <= -1);
      [|lia].
    apply Qtruncate_le_m1.
    destruct secs as [n p]. unfold Qle in *. cbn in *. lia.
Qed.

(** [select] takes every timeout from zero to 2^63 seconds. *)
Lemma select_takes_nonnegative secs :
  (0 <= secs)%Q -> (secs <= inject_Z (2 ^ 63))%Q ->
  select_refuses (Some secs) = false.
Proof.
  intros L U. unfold select_refuses.
  destruct (Qlt_bool (inject_Z (2 ^ 63)) secs) eqn:E.
  { apply Qlt_bool_iff in E. exfalso. exact (Qlt_not_le _ _ E U). }
  cbv zeta. apply orb_false_iff.
  pose proof (Qtruncate_nonneg secs L) as T.
  split; apply Z.ltb_ge; [exact T|].
  apply Qtruncate_nonneg.
  destruct secs as [n p]. unfold Qtruncate in *. unfold Qle in *. cbn in *.
  assert (n - Z.pos p * Z.quot n (Z.pos p) = Z.rem n (Z.pos p)).
  { pose proof (Z.quot_rem' n (Z.pos p)). lia. }
  assert (0 <= Z.rem n (Z.pos p)) by (apply Z.rem_nonneg; lia).
  nia.
Qed.

Lemma time_sleep_half w : time_sleep (1 # 2) w = Returned tt w.
Proof. reflexivity. Qed.

Lemma raw_loop_connected (w : World) dev polls printed :
  __event_capture_running w = true ->
  select_refuses (__read_delay w) = false ->
  forall answers,
    Forall connected answers ->
    forall fuel q,
      (length answers < fuel)%nat ->
      raw_loop fuel (mkRig (with_raw_queue q w) dev answers polls printed)
      = RawPending
          (mkRig (with_raw_queue (q ++ map Some (records answers)) w)
             dev [] polls printed).
Proof.
  intros R S answers Hall.
  induction Hall as [|a answers Ha Hall IH]; intros fuel q Hfuel;
    (destruct fuel as [|fuel]; [cbn in Hfuel; lia|]);
    cbn [raw_loop]; unfold __raw_iteration;
    cbn [world device __dev files stderr __event_capture_running
         __read_delay with_raw_queue];
    rewrite R, S; cbn [negb].
  - cbn. now rewrite app_nil_r.
  - destruct a as [|[e|]| |]; try contradiction; cbn [records].
    + apply IH. cbn in Hfuel. lia.
    + change (with_raw_queue (Queue.put e (__raw_queue (with_raw_queue q w)))
                (with_raw_queue q w))
        with (with_raw_queue (q ++ [Some e]) w).
      rewrite IH by (cbn in Hfuel; lia).
      cbn [map]. now rewrite <- app_assoc.
    + apply IH. cbn in Hfuel. lia.
Qed.

(** X18.  While the device is there, the capture loop puts every record
    that [read_one] returns on the raw queue, at its end and in the order
    read, and nothing else: timeouts of [select] and reads that return
    [None] leave the queue as it is.  What was queued before stays in
    front. *)
Theorem raw_queues_in_order (r : Rig) :
  __event_capture_running (world r) = true ->
  select_refuses (__read_delay (world r)) = false ->
  Forall connected (device r) ->
  __raw r
  = RawPending
      (mkRig
         (with_raw_queue
            (__raw_queue (world r) ++ map Some (records (device r)))
            (world r))
         (__dev r) [] (files r) (stderr r)).
Proof.
  intros R S Hall. unfold __raw.
  destruct r as [w dev answers polls printed]. cbn [world device] in *.
  cbn [__dev files stderr].
  rewrite (consumed_eta w) at 1.
  apply (raw_loop_connected w dev polls printed R S answers Hall). lia.
Qed.

Lemma raw_queues_in_order_witness :
  __raw (mkRig (with_event_capture_running true (fresh [Some syn_report] []))
           None
           [ReadOne (Some knob_right); NotReadable; ReadOne None;
            ReadOne (Some quick_up)]
           [] [])
  = RawPending
      (mkRig
         (with_raw_queue [Some syn_report; Some knob_right; Some quick_up]
            (with_event_capture_running true (fresh [Some syn_report] [])))
         None [] [] []).
Proof.
  apply (raw_queues_in_order
           (mkRig
              (with_event_capture_running true (fresh [Some syn_report] []))
              None
              [ReadOne (Some knob_right); NotReadable; ReadOne None;
               ReadOne (Some quick_up)]
              [] [])).
  - reflexivity.
  - reflexivity.
  - repeat (apply Forall_cons; [exact I|]). apply Forall_nil.
Defined.

Lemma reconnect_after_misses misses :
  Forall device_absent misses ->
  forall polls w dev printed answers,
    reconnect (misses ++ polls) w dev printed answers
    = match misses with
      | [] => reconnect polls w dev printed answers
      | _ :: _ =>
          reconnect polls w None (printed ++ printed_over misses) answers
      end.
Proof.
  intro Hall.
  induction Hall as [|fs misses Hfs Hall IH];
    intros polls w dev printed answers; [reflexivity|].
  cbn [app reconnect]. rewrite time_sleep_half.
  unfold device_absent in Hfs.
  destruct (find_device None fs) as [[e|[found|]] lines] eqn:F;
    cbn in Hfs; try discriminate.
  rewrite IH. unfold printed_over. cbn [map concat]. rewrite F. cbn [snd].
  destruct misses; [cbn; now rewrite app_nil_r|].
  now rewrite app_assoc.
Qed.

(** X19.  When [select] or [read_one] raises IOError, the capture loop
    polls [find_device()] until it finds a device: the polls that find
    none change nothing but what is printed, and at the first that finds
    one the loop holds that device and writes the stored brightness to it.
    For a stored brightness in [0,255] the handler is then as it was
    before the disconnect but for that one write: the stored brightness is
    unchanged, and no record has been queued or lost. *)
Theorem reconnect_restores_brightness (r : Rig)
  (answers : list DeviceAnswer) (misses : list FileSystem)
  (fs : FileSystem) (later : list FileSystem) (found : InputDevice) :
  __event_capture_running (world r) = true ->
  select_refuses (__read_delay (world r)) = false ->
  in_range (__led_brightness (world r)) ->
  device r = RaisesIOError :: answers ->
  files r = misses ++ fs :: later ->
  Forall device_absent misses ->
  fst (find_device None fs) = inr (Some found) ->
  __raw_iteration r
  = RawReturned true
      (mkRig
         (with_uinput
            (__uinput (world r) ++ [__led_brightness (world r)]) (world r))
         (Some found) answers later
         (stderr r ++ printed_over (misses ++ [fs]))).
Proof.
  intros R S Hled Hd Hf Hall Hfound.
  unfold __raw_iteration. rewrite R, S, Hd, Hf. cbn [negb].
  assert (Hset : set_led_brightness (__led_brightness (world r)) (world r)
                 = Returned tt
                     (with_uinput
                        (__uinput (world r) ++ [__led_brightness (world r)])
                        (world r))).
  { rewrite set_led_brightness_eq.
    replace (clamp (__led_brightness (world r)))
      with (__led_brightness (world r))
      by (unfold clamp, in_range in *; lia).
    reflexivity. }
  assert (Hhit : forall dev printed,
             reconnect (fs :: later) (world r) dev printed answers
             = RawReturned tt
                 (mkRig
                    (with_uinput
                       (__uinput (world r) ++ [__led_brightness (world r)])
                       (world r))
                    (Some found) answers later
                    (printed ++ snd (find_device None fs)))).
  { intros dev printed. cbn [reconnect]. rewrite time_sleep_half.
    destruct (find_device None fs) as [[e|[d|]] lines]; cbn in Hfound;
      try discriminate.
    injection Hfound as ->. rewrite Hset. reflexivity. }
  rewrite (reconnect_after_misses misses Hall).
  unfold printed_over. rewrite map_app, concat_app. cbn [map concat].
  rewrite app_nil_r.
  destruct misses as [|m misses]; rewrite Hhit; [reflexivity|].
  now rewrite app_assoc.
Qed.

Lemma reconnect_restores_brightness_witness :
  exists r',
    __raw_iteration unplugged_rig = RawReturned true r' /\
    __uinput (world r') = [255; 80; 80] /\
    __led_brightness (world r') = 80 /\
    __raw_queue (world r') = [] /\
    __dev r'
    = Some (mkInputDevice "/dev/input//event5"%string
              "Griffin PowerMate"%string) /\
    files r' = [].
Proof.
  eexists. split.
  - apply (reconnect_restores_brightness unplugged_rig
             [ReadOne (Some (mkInputEvent 20 0 KNOB_TURNED 1))]
             [plain_fs "/dev/input//"%string
                [("event0"%string, Some "AT Keyboard"%string)]]
             (plain_fs "/dev/input//"%string
                [("event0"%string, Some "AT Keyboard"%string);
                 ("event5"%string, Some "Griffin PowerMate"%string)])
             []
             (mkInputDevice "/dev/input//event5"%string
                "Griffin PowerMate"%string));
      try reflexivity.
    + vm_compute. split; discriminate.
    + apply Forall_cons; [vm_compute; reflexivity|apply Forall_nil].
  - repeat split.
Defined.

(** X20.  With a read delay of minus a microsecond or less both loops
    end on their first turn, before anything is read or consumed: [__raw]
    with the exception of [select], which its [except IOError] does not
    catch, and [__consolidated] with the ValueError of [Queue.get]. *)
Theorem negative_read_delay_ends_both_loops (r : Rig) (secs : Q) :
  __event_capture_running (world r) = true ->
  __read_delay (world r) = Some secs ->
  (secs <= - (1 # 1000000))%Q ->
  __raw r = RawRaised SelectError r /\
  __consolidated (world r) = Raised ValueError (world r).
Proof.
  intros R D Hle.
  assert (Hneg : Qlt_bool secs 0 = true).
  { apply Qlt_bool_iff. apply (Qle_lt_trans _ _ _ Hle). reflexivity. }
  split.
  - unfold __raw. cbn [raw_loop]. unfold __raw_iteration.
    rewrite R, D, (select_refuses_negative _ Hle). reflexivity.
  - unfold __consolidated, bind at 1, pops_left, gets.
    cbn [consolidated_loop].
    unfold __consolidated_iteration, bind, gets, try_except_Empty,
      raw_queue_get, Queue.get.
    cbv beta. rewrite R. cbn [negb]. cbv iota beta. rewrite D.
    cbv iota beta. rewrite Hneg. reflexivity.
Qed.

Lemma negative_read_delay_ends_both_loops_witness :
  __raw (mkRig (with_read_delay (Some (-1)%Q)
                  (with_event_capture_running true
                     (fresh [Some knob_right] [])))
           None [ReadOne (Some knob_right)] [] [])
  = RawRaised SelectError
      (mkRig (with_read_delay (Some (-1)%Q)
                (with_event_capture_running true
                   (fresh [Some knob_right] [])))
         None [ReadOne (Some knob_right)] [] []) /\
  __consolidated
    (with_read_delay (Some (-1)%Q)
       (with_event_capture_running true (fresh [Some knob_right] [])))
  = Raised ValueError
      (with_read_delay (Some (-1)%Q)
         (with_event_capture_running true (fresh [Some knob_right] []))).
Proof.
  apply (negative_read_delay_ends_both_loops
           (mkRig (with_read_delay (Some (-1)%Q)
                     (with_event_capture_running true
                        (fresh [Some knob_right] [])))
              None [ReadOne (Some knob_right)] [] [])
           (-1)%Q); first [reflexivity|unfold Qle; cbn; lia].
Defined.

(** X21.  An exception of [find_device()] while reconnecting is not
    caught: when, after polls that found nothing, the udev link is there
    but cannot be opened, or the input directory cannot be listed, the
    capture loop ends with that exception; nothing is written to any
    device and the handler is as it was. *)
Theorem reconnect_ends_on_find_error (r : Rig)
  (answers : list DeviceAnswer) (misses : list FileSystem)
  (fs : FileSystem) (later : list FileSystem) (e : FindError) :
  __event_capture_running (world r) = true ->
  select_refuses (__read_delay (world r)) = false ->
  device r = RaisesIOError :: answers ->
  files r = misses ++ fs :: later ->
  Forall device_absent misses ->
  fst (find_device None fs) = inl e ->
  __raw r
  = RawRaised (FindRaised e)
      (mkRig (world r)
         (match misses with [] => __dev r | _ :: _ => None end)
         answers later
         (stderr r ++ printed_over (misses ++ [fs]))).
Proof.
  intros R S Hd Hf Hall Hfails.
  unfold __raw. rewrite Hd. cbn [length raw_loop].
  unfold __raw_iteration. rewrite R, S, Hd, Hf. cbn [negb].
  assert (Hhit : forall dev printed,
             reconnect (fs :: later) (world r) dev printed answers
             = RawRaised (FindRaised e)
                 (mkRig (world r) dev answers later
                    (printed ++ snd (find_device None fs)))).
  { intros dev printed. cbn [reconnect]. rewrite time_sleep_half.
    destruct (find_device None fs) as [[e'|[d|]] lines]; cbn in Hfails;
      try discriminate.
    injection Hfails as ->. reflexivity. }
  rewrite (reconnect_after_misses misses Hall).
  unfold printed_over. rewrite map_app, concat_app. cbn [map concat].
  rewrite app_nil_r.
  destruct misses as [|m misses]; rewrite Hhit; [reflexivity|].
  now rewrite app_assoc.
Qed.

Lemma reconnect_ends_on_find_error_witness :
  __raw (mkRig (with_event_capture_running true (fresh [] []))
           (Some (mkInputDevice "/dev/input//event2"%string
                    "Griffin PowerMate"%string))
           [RaisesIOError]
           [mkFileSystem (fun _ => false) (fun _ => None) (fun _ => None)]
           [])
  = RawRaised (FindRaised OSError)
      (mkRig (with_event_capture_running true (fresh [] []))
         (Some (mkInputDevice "/dev/input//event2"%string
                  "Griffin PowerMate"%string))
         [] [] []).
Proof.
  apply (reconnect_ends_on_find_error
           (mkRig (with_event_capture_running true (fresh [] []))
              (Some (mkInputDevice "/dev/input//event2"%string
                       "Griffin PowerMate"%string))
              [RaisesIOError]
              [mkFileSystem (fun _ => false) (fun _ => None)
                 (fun _ => None)]
              [])
           [] []
           (mkFileSystem (fun _ => false) (fun _ => None) (fun _ => None))
           [] OSError);
    first [reflexivity|apply Forall_nil].
Defined.

(** The capture loop is left pending only when the device has no answer
    left or, while reconnecting, no poll is left. *)
Lemma raw_Pending r r' :
  __raw r = RawPending r' -> device r' = [] \/ files r' = [].
Proof.
  unfold __raw.
  assert (Hrec : forall polls w dev printed answers r0,
             reconnect polls w dev printed answers = RawPending r0 ->
             files r0 = []).
  { induction polls as [|fs polls IH]; intros w dev printed answers r0;
      cbn [reconnect].
    - intro H. injection H as <-. reflexivity.
    - rewrite time_sleep_half.
      destruct (find_device None fs) as [[e|[d|]] lines].
      + intro H. discriminate H.
      + rewrite set_led_brightness_eq. intro H. discriminate H.
      + apply IH. }
  assert (Hdev : forall answers polls w dev printed r2,
             reconnect polls w dev printed answers = RawReturned tt r2 ->
             device r2 = answers).
  { intro answers.
    induction polls as [|fs polls IHp]; intros w dev printed r2;
      cbn [reconnect].
    - intro H. discriminate H.
    - rewrite time_sleep_half.
      destruct (find_device None fs) as [[e|[d|]] lines].
      + intro H. discriminate H.
      + rewrite set_led_brightness_eq. intro H. now injection H as <-.
      + apply IHp. }
  assert (L : forall fuel r0,
             (length (device r0) < fuel)%nat ->
             raw_loop fuel r0 = RawPending r' ->
             device r' = [] \/ files r' = []).
  { induction fuel as [|fuel IH]; intros r0 Hfuel; [lia|].
    cbn [raw_loop]. unfold __raw_iteration.
    destruct (negb (__event_capture_running (world r0)));
      [intro H; discriminate H|].
    destruct (select_refuses (__read_delay (world r0)));
      [intro H; discriminate H|].
    destruct (device r0) as [|[|[ev|]| |] answers] eqn:D.
    - intro H. injection H as <-. now left.
    - apply IH. cbn in *. lia.
    - apply IH. cbn in *. lia.
    - apply IH. cbn in *. lia.
    - destruct (reconnect (files r0) (world r0) (__dev r0) (stderr r0)
                  answers) as [u r1|e r1|r1] eqn:Rc.
      + apply IH. destruct u. rewrite (Hdev _ _ _ _ _ _ Rc).
        cbn in Hfuel. lia.
      + intro H. discriminate H.
      + intro H. injection H as <-. right. exact (Hrec _ _ _ _ _ _ Rc).
    - intro H. discriminate H. }
  apply L. lia.
Qed.
